(** * MicroSocks (SocksBypass fork): the SOCKS5 engine of [sockssrv.c]

    A shallow embedding of the wire codec, the authentication policy, the
    per-client state machine and the two relays of
    [src/microsocks/sockssrv.c], with the properties of the specification
    stated over it.

    Conventions.
    - A byte is a [Z] in [0, 256); a buffer is a [list Z]; the received
      length [n] of the C code is the length of the list.
    - A C string stored in a [char] array is the list of the array's bytes;
      [c_str] reads it up to the first NUL, as [strlen], [strcmp] and
      [strncpy] do.
    - System calls are not executed: their results are inputs (oracle
      records), and the calls a function performs are recorded in a trace
      of [io_event]s. *)

From Stdlib Require Import ZArith List Bool Lia.
Import ListNotations.
Open Scope Z_scope.

(** ** Bytes and buffers *)

Definition is_byte (b : Z) : Prop := 0 <= b < 256.
Definition bytes (l : list Z) : Prop := Forall is_byte l.

Definition blen (buf : list Z) : Z := Z.of_nat (length buf).

(** [buf[i]] *)
Definition getb (buf : list Z) (i : Z) : Z := nth (Z.to_nat i) buf 0.

(** [buf + off], [len] bytes of it *)
Definition sub (buf : list Z) (off len : Z) : list Z :=
  firstn (Z.to_nat len) (skipn (Z.to_nat off) buf).

Fixpoint list_eqb (a b : list Z) : bool :=
  match a, b with
  | [], [] => true
  | x :: a', y :: b' => (x =? y) && list_eqb a' b'
  | _, _ => false
  end.

(** ** C strings *)

(** The characters before the first NUL (the end of the list counts as a
    terminator). *)
Fixpoint c_str (s : list Z) : list Z :=
  match s with
  | [] => []
  | c :: r => if c =? 0 then [] else c :: c_str r
  end.

Definition strlen (s : list Z) : Z := blen (c_str s).

(** [strcmp]: the difference of the first differing characters, 0 when both
    strings end together. *)
Fixpoint strcmp (s1 s2 : list Z) : Z :=
  match s1, s2 with
  | [], [] => 0
  | [], c2 :: _ => 0 - c2
  | c1 :: _, [] => c1
  | c1 :: r1, c2 :: r2 =>
      if c1 =? c2 then (if c1 =? 0 then 0 else strcmp r1 r2) else c1 - c2
  end.

(** [strncpy(dst, src, k)]: at most [k] characters of [src], the rest of the
    [k] bytes filled with NUL. *)
Definition strncpy (src : list Z) (k : nat) : list Z :=
  let s := firstn k (c_str src) in
  s ++ repeat 0 (k - length s).

(** ** Constants of [sockssrv.h] *)

(** Modelled from the spec: the header [sockssrv.h] is not part of the
    sources; the values are those of RFC 1928 as the spec lists them
    (section 4.1, section 7 and the glossary). *)
Definition VERSION : Z := 5.
Definition RSV : Z := 0.
Definition CONNECT : Z := 1.
Definition UDP_ASSOCIATE : Z := 3.

Definition SOCKS5_IPV4 : Z := 1.
Definition SOCKS5_DNS : Z := 3.
Definition SOCKS5_IPV6 : Z := 4.

(** Modelled from the spec: "Domain names are bounded by 255". *)
Definition MAX_DNS_LEN : nat := 255.

(** Modelled from the spec: the reply codes of section 7. *)
Definition EC_SUCCESS : Z := 0.
Definition EC_GENERAL_FAILURE : Z := 1.
Definition EC_NOT_ALLOWED : Z := 2.
Definition EC_NET_UNREACHABLE : Z := 3.
Definition EC_HOST_UNREACHABLE : Z := 4.
Definition EC_CONN_REFUSED : Z := 5.
Definition EC_TTL_EXPIRED : Z := 6.
Definition EC_COMMAND_NOT_SUPPORTED : Z := 7.
Definition EC_ADDRESSTYPE_NOT_SUPPORTED : Z := 8.

(** Modelled from the spec: the method bytes of the replies [05 00],
    [05 02] and [05 FF] of section 4.5. *)
Definition AM_NO_AUTH : Z := 0.
Definition AM_USERNAME : Z := 2.
Definition AM_INVALID : Z := 255.

Inductive socks5_socket_type := TCP_SOCKET | UDP_SOCKET.

Inductive address_family := AF_INET | AF_INET6.

Definition family_eqb (a b : address_family) : bool :=
  match a, b with
  | AF_INET, AF_INET => true
  | AF_INET6, AF_INET6 => true
  | _, _ => false
  end.

(** [union sockaddr_union]: family, port (host order) and the raw address
    bytes [SOCKADDR_UNION_ADDRESS] points to. *)
Record sockaddr_union := mk_sockaddr {
  sa_family : address_family;
  sa_port : Z;
  sa_addr : list Z
}.

(** [struct socks5_addrport]; [ap_addr] is the array
    [char addr[MAX_DNS_LEN + 1]]. *)
Record socks5_addrport := mk_addrport {
  ap_type : Z;
  ap_addr : list Z;
  ap_port : Z
}.

(** A function that returns a negative error code or a value. *)
Inductive result (A : Type) :=
| Ok (a : A)
| Err (code : Z).
Arguments Ok {A} a.
Arguments Err {A} code.

(** ** Wire codec *)

Section Codec.

(** [inet_ntop(af, src, dst, 256)] and [inet_pton(af, text, dst)] of the C
    library; [None] is the failure return. *)
Variable inet_ntop : address_family -> list Z -> option (list Z).
Variable inet_pton : address_family -> list Z -> option (list Z).

(** [resolve_tcp] and [resolve_udp] of [server.h]: host string and port to
    an address, [None] when the lookup fails. *)
Variable resolve_tcp : list Z -> Z -> option sockaddr_union.
Variable resolve_udp : list Z -> Z -> option sockaddr_union.

Definition compareSocks5Addrport (a1 a2 : socks5_addrport) : Z :=
  if (ap_type a1 =? ap_type a2)
     && (strcmp (ap_addr a1) (ap_addr a2) =? 0)
     && (ap_port a1 =? ap_port a2)
  then 0 else -1.

Definition resolveSocks5Addrport (addrport : socks5_addrport)
    (stype : socks5_socket_type) : result sockaddr_union :=
  match stype with
  | TCP_SOCKET =>
      match resolve_tcp (c_str (ap_addr addrport)) (ap_port addrport) with
      | None => Err (- EC_GENERAL_FAILURE)
      | Some a => Ok a
      end
  | UDP_SOCKET =>
      match resolve_udp (c_str (ap_addr addrport)) (ap_port addrport) with
      | None => Err (- EC_GENERAL_FAILURE)
      | Some a => Ok a
      end
  end.

(** The tail of [parse_addrport], after the [switch]: fill [*addrport]
    from [namebuf] and the two port bytes. *)
Definition fill_addrport (buf : list Z) (type : Z) (namebuf : list Z)
    (minlen : Z) : result (Z * socks5_addrport) :=
  let addr := strncpy namebuf MAX_DNS_LEN ++ [0] in
  let port :=
    Z.lor (Z.shiftl (getb buf (minlen - 2)) 8) (getb buf (minlen - 1)) in
  Ok (minlen, mk_addrport type addr (port mod 65536)).

Definition parse_addrport (buf : list Z) : result (Z * socks5_addrport) :=
  let n := blen buf in
  if n <? 2 then Err (- EC_GENERAL_FAILURE) else
  let type := getb buf 0 in
  let ip_case (af : address_family) (alen minlen : Z) :=
    if n <? minlen then Err (- EC_GENERAL_FAILURE) else
    match inet_ntop af (sub buf 1 alen) with
    | None => Err (- EC_GENERAL_FAILURE)
    | Some text => fill_addrport buf type (text ++ [0]) minlen
    end in
  if type =? SOCKS5_IPV6 then ip_case AF_INET6 16 (1 + 16 + 2)
  else if type =? SOCKS5_IPV4 then ip_case AF_INET 4 (1 + 4 + 2)
  else if type =? SOCKS5_DNS then
    let l := getb buf 1 in
    let minlen := 1 + (1 + l) + 2 in
    if n <? minlen then Err (- EC_GENERAL_FAILURE) else
    fill_addrport buf type (sub buf 2 l ++ [0]) minlen
  else Err (- EC_ADDRESSTYPE_NOT_SUPPORTED).

(** Returns the command and the resolved address when the C function
    returns [EC_SUCCESS], its negative return value otherwise. *)
Definition parse_socks_request_header (buf : list Z)
    : result (Z * sockaddr_union) :=
  let n := blen buf in
  if n <? 3 then Err (- EC_GENERAL_FAILURE) else
  if negb (getb buf 0 =? VERSION) then Err (- EC_GENERAL_FAILURE) else
  if negb (getb buf 1 =? CONNECT) && negb (getb buf 1 =? UDP_ASSOCIATE)
  then Err (- EC_COMMAND_NOT_SUPPORTED) else
  let cmd := getb buf 1 in
  if negb (getb buf 2 =? RSV) then Err (- EC_GENERAL_FAILURE) else
  match parse_addrport (skipn 3 buf) with
  | Err ret => Err ret
  | Ok (_, addrport) =>
      let socktype := if cmd =? CONNECT then TCP_SOCKET else UDP_SOCKET in
      match resolveSocks5Addrport addrport socktype with
      | Err ret => Err ret
      | Ok svc_addr => Ok (cmd, svc_addr)
      end
  end.

(** Returns the offset of the payload and the target address. *)
Definition extract_udp_data (buf : list Z) : result (Z * socks5_addrport) :=
  let n := blen buf in
  if n <? 3 then Err (- EC_GENERAL_FAILURE) else
  if negb (getb buf 0 =? RSV) || negb (getb buf 1 =? RSV)
  then Err (- EC_GENERAL_FAILURE) else
  if negb (getb buf 2 =? 0) then Err (- EC_GENERAL_FAILURE) else
  let offset := 3 in
  match parse_addrport (skipn (Z.to_nat offset) buf) with
  | Err ret => Err ret
  | Ok (ret, addrport) => Ok (offset + ret, addrport)
  end.

(** The reply header that [copy_loop_udp] builds in [buf] for a datagram
    that arrived from a target socket (the lines between the flow lookup
    and the [recv]). *)
Inductive header_result :=
| HeaderOk (hdr : list Z)
| HeaderLoopEnd
| HeaderAbort.

Definition udp_reply_header (addrport : socks5_addrport) : header_result :=
  let start := [RSV; RSV; 0; ap_type addrport mod 256] in
  let port := [Z.shiftr (ap_port addrport) 8 mod 256;
               Z.land (ap_port addrport) 255] in
  if ap_type addrport =? SOCKS5_DNS then
    let len := strlen (ap_addr addrport) in
    HeaderOk (start ++ [len mod 256] ++ sub (ap_addr addrport) 0 len ++ port)
  else if ap_type addrport =? SOCKS5_IPV4 then
    match inet_pton AF_INET (c_str (ap_addr addrport)) with
    | None => HeaderLoopEnd
    | Some addr_in4 => HeaderOk (start ++ addr_in4 ++ port)
    end
  else if ap_type addrport =? SOCKS5_IPV6 then
    match inet_pton AF_INET6 (c_str (ap_addr addrport)) with
    | None => HeaderLoopEnd
    | Some addr_in6 => HeaderOk (start ++ addr_in6 ++ port)
    end
  else HeaderAbort.

End Codec.

(** ** Authentication policy *)

(** [memcmp(p1, p2, k) == 0] *)
Definition mem_equal (p1 p2 : list Z) (k : nat) : bool :=
  list_eqb (firstn k p1) (firstn k p2).

Definition is_authed (client authedip : sockaddr_union) : bool :=
  let af := sa_family authedip in
  if family_eqb af (sa_family client) then
    let cmpbytes := match af with AF_INET => 4%nat | AF_INET6 => 16%nat end in
    if mem_equal (sa_addr client) (sa_addr authedip) cmpbytes
    then true else false
  else false.

(** The loop over [auth_ips], here the list itself. *)
Fixpoint is_in_authed_list (auth_ips : list sockaddr_union)
    (caddr : sockaddr_union) : bool :=
  match auth_ips with
  | [] => false
  | ip :: rest =>
      if is_authed caddr ip then true else is_in_authed_list rest caddr
  end.

(** Modelled from the spec: [sblist_add] of the growable list [sblist.h]
    (not part of the sources) appends the item at the end. *)
Definition sblist_add {A : Type} (l : list A) (item : A) : list A :=
  l ++ [item].

Definition add_auth_ip (auth_ips : list sockaddr_union)
    (caddr : sockaddr_union) : list sockaddr_union :=
  sblist_add auth_ips caddr.

Section Auth.

(** The statics [auth_user] and [auth_pass], set once by [socks_main]
    ([None] is the null pointer), as C strings. *)
Variable auth_user : option (list Z).
Variable auth_pass : option (list Z).

(** The [while] loop of [check_auth_method] from index [idx] on: [rest] is
    [buf[idx .. n)]. [auth_ips] is the whitelist ([None] when the option -1
    was not given) and [rdlock_rc] what [pthread_rwlock_rdlock] returns. *)
Fixpoint check_auth_method_loop (auth_ips : option (list sockaddr_union))
    (rdlock_rc : Z) (client : sockaddr_union) (rest : list Z)
    (n_methods : Z) : Z :=
  match rest with
  | [] => AM_INVALID
  | m :: rest' =>
      if negb (n_methods >? 0) then AM_INVALID else
      let next :=
        check_auth_method_loop auth_ips rdlock_rc client rest'
          (n_methods - 1) in
      if m =? AM_NO_AUTH then
        match auth_user with
        | None => AM_NO_AUTH
        | Some _ =>
            match auth_ips with
            | Some ips =>
                let authed :=
                  if rdlock_rc =? 0 then is_in_authed_list ips client
                  else false in
                if authed then AM_NO_AUTH else next
            | None => next
            end
        end
      else if m =? AM_USERNAME then
        match auth_user with
        | Some _ => AM_USERNAME
        | None => next
        end
      else next
  end.

Definition check_auth_method (auth_ips : option (list sockaddr_union))
    (rdlock_rc : Z) (buf : list Z) (client : sockaddr_union) : Z :=
  let n := blen buf in
  if negb (getb buf 0 =? 5) then AM_INVALID else
  let idx := 1 in
  if idx >=? n then AM_INVALID else
  let n_methods := getb buf idx in
  let idx := idx + 1 in
  check_auth_method_loop auth_ips rdlock_rc client
    (skipn (Z.to_nat idx) buf) n_methods.

(** The first half of [check_credentials]: the length checks and the two
    [memcpy]s with their terminators. [None] is the return of
    [EC_GENERAL_FAILURE]; otherwise the arrays [user] and [pass] up to and
    including the terminator written at [ulen] and [plen]. *)
Definition check_credentials_extract (buf : list Z)
    : option (list Z * list Z) :=
  let n := blen buf in
  if n <? 5 then None else
  if negb (getb buf 0 =? 1) then None else
  let ulen := getb buf 1 in
  if n <? 2 + ulen + 2 then None else
  let plen := getb buf (2 + ulen) in
  if n <? 2 + ulen + 1 + plen then None else
  let user := sub buf 2 ulen ++ [0] in
  let pass := sub buf (2 + ulen + 1) plen ++ [0] in
  Some (user, pass).

(** The second half: the two [strcmp]s. The function is only called in the
    state [SS_2_NEED_AUTH], which is entered only when [auth_user] is set;
    [socks_main] refuses a user without a password. *)
Definition check_credentials_compare (user pass : list Z) : Z :=
  match auth_user, auth_pass with
  | Some au, Some ap =>
      if (strcmp user au =? 0) && (strcmp pass ap =? 0)
      then EC_SUCCESS else EC_NOT_ALLOWED
  | _, _ => EC_NOT_ALLOWED
  end.

Definition check_credentials (buf : list Z) : Z :=
  match check_credentials_extract buf with
  | None => EC_GENERAL_FAILURE
  | Some (user, pass) => check_credentials_compare user pass
  end.

(** The whitelist update of [clientthread] after a successful
    username/password check: under the write lock, add the client unless it
    is listed. [wrlock_rc] is what [pthread_rwlock_wrlock] returns. *)
Definition clientthread_remember (auth_ips : option (list sockaddr_union))
    (wrlock_rc : Z) (caddr : sockaddr_union)
    : option (list sockaddr_union) :=
  match auth_ips with
  | Some ips =>
      if wrlock_rc =? 0 then
        if negb (is_in_authed_list ips caddr)
        then Some (add_auth_ip ips caddr)
        else Some ips
      else Some ips
  | None => None
  end.

End Auth.

(** ** System interface *)

Inductive errno :=
| EINTR | EAGAIN | ETIMEDOUT | EPROTOTYPE | EPROTONOSUPPORT | EAFNOSUPPORT
| ECONNREFUSED | ENETDOWN | ENETUNREACH | EHOSTUNREACH | EBADF | ENOTCONN
| EOTHER.

(** [errno == EINTR || errno == EAGAIN] *)
Definition is_retry (e : errno) : bool :=
  match e with
  | EINTR | EAGAIN => true
  | _ => false
  end.

(** The calls a function makes, in order. A call whose return value the code
    reads carries that value. *)
Inductive io_event :=
| IoKqueue (kq : Z)
| IoKqAdd (kq : Z) (fds : list Z) (rc : Z)
| IoRead (fd : Z) (res : option (list Z))
| IoWrite (fd : Z) (data : list Z) (m : Z)
| IoWriteNoCheck (fd : Z) (data : list Z)
| IoSocket (fd : Z)
| IoConnect (fd : Z) (addr : sockaddr_union) (rc : Z)
| IoBind (fd : Z) (rc : Z)
| IoGetsockname (fd : Z) (rc : Z)
| IoResolve (host : list Z) (port : Z)
| IoClose (fd : Z)
| IoMutexLock
| IoMutexUnlock
| IoReport (upload download : Z).

(** The return value of [read] / [recv]: the number of bytes, or -1. *)
Definition recv_n (res : option (list Z)) : Z :=
  match res with
  | Some data => blen data
  | None => -1
  end.

Definition recv_buf (res : option (list Z)) : list Z :=
  match res with
  | Some data => data
  | None => []
  end.

Definition send_auth_response (fd version meth : Z) : list io_event :=
  [IoWriteNoCheck fd [version mod 256; meth mod 256]].

(** [send_response] for an address of the family [AF_INET] or [AF_INET6],
    the two families that [sockaddr_union] holds here; for another family
    the C function calls [abort], which has no counterpart in this
    embedding. *)
Definition send_response (fd ec : Z) (addr : sockaddr_union) (write_rc : Z)
    : Z * list io_event :=
  let port := sa_port addr mod 65536 in
  let buf :=
    match sa_family addr with
    | AF_INET =>
        [VERSION; ec mod 256; RSV; SOCKS5_IPV4] ++ sub (sa_addr addr) 0 4
        ++ [Z.shiftr port 8; Z.land port 255]
    | AF_INET6 =>
        [VERSION; ec mod 256; RSV; SOCKS5_IPV6] ++ sub (sa_addr addr) 0 16
        ++ [Z.shiftr port 8; Z.land port 255]
    end in
  (write_rc, [IoWrite fd buf write_rc]).

Definition send_error (fd ec : Z) : list io_event :=
  [IoWriteNoCheck fd [5; ec mod 256; 0; 1; 0; 0; 0; 0; 0; 0]].

(** ** Traffic counters *)

(** [total_upload_bytes] and [total_download_bytes], two [uint64_t]. *)
Definition traffic := (Z * Z)%type.

Definition update_traffic_stats (totals : traffic) (uploaded downloaded : Z)
    : traffic * list io_event :=
  let up := (fst totals + uploaded) mod 2 ^ 64 in
  let down := (snd totals + downloaded) mod 2 ^ 64 in
  ((up, down), [IoMutexLock; IoReport up down; IoMutexUnlock]).

(** ** TCP relay *)

(** One entry of the [events] array that [kevent] fills, with the results of
    the calls made while it is handled. *)
Record read_event := mk_read_event {
  ev_ident : Z;
  ev_is_read : bool;           (* filter == EVFILT_READ *)
  ev_recv : option (list Z);   (* read(infd, buf, sizeof buf) *)
  ev_writes : list Z           (* the successive results of write *)
}.

(** What a call of [kevent(kq, NULL, 0, events, ..)] returns: -1 with an
    [errno], or the ready events. *)
Inductive kevent_result (E : Type) :=
| KevFail (e : errno)
| KevReady (events : list E).
Arguments KevFail {E} e.
Arguments KevReady {E} events.

Record copyloop_sys := mk_copyloop_sys {
  cl_kq : Z;                   (* kqueue() *)
  cl_register_rc : Z;          (* the kevent call that adds fd1 and fd2 *)
  cl_batches : list (kevent_result read_event)
}.

(** How a loop ends: it returned, or it waits for a call whose result the
    oracle does not give any more. *)
Inductive loop_exit := Returned | Blocked.

Inductive write_exit := WriteDone | WriteError | WriteBlocked.

(** [while (sent < n) { m = write(outfd, buf + sent, n - sent); .. }];
    [write] never returns more than the count it is given. *)
Fixpoint write_all (outfd : Z) (buf : list Z) (n sent : Z) (writes : list Z)
    : write_exit * list io_event :=
  if negb (sent <? n) then (WriteDone, []) else
  match writes with
  | [] => (WriteBlocked, [])
  | m0 :: writes' =>
      let m := Z.min m0 (n - sent) in
      let ev := IoWrite outfd (sub buf sent (n - sent)) m in
      if m <? 0 then (WriteError, [ev]) else
      let '(ex, tr) := write_all outfd buf n (sent + m) writes' in
      (ex, ev :: tr)
  end.

Inductive for_exit := ForDone | ForReturn | ForBlocked.

(** The [for] loop over the ready events of [copyloop]. *)
Fixpoint copyloop_events (kq fd1 fd2 : Z) (totals : traffic)
    (events : list read_event) : for_exit * traffic * list io_event :=
  match events with
  | [] => (ForDone, totals, [])
  | e :: rest =>
      let infd := ev_ident e in
      let outfd := if infd =? fd1 then fd2 else fd1 in
      if ev_is_read e then
        let n := recv_n (ev_recv e) in
        let rd := IoRead infd (ev_recv e) in
        if n <=? 0 then (ForReturn, totals, [rd; IoClose kq]) else
        match write_all outfd (recv_buf (ev_recv e)) n 0 (ev_writes e) with
        | (WriteError, tr) => (ForReturn, totals, rd :: tr ++ [IoClose kq])
        | (WriteBlocked, tr) => (ForBlocked, totals, rd :: tr)
        | (WriteDone, tr) =>
            let '(totals', tr2) :=
              if infd =? fd1 then update_traffic_stats totals n 0
              else update_traffic_stats totals 0 n in
            let '(ex, totals'', tr3) :=
              copyloop_events kq fd1 fd2 totals' rest in
            (ex, totals'', rd :: tr ++ tr2 ++ tr3)
        end
      else copyloop_events kq fd1 fd2 totals rest
  end.

(** The [while (1)] loop of [copyloop]. *)
Fixpoint copyloop_loop (kq fd1 fd2 : Z) (totals : traffic)
    (batches : list (kevent_result read_event))
    : loop_exit * traffic * list io_event :=
  match batches with
  | [] => (Blocked, totals, [])
  | KevFail e :: rest =>
      if is_retry e then copyloop_loop kq fd1 fd2 totals rest
      else (Returned, totals, [IoClose kq])
  | KevReady [] :: _ => (Returned, totals, [IoClose kq])
  | KevReady events :: rest =>
      match copyloop_events kq fd1 fd2 totals events with
      | (ForReturn, totals', tr) => (Returned, totals', tr)
      | (ForBlocked, totals', tr) => (Blocked, totals', tr)
      | (ForDone, totals', tr) =>
          let '(ex, totals'', tr2) :=
            copyloop_loop kq fd1 fd2 totals' rest in
          (ex, totals'', tr ++ tr2)
      end
  end.

Definition copyloop (sys : copyloop_sys) (fd1 fd2 : Z) (totals : traffic)
    : loop_exit * traffic * list io_event :=
  let kq := cl_kq sys in
  if kq =? -1 then (Returned, totals, [IoKqueue kq]) else
  let reg := IoKqAdd kq [fd1; fd2] (cl_register_rc sys) in
  if cl_register_rc sys =? -1
  then (Returned, totals, [IoKqueue kq; reg; IoClose kq]) else
  let '(ex, totals', tr) :=
    copyloop_loop kq fd1 fd2 totals (cl_batches sys) in
  (ex, totals', IoKqueue kq :: reg :: tr).

(** ** UDP relay *)

Record fd_socks5addr := mk_fd_addr {
  fs_fd : Z;
  fs_addrport : socks5_addrport
}.

Definition compare_fd_socks5addr_by_fd (i1 i2 : fd_socks5addr) : Z :=
  if fs_fd i1 =? fs_fd i2 then 0 else 1.

Definition compare_fd_socks5addr_by_addrport (ap1 ap2 : fd_socks5addr) : Z :=
  compareSocks5Addrport (fs_addrport ap1) (fs_addrport ap2).

(** Modelled from the spec: [sblist_search] of [sblist.h] (not part of the
    sources) is the linear scan of section 9: the index of the first item
    that compares equal (0) to the key, -1 when there is none. *)
Fixpoint sblist_search {A : Type} (l : list A) (key : A) (cmp : A -> A -> Z)
    : Z :=
  match l with
  | [] => -1
  | x :: rest =>
      if cmp x key =? 0 then 0 else
      let idx := sblist_search rest key cmp in
      if idx =? -1 then -1 else idx + 1
  end.

(** Modelled from the spec: [sblist_item_from_index] of [sblist.h]. *)
Definition sblist_item_from_index {A : Type} (l : list A) (idx : Z)
    : option A :=
  nth_error l (Z.to_nat idx).

(** One ready event of [copy_loop_udp] with the results of the calls made
    while it is handled. *)
Record udp_event := mk_udp_event {
  ue_ident : Z;
  ue_recv : option (list Z);    (* read / recv / recvfrom on the descriptor *)
  ue_errno : errno;             (* errno when that call returned -1 *)
  ue_from : sockaddr_union;     (* the sender recvfrom reports *)
  ue_pin_rc : Z;                (* connect(udp_fd, client_addr) *)
  ue_socket : Z;                (* socket() for a new flow *)
  ue_connect_rc : Z;            (* connect(fd, target_addr) *)
  ue_kevent_rc : Z;             (* kevent that adds the new socket *)
  ue_send_rc : Z                (* send to the target / write to udp_fd *)
}.

Record udp_sys := mk_udp_sys {
  ud_kq : Z;
  ud_register_rc : Z;
  ud_getpeername : option errno;   (* None: getpeername succeeded *)
  ud_item : fd_socks5addr;         (* the uninitialised local [item] *)
  ud_batches : list (kevent_result udp_event)
}.

Record udp_state := mk_udp_state {
  us_bound : bool;                     (* udp_is_bound *)
  us_item : fd_socks5addr;             (* item *)
  us_sock_list : list fd_socks5addr    (* sock_list *)
}.

(** Where control goes after a statement of the [for] body: on to the next
    statement, [continue], [goto UDP_LOOP_END] or [abort()]. *)
Inductive flow := Next | Continue | LoopEnd | Abort.

Section UdpRelay.

Variable inet_ntop : address_family -> list Z -> option (list Z).
Variable inet_pton : address_family -> list Z -> option (list Z).
Variable resolve_tcp : list Z -> Z -> option sockaddr_union.
Variable resolve_udp : list Z -> Z -> option sockaddr_union.

(** [if (fd == tcp_fd) { .. }] *)
Definition udp_tcp_branch (e : udp_event) : flow * list io_event :=
  let rd := IoRead (ue_ident e) (ue_recv e) in
  let n := recv_n (ue_recv e) in
  if n =? 0 then (LoopEnd, [rd])
  else if n =? -1 then
    (if is_retry (ue_errno e) then Continue else LoopEnd, [rd])
  else (Next, [rd]).

(** [if (fd == udp_fd) { .. }] *)
Definition udp_client_branch (kq tcp_fd udp_fd : Z) (st : udp_state)
    (e : udp_event) : flow * udp_state * list io_event :=
  let rd := IoRead udp_fd (ue_recv e) in
  let n := recv_n (ue_recv e) in
  let buf := recv_buf (ue_recv e) in
  if n =? -1 then
    (if is_retry (ue_errno e) then Continue else LoopEnd, st, [rd])
  else
  let pin :=
    if us_bound st then []
    else [IoConnect udp_fd (ue_from e) (ue_pin_rc e)] in
  if negb (us_bound st) && negb (ue_pin_rc e =? 0)
  then (LoopEnd, st, rd :: pin) else
  let st := mk_udp_state true (us_item st) (us_sock_list st) in
  match extract_udp_data inet_ntop buf with
  | Err _ => (LoopEnd, st, rd :: pin)
  | Ok (offset, addrport) =>
      let item := mk_fd_addr (fs_fd (us_item st)) addrport in
      let st := mk_udp_state true item (us_sock_list st) in
      let payload := sub buf offset (n - offset) in
      let idx :=
        sblist_search (us_sock_list st) item
          compare_fd_socks5addr_by_addrport in
      if negb (idx =? -1) then
        match sblist_item_from_index (us_sock_list st) idx with
        | None => (Abort, st, rd :: pin)
        | Some item_found =>
            let send_fd := fs_fd item_found in
            (if ue_send_rc e <? 0 then LoopEnd else Next, st,
             rd :: pin ++ [IoWrite send_fd payload (ue_send_rc e)])
        end
      else
        let res :=
          IoResolve (c_str (ap_addr addrport)) (ap_port addrport) in
        match resolveSocks5Addrport resolve_tcp resolve_udp addrport
                UDP_SOCKET with
        | Err _ => (LoopEnd, st, rd :: pin ++ [res])
        | Ok target_addr =>
            let fd := ue_socket e in
            let con := IoConnect fd target_addr (ue_connect_rc e) in
            if ue_connect_rc e =? -1 then
              (LoopEnd, st,
               rd :: pin ++ [res; IoSocket fd; con]
               ++ send_error tcp_fd EC_GENERAL_FAILURE)
            else
            let item := mk_fd_addr fd addrport in
            let st :=
              mk_udp_state true item (sblist_add (us_sock_list st) item) in
            let add := IoKqAdd kq [fd] (ue_kevent_rc e) in
            if ue_kevent_rc e =? -1 then
              (LoopEnd, st, rd :: pin ++ [res; IoSocket fd; con; add])
            else
            let send_fd := fd in
            (if ue_send_rc e <? 0 then LoopEnd else Next, st,
             rd :: pin ++ [res; IoSocket fd; con; add;
                           IoWrite send_fd payload (ue_send_rc e)])
        end
  end.

(** [if (fd != tcp_fd && fd != udp_fd) { .. }] *)
Definition udp_target_branch (udp_fd : Z) (st : udp_state) (e : udp_event)
    : flow * udp_state * list io_event :=
  let fd := ue_ident e in
  let key := mk_fd_addr fd (fs_addrport (us_item st)) in
  let st := mk_udp_state (us_bound st) key (us_sock_list st) in
  let idx := sblist_search (us_sock_list st) key compare_fd_socks5addr_by_fd in
  if idx =? -1 then (LoopEnd, st, []) else
  match sblist_item_from_index (us_sock_list st) idx with
  | None => (Abort, st, [])
  | Some item =>
      match udp_reply_header inet_pton (fs_addrport item) with
      | HeaderAbort => (Abort, st, [])
      | HeaderLoopEnd => (LoopEnd, st, [])
      | HeaderOk hdr =>
          let rd := IoRead fd (ue_recv e) in
          let n := recv_n (ue_recv e) in
          if n <=? 0 then (LoopEnd, st, [rd]) else
          let out := hdr ++ recv_buf (ue_recv e) in
          (if ue_send_rc e <? 0 then LoopEnd else Next, st,
           [rd; IoWrite udp_fd out (ue_send_rc e)])
      end
  end.

(** The body of the [for] loop: the three [if]s in sequence. *)
Definition copy_loop_udp_event (kq tcp_fd udp_fd : Z) (st : udp_state)
    (e : udp_event) : flow * udp_state * list io_event :=
  let fd := ue_ident e in
  let '(f1, tr1) :=
    if fd =? tcp_fd then udp_tcp_branch e else (Next, []) in
  match f1 with
  | Next =>
      let '(f2, st2, tr2) :=
        if fd =? udp_fd then udp_client_branch kq tcp_fd udp_fd st e
        else (Next, st, []) in
      match f2 with
      | Next =>
          let '(f3, st3, tr3) :=
            if negb (fd =? tcp_fd) && negb (fd =? udp_fd)
            then udp_target_branch udp_fd st2 e
            else (Next, st2, []) in
          (f3, st3, tr1 ++ tr2 ++ tr3)
      | _ => (f2, st2, tr1 ++ tr2)
      end
  | _ => (f1, st, tr1)
  end.

(** The [for] loop; [Next] when all events have been handled. *)
Fixpoint copy_loop_udp_events (kq tcp_fd udp_fd : Z) (st : udp_state)
    (events : list udp_event) : flow * udp_state * list io_event :=
  match events with
  | [] => (Next, st, [])
  | e :: rest =>
      match copy_loop_udp_event kq tcp_fd udp_fd st e with
      | (LoopEnd, st', tr) => (LoopEnd, st', tr)
      | (Abort, st', tr) => (Abort, st', tr)
      | (_, st', tr) =>
          let '(f, st'', tr2) :=
            copy_loop_udp_events kq tcp_fd udp_fd st' rest in
          (f, st'', tr ++ tr2)
      end
  end.

(** The label [UDP_LOOP_END]: close every flow socket, then the kqueue. *)
Definition udp_loop_end (kq : Z) (st : udp_state) : list io_event :=
  map (fun item => IoClose (fs_fd item)) (us_sock_list st) ++ [IoClose kq].

Inductive udp_exit := UdpReturned | UdpBlocked | UdpAborted.

(** The [while (1)] loop followed by [UDP_LOOP_END]. *)
Fixpoint copy_loop_udp_loop (kq tcp_fd udp_fd : Z) (st : udp_state)
    (batches : list (kevent_result udp_event))
    : udp_exit * udp_state * list io_event :=
  match batches with
  | [] => (UdpBlocked, st, [])
  | KevFail e :: rest =>
      if is_retry e then copy_loop_udp_loop kq tcp_fd udp_fd st rest
      else (UdpReturned, st, udp_loop_end kq st)
  | KevReady events :: rest =>
      match copy_loop_udp_events kq tcp_fd udp_fd st events with
      | (LoopEnd, st', tr) => (UdpReturned, st', tr ++ udp_loop_end kq st')
      | (Abort, st', tr) => (UdpAborted, st', tr)
      | (_, st', tr) =>
          let '(ex, st'', tr2) :=
            copy_loop_udp_loop kq tcp_fd udp_fd st' rest in
          (ex, st'', tr ++ tr2)
      end
  end.

Definition copy_loop_udp (sys : udp_sys) (tcp_fd udp_fd : Z)
    : udp_exit * udp_state * list io_event :=
  let kq := ud_kq sys in
  let st0 := mk_udp_state true (ud_item sys) [] in
  if kq =? -1 then (UdpReturned, st0, [IoKqueue kq]) else
  let reg := IoKqAdd kq [tcp_fd; udp_fd] (ud_register_rc sys) in
  if ud_register_rc sys =? -1
  then (UdpReturned, st0, [IoKqueue kq; reg; IoClose kq]) else
  match ud_getpeername sys with
  | Some ENOTCONN =>
      let '(ex, st, tr) :=
        copy_loop_udp_loop kq tcp_fd udp_fd
          (mk_udp_state false (ud_item sys) []) (ud_batches sys) in
      (ex, st, IoKqueue kq :: reg :: tr)
  | Some _ => (UdpAborted, st0, [IoKqueue kq; reg])
  | None =>
      let '(ex, st, tr) :=
        copy_loop_udp_loop kq tcp_fd udp_fd st0 (ud_batches sys) in
      (ex, st, IoKqueue kq :: reg :: tr)
  end.

End UdpRelay.

(** ** Session state machine *)

Inductive socksstate := SS_1_CONNECTED | SS_2_NEED_AUTH | SS_3_AUTHED.

(** The [switch (errno)] under the label [eval_errno]. *)
Definition eval_errno (e : errno) : Z :=
  match e with
  | ETIMEDOUT => - EC_TTL_EXPIRED
  | EPROTOTYPE | EPROTONOSUPPORT | EAFNOSUPPORT =>
      - EC_ADDRESSTYPE_NOT_SUPPORTED
  | ECONNREFUSED => - EC_CONN_REFUSED
  | ENETDOWN | ENETUNREACH => - EC_NET_UNREACHABLE
  | EHOSTUNREACH => - EC_HOST_UNREACHABLE
  | _ => - EC_GENERAL_FAILURE
  end.

(** The results of the calls one client thread makes. *)
Record thread_sys := mk_thread_sys {
  ts_rdlock_rc : Z;               (* pthread_rwlock_rdlock *)
  ts_wrlock_rc : Z;               (* pthread_rwlock_wrlock *)
  ts_socket : Z;                  (* socket() *)
  ts_socket_errno : errno;
  ts_connect_rc : Z;              (* connect() *)
  ts_connect_errno : errno;
  ts_getaddrinfo_rc : Z;          (* getaddrinfo(NULL, "0", ..) *)
  ts_bind_rc : Z;
  ts_getsockname_rc : Z;
  ts_local_addr : sockaddr_union; (* what getsockname stores *)
  ts_response_rc : Z;             (* the write of send_response *)
  ts_copyloop : copyloop_sys;
  ts_udp : udp_sys
}.

Definition connect_socks_target (sys : thread_sys)
    (remote_addr : sockaddr_union) : Z * list io_event :=
  let fd := ts_socket sys in
  if fd =? -1 then (eval_errno (ts_socket_errno sys), [IoSocket fd]) else
  let con := IoConnect fd remote_addr (ts_connect_rc sys) in
  if ts_connect_rc sys =? -1
  then (eval_errno (ts_connect_errno sys), [IoSocket fd; con; IoClose fd])
  else (fd, [IoSocket fd; con]).

(** [s_addr != INADDR_ANY] and [!IN6_ARE_ADDR_EQUAL(.., &in6addr_any)] *)
Definition not_any_address (a : sockaddr_union) : bool :=
  match sa_family a with
  | AF_INET => negb (mem_equal (sa_addr a) (repeat 0 4) 4)
  | AF_INET6 => negb (mem_equal (sa_addr a) (repeat 0 16) 16)
  end.

Definition udp_svc_setup (sys : thread_sys) (client_addr : sockaddr_union)
    : Z * list io_event :=
  let fd := ts_socket sys in
  if fd =? -1 then (eval_errno (ts_socket_errno sys), [IoSocket fd]) else
  if not_any_address client_addr then
    let con := IoConnect fd client_addr (ts_connect_rc sys) in
    if negb (ts_connect_rc sys =? 0) then (-1, [IoSocket fd; con])
    else (fd, [IoSocket fd; con])
  else
  if negb (ts_getaddrinfo_rc sys =? 0)
  then (ts_getaddrinfo_rc sys, [IoSocket fd]) else
  let bnd := IoBind fd (ts_bind_rc sys) in
  if negb (ts_bind_rc sys =? 0) then (-1, [IoSocket fd; bnd])
  else (fd, [IoSocket fd; bnd]).

(** What one pass through the [switch] of [clientthread] does next. *)
Inductive step_exit :=
| StepBreak                (* goto breakloop *)
| StepNext                 (* break out of the switch: next recv *)
| StepAbort                (* abort() *)
| StepBlocked.             (* a relay that does not return *)

Record thread_state := mk_thread_state {
  th_state : socksstate;
  th_auth_ips : option (list sockaddr_union);   (* the shared whitelist *)
  th_totals : traffic                           (* the shared counters *)
}.

Section Session.

Variable inet_ntop : address_family -> list Z -> option (list Z).
Variable inet_pton : address_family -> list Z -> option (list Z).
Variable resolve_tcp : list Z -> Z -> option sockaddr_union.
Variable resolve_udp : list Z -> Z -> option sockaddr_union.
Variable auth_user : option (list Z).
Variable auth_pass : option (list Z).

(** [case SS_3_AUTHED] *)
Definition clientthread_authed (sys : thread_sys) (client_fd : Z)
    (st : thread_state) (buf : list Z)
    : step_exit * thread_state * list io_event :=
  match parse_socks_request_header inet_ntop resolve_tcp resolve_udp buf with
  | Err _ => (StepBreak, st, [])
  | Ok (cmd, address) =>
      if cmd =? CONNECT then
        let '(ret, tr) := connect_socks_target sys address in
        if ret <? 0 then (StepBreak, st, tr ++ send_error client_fd (ret * -1))
        else
        let remotefd := ret in
        let gsn := IoGetsockname remotefd (ts_getsockname_rc sys) in
        if negb (ts_getsockname_rc sys =? 0)
        then (StepBreak, st, tr ++ [gsn]) else
        let '(rc, tr2) :=
          send_response client_fd EC_SUCCESS (ts_local_addr sys)
            (ts_response_rc sys) in
        if rc =? -1
        then (StepBreak, st, tr ++ [gsn] ++ tr2 ++ [IoClose remotefd]) else
        match copyloop (ts_copyloop sys) client_fd remotefd (th_totals st) with
        | (Blocked, totals, tr3) =>
            (StepBlocked,
             mk_thread_state (th_state st) (th_auth_ips st) totals,
             tr ++ [gsn] ++ tr2 ++ tr3)
        | (Returned, totals, tr3) =>
            (StepBreak,
             mk_thread_state (th_state st) (th_auth_ips st) totals,
             tr ++ [gsn] ++ tr2 ++ tr3 ++ [IoClose remotefd])
        end
      else if cmd =? UDP_ASSOCIATE then
        let '(fd, tr) := udp_svc_setup sys address in
        if fd <=? 0 then (StepBreak, st, tr ++ send_error client_fd (fd * -1))
        else
        let gsn := IoGetsockname fd (ts_getsockname_rc sys) in
        if negb (ts_getsockname_rc sys =? 0)
        then (StepBreak, st, tr ++ [gsn]) else
        let '(rc, tr2) :=
          send_response client_fd EC_SUCCESS (ts_local_addr sys)
            (ts_response_rc sys) in
        if rc =? -1
        then (StepBreak, st, tr ++ [gsn] ++ tr2 ++ [IoClose fd]) else
        match copy_loop_udp inet_ntop inet_pton resolve_tcp resolve_udp
                (ts_udp sys) client_fd fd with
        | (UdpBlocked, _, tr3) =>
            (StepBlocked, st, tr ++ [gsn] ++ tr2 ++ tr3)
        | (UdpAborted, _, tr3) =>
            (StepAbort, st, tr ++ [gsn] ++ tr2 ++ tr3)
        | (UdpReturned, _, tr3) =>
            (StepBreak, st, tr ++ [gsn] ++ tr2 ++ tr3 ++ [IoClose fd])
        end
      else (StepAbort, st, [])
  end.

(** The body of the [while] loop of [clientthread] for one received
    message [buf]. *)
Definition clientthread_step (sys : thread_sys) (client_fd : Z)
    (client_addr : sockaddr_union) (st : thread_state) (buf : list Z)
    : step_exit * thread_state * list io_event :=
  match th_state st with
  | SS_1_CONNECTED =>
      let am :=
        check_auth_method auth_user (th_auth_ips st) (ts_rdlock_rc sys) buf
          client_addr in
      let state' :=
        if am =? AM_NO_AUTH then SS_3_AUTHED
        else if am =? AM_USERNAME then SS_2_NEED_AUTH
        else th_state st in
      (if am =? AM_INVALID then StepBreak else StepNext,
       mk_thread_state state' (th_auth_ips st) (th_totals st),
       send_auth_response client_fd 5 am)
  | SS_2_NEED_AUTH =>
      let ret := check_credentials auth_user auth_pass buf in
      let tr := send_auth_response client_fd 1 ret in
      if negb (ret =? EC_SUCCESS) then (StepBreak, st, tr) else
      (StepNext,
       mk_thread_state SS_3_AUTHED
         (clientthread_remember (th_auth_ips st) (ts_wrlock_rc sys)
            client_addr)
         (th_totals st),
       tr)
  | SS_3_AUTHED => clientthread_authed sys client_fd st buf
  end.

(** The [while ((n = recv(..)) > 0)] loop: [msgs] are the successive results
    of [recv]; an empty message is a [recv] that returned 0 or -1, and so is
    the end of the list. *)
Fixpoint clientthread_loop (sys : thread_sys) (client_fd : Z)
    (client_addr : sockaddr_union) (st : thread_state) (msgs : list (list Z))
    : step_exit * thread_state * list io_event :=
  match msgs with
  | [] => (StepBreak, st, [])
  | buf :: rest =>
      if negb (blen buf >? 0) then (StepBreak, st, []) else
      match clientthread_step sys client_fd client_addr st buf with
      | (StepNext, st', tr) =>
          let '(ex, st'', tr2) :=
            clientthread_loop sys client_fd client_addr st' rest in
          (ex, st'', tr ++ tr2)
      | other => other
      end
  end.

(** [clientthread]: the loop, then the label [breakloop], which closes the
    client socket and sets [done]. The boolean is [t->done]. *)
Definition clientthread (sys : thread_sys) (client_fd : Z)
    (client_addr : sockaddr_union) (auth_ips : option (list sockaddr_union))
    (totals : traffic) (msgs : list (list Z))
    : bool * thread_state * list io_event :=
  let st0 := mk_thread_state SS_1_CONNECTED auth_ips totals in
  match clientthread_loop sys client_fd client_addr st0 msgs with
  | (StepBreak, st, tr) => (true, st, tr ++ [IoClose client_fd])
  | (_, st, tr) => (false, st, tr)
  end.

End Session.

(** ** Concurrent whitelist updates

    The critical section of [clientthread] that records an authenticated
    client, run by several threads at once: every thread takes the write
    lock of [auth_ips_lock], tests [is_in_authed_list], calls [add_auth_ip]
    when the test fails and releases the lock. A schedule names the thread
    that takes the next step. *)

Inductive remember_pc :=
| RpLock        (* before pthread_rwlock_wrlock *)
| RpCheck       (* before is_in_authed_list *)
| RpAdd         (* before add_auth_ip *)
| RpUnlock      (* before pthread_rwlock_unlock *)
| RpDone.

Record remember_thread := mk_remember_thread {
  rt_pc : remember_pc;
  rt_addr : sockaddr_union       (* t->client.addr *)
}.

Record whitelist_state := mk_whitelist_state {
  ws_ips : list sockaddr_union;       (* auth_ips *)
  ws_writer : option nat;             (* the thread that holds the lock *)
  ws_threads : list remember_thread
}.

Fixpoint list_update {A : Type} (l : list A) (i : nat) (x : A) : list A :=
  match l, i with
  | [], _ => []
  | _ :: rest, O => x :: rest
  | y :: rest, S j => y :: list_update rest j x
  end.

Definition set_pc (s : whitelist_state) (i : nat) (t : remember_thread)
    (pc : remember_pc) : list remember_thread :=
  list_update (ws_threads s) i (mk_remember_thread pc (rt_addr t)).

(** One step of thread [i]; [None] when the thread cannot move (it waits
    for the lock, or has finished, or does not exist). *)
Definition remember_step (s : whitelist_state) (i : nat)
    : option whitelist_state :=
  match nth_error (ws_threads s) i with
  | None => None
  | Some t =>
      match rt_pc t with
      | RpLock =>
          match ws_writer s with
          | None =>
              Some (mk_whitelist_state (ws_ips s) (Some i)
                      (set_pc s i t RpCheck))
          | Some _ => None
          end
      | RpCheck =>
          if negb (is_in_authed_list (ws_ips s) (rt_addr t))
          then Some (mk_whitelist_state (ws_ips s) (ws_writer s)
                       (set_pc s i t RpAdd))
          else Some (mk_whitelist_state (ws_ips s) (ws_writer s)
                       (set_pc s i t RpUnlock))
      | RpAdd =>
          Some (mk_whitelist_state (add_auth_ip (ws_ips s) (rt_addr t))
                  (ws_writer s) (set_pc s i t RpUnlock))
      | RpUnlock =>
          Some (mk_whitelist_state (ws_ips s) None (set_pc s i t RpDone))
      | RpDone => None
      end
  end.

Fixpoint remember_run (s : whitelist_state) (schedule : list nat)
    : option whitelist_state :=
  match schedule with
  | [] => Some s
  | i :: rest =>
      match remember_step s i with
      | Some s' => remember_run s' rest
      | None => None
      end
  end.

Definition remember_done (t : remember_thread) : bool :=
  match rt_pc t with
  | RpDone => true
  | _ => false
  end.

Definition all_done (s : whitelist_state) : bool :=
  forallb remember_done (ws_threads s).

(** The state in which the clients [addrs] have all just passed the
    credential check. *)
Definition remember_init (ips : list sockaddr_union)
    (addrs : list sockaddr_union) : whitelist_state :=
  mk_whitelist_state ips None (map (mk_remember_thread RpLock) addrs).

(** Two socket addresses with the same IP: same family, same address bytes
    (the port is not looked at). *)
Definition same_ip (a b : sockaddr_union) : Prop :=
  sa_family a = sa_family b /\
  match sa_family a with
  | AF_INET => firstn 4 (sa_addr a) = firstn 4 (sa_addr b)
  | AF_INET6 => firstn 16 (sa_addr a) = firstn 16 (sa_addr b)
  end.

(** ** The Address of the specification and its wire form *)

(** The data model of the spec (section 3): a tag, the raw address bytes
    and a port. *)
Inductive Address :=
| IPv4 (addr : list Z) (port : Z)
| IPv6 (addr : list Z) (port : Z)
| DomainName (name : list Z) (port : Z).

Definition well_formed_port (port : Z) : Prop := 0 <= port < 65536.

Definition well_formed (x : Address) : Prop :=
  match x with
  | IPv4 addr port =>
      length addr = 4%nat /\ bytes addr /\ well_formed_port port
  | IPv6 addr port =>
      length addr = 16%nat /\ bytes addr /\ well_formed_port port
  | DomainName name port =>
      (length name <= 255)%nat /\ bytes name /\ well_formed_port port
  end.

(** The layout of section 4.1: type byte, then 4 or 16 raw bytes or a length
    byte and the name, then the port, big-endian. Written from the spec's
    words, to be compared with [parse_addrport] and [udp_reply_header]. *)
Definition spec_encode_address (x : Address) : list Z :=
  match x with
  | IPv4 addr port => [1] ++ addr ++ [port / 256; port mod 256]
  | IPv6 addr port => [4] ++ addr ++ [port / 256; port mod 256]
  | DomainName name port =>
      [3; blen name] ++ name ++ [port / 256; port mod 256]
  end.

(** The layout of RFC 1929 that section 4.1 gives for the credentials:
    [0x01, ulen, user, plen, pass]. *)
Definition spec_encode_credentials (user pass : list Z) : list Z :=
  [1; blen user] ++ user ++ [blen pass] ++ pass.

(** ** The C library's address conversion *)

Definition addr_len (af : address_family) : nat :=
  match af with
  | AF_INET => 4%nat
  | AF_INET6 => 16%nat
  end.

(** What the proofs use of [inet_ntop] and [inet_pton]: an address of the
    family's size has a text form, which is a C string that fits the
    256-byte buffers, and [inet_pton] reads it back. *)
Definition inet_contract
    (inet_ntop inet_pton : address_family -> list Z -> option (list Z))
    : Prop :=
  forall af b, length b = addr_len af -> bytes b ->
    exists text,
      inet_ntop af b = Some text /\ ~ In 0 text /\
      (length text <= 255)%nat /\ inet_pton af text = Some b.

(** A model of the two functions that meets the contract: dotted decimal
    for IPv4, eight colon-separated hexadecimal groups for IPv6 (without the
    zero compression). *)
Definition dec_text (v : Z) : list Z :=
  if v <? 10 then [48 + v]
  else if v <? 100 then [48 + v / 10; 48 + v mod 10]
  else [48 + v / 100; 48 + v / 10 mod 10; 48 + v mod 10].

Definition hex_digit (d : Z) : Z := if d <? 10 then 48 + d else 87 + d.

Definition hex_text (v : Z) : list Z :=
  if v <? 16 then [hex_digit v]
  else if v <? 256 then [hex_digit (v / 16); hex_digit (v mod 16)]
  else if v <? 4096
  then [hex_digit (v / 256); hex_digit (v / 16 mod 16); hex_digit (v mod 16)]
  else [hex_digit (v / 4096); hex_digit (v / 256 mod 16);
        hex_digit (v / 16 mod 16); hex_digit (v mod 16)].

Definition digit_value (base c : Z) : option Z :=
  if (48 <=? c) && (c <=? 57) then Some (c - 48)
  else if (base =? 16) && (97 <=? c) && (c <=? 102) then Some (c - 87)
  else None.

Fixpoint number_value (base acc : Z) (text : list Z) : option Z :=
  match text with
  | [] => Some acc
  | c :: rest =>
      match digit_value base c with
      | Some d => number_value base (acc * base + d) rest
      | None => None
      end
  end.

(** A group of at most [maxlen] digits with a value below [bound]. *)
Definition group_value (base bound : Z) (maxlen : nat) (text : list Z)
    : option Z :=
  match text with
  | [] => None
  | _ =>
      if (length text <=? maxlen)%nat then
        match number_value base 0 text with
        | Some v => if v <? bound then Some v else None
        | None => None
        end
      else None
  end.

Fixpoint join (sep : Z) (groups : list (list Z)) : list Z :=
  match groups with
  | [] => []
  | [g] => g
  | g :: rest => g ++ sep :: join sep rest
  end.

Fixpoint split_on (sep : Z) (text : list Z) : list (list Z) :=
  match text with
  | [] => [[]]
  | c :: rest =>
      if c =? sep then [] :: split_on sep rest
      else
        match split_on sep rest with
        | [] => [[c]]
        | g :: gs => (c :: g) :: gs
        end
  end.

Fixpoint all_some {A : Type} (l : list (option A)) : option (list A) :=
  match l with
  | [] => Some []
  | None :: _ => None
  | Some x :: rest =>
      match all_some rest with
      | Some xs => Some (x :: xs)
      | None => None
      end
  end.

(** Sixteen bytes as eight 16-bit groups and back. *)
Fixpoint groups_of_bytes (b : list Z) : list Z :=
  match b with
  | hi :: lo :: rest => (hi * 256 + lo) :: groups_of_bytes rest
  | _ => []
  end.

Definition bytes_of_groups (g : list Z) : list Z :=
  flat_map (fun v => [v / 256; v mod 256]) g.

Definition inet_ntop_model (af : address_family) (b : list Z)
    : option (list Z) :=
  if negb (length b =? addr_len af)%nat then None else
  match af with
  | AF_INET => Some (join 46 (map dec_text b))
  | AF_INET6 => Some (join 58 (map hex_text (groups_of_bytes b)))
  end.

Definition inet_pton_model (af : address_family) (text : list Z)
    : option (list Z) :=
  match af with
  | AF_INET =>
      match all_some (map (group_value 10 256 3) (split_on 46 text)) with
      | Some b => if (length b =? 4)%nat then Some b else None
      | None => None
      end
  | AF_INET6 =>
      match all_some (map (group_value 16 65536 4) (split_on 58 text)) with
      | Some g =>
          if (length g =? 8)%nat then Some (bytes_of_groups g) else None
      | None => None
      end
  end.

(** Resolvers for the examples: a numeric IPv4 host resolves to itself, any
    other host does not resolve. *)
Definition resolve_model (host : list Z) (port : Z) : option sockaddr_union :=
  match inet_pton_model AF_INET host with
  | Some b => Some (mk_sockaddr AF_INET port b)
  | None => None
  end.

(** ** What the spec asks of a TCP relay trace

    Written from the words of section 4.3, to be compared with [copyloop]:
    a monitor that reads a trace and accepts it when, in each direction, a
    read happens only after the payload of the previous read has been
    written in full, each write offers exactly the unwritten rest of that
    payload, and the counters are increased, inside the mutex and together
    with the report to the UI, by the bytes of the payloads written in
    full; a payload written in full is counted before the next read and
    before the trace ends ([relay_settled]). The direction [true] is client
    to target (upload). *)

Record relay_view := mk_relay_view {
  rv_pending : list Z * list Z;   (* read and not yet written, per direction *)
  rv_owed : Z * Z;                (* written and not yet counted *)
  rv_locked : bool;               (* inside stats_mutex *)
  rv_totals : traffic             (* the counters as last reported *)
}.

Definition pick {A : Type} (d : bool) (p : A * A) : A :=
  if d then fst p else snd p.

Definition put {A : Type} (d : bool) (p : A * A) (x : A) : A * A :=
  if d then (x, snd p) else (fst p, x).

Definition read_direction (fd1 fd2 fd : Z) : option bool :=
  if fd =? fd1 then Some true else if fd =? fd2 then Some false else None.

Definition write_direction (fd1 fd2 fd : Z) : option bool :=
  if fd =? fd2 then Some true else if fd =? fd1 then Some false else None.

Definition is_nil {A : Type} (l : list A) : bool :=
  match l with
  | [] => true
  | _ => false
  end.

Definition relay_monitor_step (fd1 fd2 : Z) (v : relay_view) (ev : io_event)
    : option relay_view :=
  match ev with
  | IoRead fd res =>
      match read_direction fd1 fd2 fd with
      | Some d =>
          if negb (rv_locked v) && is_nil (pick d (rv_pending v))
             && (fst (rv_owed v) =? 0) && (snd (rv_owed v) =? 0)
          then Some (mk_relay_view (put d (rv_pending v) (recv_buf res))
                       (rv_owed v) false (rv_totals v))
          else None
      | None => None
      end
  | IoWrite fd data m =>
      match write_direction fd1 fd2 fd with
      | Some d =>
          if negb (rv_locked v) && list_eqb data (pick d (rv_pending v))
             && (m <=? blen data)
          then
            if m <? 0 then Some v else
            Some (mk_relay_view
                    (put d (rv_pending v) (skipn (Z.to_nat m) data))
                    (put d (rv_owed v) (pick d (rv_owed v) + m))
                    false (rv_totals v))
          else None
      | None => None
      end
  | IoMutexLock =>
      if rv_locked v then None
      else Some (mk_relay_view (rv_pending v) (rv_owed v) true (rv_totals v))
  | IoReport up down =>
      if rv_locked v && is_nil (fst (rv_pending v))
         && is_nil (snd (rv_pending v))
         && (up =? (fst (rv_totals v) + fst (rv_owed v)) mod 2 ^ 64)
         && (down =? (snd (rv_totals v) + snd (rv_owed v)) mod 2 ^ 64)
      then Some (mk_relay_view (rv_pending v) (0, 0) true (up, down))
      else None
  | IoMutexUnlock =>
      if rv_locked v
      then Some (mk_relay_view (rv_pending v) (rv_owed v) false (rv_totals v))
      else None
  | IoKqueue _ | IoKqAdd _ _ _ | IoClose _ => Some v
  | _ => None
  end.

Fixpoint relay_monitor (fd1 fd2 : Z) (v : relay_view) (tr : list io_event)
    : option relay_view :=
  match tr with
  | [] => Some v
  | ev :: rest =>
      match relay_monitor_step fd1 fd2 v ev with
      | Some v' => relay_monitor fd1 fd2 v' rest
      | None => None
      end
  end.

Definition relay_view_init (totals : traffic) : relay_view :=
  mk_relay_view ([], []) (0, 0) false totals.

(** Where a trace may end: outside the mutex, and with every payload that
    has been written in full counted -- in a direction in which nothing is
    left to write, nothing is owed to the counter. *)
Definition relay_settled (v : relay_view) : Prop :=
  rv_locked v = false /\
  forall d : bool,
    pick d (rv_pending v) = [] -> pick d (rv_owed v) = 0.

(** Every descriptor that [kevent] reports is one of the two registered. *)
Definition idents_ok (fd1 fd2 : Z) (sys : copyloop_sys) : Prop :=
  forall events e, In (KevReady events) (cl_batches sys) -> In e events ->
    ev_ident e = fd1 \/ ev_ident e = fd2.

(** The number of replies a trace sends on the control socket [fd]. *)
Fixpoint replies_on (fd : Z) (tr : list io_event) : nat :=
  match tr with
  | [] => 0%nat
  | IoWriteNoCheck fd' _ :: rest =>
      if fd' =? fd then S (replies_on fd rest) else replies_on fd rest
  | IoWrite fd' _ _ :: rest =>
      if fd' =? fd then S (replies_on fd rest) else replies_on fd rest
  | _ :: rest => replies_on fd rest
  end.

(** The payloads a trace sends on [fd], in order. *)
Fixpoint sends_on (fd : Z) (tr : list io_event) : list (list Z) :=
  match tr with
  | [] => []
  | IoWrite fd' data _ :: rest =>
      if fd' =? fd then data :: sends_on fd rest else sends_on fd rest
  | _ :: rest => sends_on fd rest
  end.

Definition address_tag (x : Address) : Z :=
  match x with
  | IPv4 _ _ => SOCKS5_IPV4
  | IPv6 _ _ => SOCKS5_IPV6
  | DomainName _ _ => SOCKS5_DNS
  end.

Definition address_port (x : Address) : Z :=
  match x with
  | IPv4 _ port | IPv6 _ port | DomainName _ port => port
  end.

(** The array [addr] that holds the C string [s]: the string, NUL up to
    index 254, and the terminator at index 255. *)
Definition c_array (s : list Z) : list Z :=
  s ++ repeat 0 (MAX_DNS_LEN - length s) ++ [0].

(** The C string that [parse_addrport] stores for the address [x]. *)
Definition stored_name (inet_ntop : address_family -> list Z -> option (list Z))
    (x : Address) : list Z :=
  match x with
  | IPv4 addr _ =>
      match inet_ntop AF_INET addr with Some text => text | None => [] end
  | IPv6 addr _ =>
      match inet_ntop AF_INET6 addr with Some text => text | None => [] end
  | DomainName name _ => c_str name
  end.

(** A request as section 4.1 describes it: [05, cmd, 00], a well-formed
    address, and whatever follows. *)
Definition well_formed_request (buf : list Z) : Prop :=
  exists cmd x rest,
    (cmd = CONNECT \/ cmd = UDP_ASSOCIATE) /\ well_formed x /\
    buf = [VERSION; cmd; RSV] ++ spec_encode_address x ++ rest.

(** The lookup that a request with the command [cmd] and the address [x]
    needs: the host is the text of the IP address, or the domain name up
    to its first NUL; a CONNECT is looked up with the TCP resolver, a UDP
    ASSOCIATE with the UDP resolver. *)
Definition request_lookup
    (inet_ntop : address_family -> list Z -> option (list Z))
    (resolve_tcp resolve_udp : list Z -> Z -> option sockaddr_union)
    (cmd : Z) (x : Address) : option sockaddr_union :=
  (if cmd =? CONNECT then resolve_tcp else resolve_udp)
    (stored_name inet_ntop x) (address_port x).

(** A well-formed request whose lookup the resolver answers. *)
Definition resolved_request
    (inet_ntop : address_family -> list Z -> option (list Z))
    (resolve_tcp resolve_udp : list Z -> Z -> option sockaddr_union)
    (buf : list Z) : Prop :=
  exists cmd x rest,
    (cmd = CONNECT \/ cmd = UDP_ASSOCIATE) /\ well_formed x /\
    buf = [VERSION; cmd; RSV] ++ spec_encode_address x ++ rest /\
    request_lookup inet_ntop resolve_tcp resolve_udp cmd x <> None.

(** Exhaustive checks of the text forms. *)
(** The integers [start, start + k). *)
Fixpoint zrange (start : Z) (k : nat) : list Z :=
  match k with
  | O => []
  | S k' => start :: zrange (start + 1) k'
  end.

Definition text_ok (sep : Z) (maxlen : nat) (text : list Z) : bool :=
  forallb (fun c => negb (c =? sep) && negb (c =? 0)) text
  && (length text <=? maxlen)%nat.

Definition dec_ok (v : Z) : bool :=
  match group_value 10 256 3 (dec_text v) with
  | Some w => (w =? v) && text_ok 46 3 (dec_text v)
  | None => false
  end.

Definition hex_ok (v : Z) : bool :=
  match group_value 16 65536 4 (hex_text v) with
  | Some w => (w =? v) && text_ok 58 4 (hex_text v)
  | None => false
  end.

(** What holds of every state that the threads can reach from
    [remember_init ips0 addrs] when all of [addrs] have the IP of [c] and
    [c] is not listed in [ips0]: only the holder of the lock is inside the
    critical section; until the IP is listed the list is [ips0] and no
    thread has left the section; once it is listed the list has grown by
    one and no thread is about to add. *)
Definition in_critical_section (pc : remember_pc) : bool :=
  match pc with
  | RpCheck | RpAdd | RpUnlock => true
  | _ => false
  end.

Definition before_unlock (pc : remember_pc) : bool :=
  match pc with
  | RpLock | RpCheck | RpAdd => true
  | _ => false
  end.

Definition remember_inv (ips0 : list sockaddr_union) (c : sockaddr_union)
    (s : whitelist_state) : Prop :=
  ws_threads s <> [] /\
  (forall i t, nth_error (ws_threads s) i = Some t -> same_ip (rt_addr t) c) /\
  (forall i t, nth_error (ws_threads s) i = Some t ->
     in_critical_section (rt_pc t) = true -> ws_writer s = Some i) /\
  (is_in_authed_list (ws_ips s) c = false ->
     ws_ips s = ips0 /\
     forall i t, nth_error (ws_threads s) i = Some t ->
       before_unlock (rt_pc t) = true) /\
  (is_in_authed_list (ws_ips s) c = true ->
     length (ws_ips s) = S (length ips0) /\
     forall i t, nth_error (ws_threads s) i = Some t -> rt_pc t <> RpAdd).

(** The [connect] that pins the client when [udp_fd] is not yet bound. *)
Definition pin_events (udp_fd : Z) (st : udp_state) (e : udp_event)
    : list io_event :=
  if us_bound st then []
  else [IoConnect udp_fd (ue_from e) (ue_pin_rc e)].

(** Where the [for] body goes after the [send]. *)
Definition send_flow (e : udp_event) : flow :=
  if ue_send_rc e <? 0 then LoopEnd else Next.

(** The trace of [UDP_LOOP_END] for the flow table of [st]. *)
Definition close_all (kq : Z) (st : udp_state) : list io_event :=
  map (fun item => IoClose (fs_fd item)) (us_sock_list st) ++ [IoClose kq].

(** ** Concurrent counter updates

    [update_traffic_stats] run by several relay threads at once, one thread
    per call [(uploaded, downloaded)] of [calls]: lock [stats_mutex], add
    to [total_upload_bytes], add to [total_download_bytes], call
    [update_traffic_stats_ui] with the two totals, unlock. The state keeps
    the totals, the holder of the mutex, where each thread is, and the
    reports the UI has received. *)

Inductive stats_pc :=
| SpLock        (* before pthread_mutex_lock *)
| SpAddUp       (* before total_upload_bytes += uploaded *)
| SpAddDown     (* before total_download_bytes += downloaded *)
| SpReport      (* before update_traffic_stats_ui *)
| SpUnlock      (* before pthread_mutex_unlock *)
| SpDone.

Record stats_state := mk_stats_state {
  ss_totals : traffic;
  ss_holder : option nat;
  ss_pcs : list stats_pc;
  ss_reports : list traffic
}.

(** One step of thread [i]; [None] when the thread cannot move. *)
Definition stats_step (calls : list (Z * Z)) (s : stats_state) (i : nat)
    : option stats_state :=
  match nth_error (ss_pcs s) i, nth_error calls i with
  | Some pc, Some (uploaded, downloaded) =>
      match pc with
      | SpLock =>
          match ss_holder s with
          | None =>
              Some (mk_stats_state (ss_totals s) (Some i)
                      (list_update (ss_pcs s) i SpAddUp) (ss_reports s))
          | Some _ => None
          end
      | SpAddUp =>
          Some (mk_stats_state
                  ((fst (ss_totals s) + uploaded) mod 2 ^ 64,
                   snd (ss_totals s))
                  (ss_holder s) (list_update (ss_pcs s) i SpAddDown)
                  (ss_reports s))
      | SpAddDown =>
          Some (mk_stats_state
                  (fst (ss_totals s),
                   (snd (ss_totals s) + downloaded) mod 2 ^ 64)
                  (ss_holder s) (list_update (ss_pcs s) i SpReport)
                  (ss_reports s))
      | SpReport =>
          Some (mk_stats_state (ss_totals s) (ss_holder s)
                  (list_update (ss_pcs s) i SpUnlock)
                  (ss_reports s ++ [ss_totals s]))
      | SpUnlock =>
          Some (mk_stats_state (ss_totals s) None
                  (list_update (ss_pcs s) i SpDone) (ss_reports s))
      | SpDone => None
      end
  | _, _ => None
  end.

Fixpoint stats_run (calls : list (Z * Z)) (s : stats_state)
    (schedule : list nat) : option stats_state :=
  match schedule with
  | [] => Some s
  | i :: rest =>
      match stats_step calls s i with
      | Some s' => stats_run calls s' rest
      | None => None
      end
  end.

Definition stats_init (totals : traffic) (calls : list (Z * Z))
    : stats_state :=
  mk_stats_state totals None (map (fun _ => SpLock) calls) [].

Definition stats_done (pc : stats_pc) : bool :=
  match pc with
  | SpDone => true
  | _ => false
  end.

(** The sum of the component [f] of the calls that [mask] selects. *)
Fixpoint credited (f : Z * Z -> Z) (calls : list (Z * Z)) (mask : list bool)
    : Z :=
  match calls, mask with
  | c :: calls', b :: mask' =>
      (if b then f c else 0) + credited f calls' mask'
  | _, _ => 0
  end.

(** The totals after exactly the calls that [mask] selects. *)
Definition totals_after (totals : traffic) (calls : list (Z * Z))
    (mask : list bool) : traffic :=
  ((fst totals + credited fst calls mask) mod 2 ^ 64,
   (snd totals + credited snd calls mask) mod 2 ^ 64).

(** Two [uint64_t] values. *)
Definition traffic_ok (totals : traffic) : Prop :=
  0 <= fst totals < 2 ^ 64 /\ 0 <= snd totals < 2 ^ 64.

Definition up_added (pc : stats_pc) : bool :=
  match pc with
  | SpAddDown | SpReport | SpUnlock | SpDone => true
  | _ => false
  end.

Definition down_added (pc : stats_pc) : bool :=
  match pc with
  | SpReport | SpUnlock | SpDone => true
  | _ => false
  end.

Definition holds_mutex (pc : stats_pc) : bool :=
  match pc with
  | SpAddUp | SpAddDown | SpReport | SpUnlock => true
  | _ => false
  end.

(** What holds of every reachable state: only the holder of the mutex is
    between lock and unlock; each counter is the initial value plus the
    calls whose addition to it has been made; every report is the totals
    after a set of whole calls. *)
Definition stats_inv (totals : traffic) (calls : list (Z * Z))
    (s : stats_state) : Prop :=
  (forall i pc, nth_error (ss_pcs s) i = Some pc ->
     holds_mutex pc = true -> ss_holder s = Some i) /\
  fst (ss_totals s) =
    (fst totals + credited fst calls (map up_added (ss_pcs s))) mod 2 ^ 64 /\
  snd (ss_totals s) =
    (snd totals + credited snd calls (map down_added (ss_pcs s))) mod 2 ^ 64 /\
  (forall r, In r (ss_reports s) ->
     exists mask, r = totals_after totals calls mask).

(** The descriptor a payload of direction [d] is read from, and the one it
    is written to. *)
Definition in_fd (fd1 fd2 : Z) (d : bool) : Z := if d then fd1 else fd2.
Definition out_fd (fd1 fd2 : Z) (d : bool) : Z := if d then fd2 else fd1.

(** ** Method selection, read off [check_auth_method] *)

(** The methods of a greeting that the loop of [check_auth_method] looks
    at: the first [buf[1]] of the bytes received after the two header
    bytes. *)
Definition offered_methods (buf : list Z) : list Z :=
  firstn (Z.to_nat (getb buf 1)) (skipn 2 buf).

(** The whitelist lets the client in: it is enabled, the read lock was
    taken, and the client is listed. *)
Definition whitelisted (auth_ips : option (list sockaddr_union))
    (rdlock_rc : Z) (client : sockaddr_union) : bool :=
  match auth_ips with
  | Some ips => (rdlock_rc =? 0) && is_in_authed_list ips client
  | None => false
  end.

(** A method at which the loop returns. *)
Definition method_acceptable (configured listed : bool) (m : Z) : bool :=
  ((m =? AM_NO_AUTH) && (negb configured || listed))
  || ((m =? AM_USERNAME) && configured).

Definition first_acceptable (configured listed : bool) (offered : list Z)
    : Z :=
  match find (method_acceptable configured listed) offered with
  | Some m => m
  | None => AM_INVALID
  end.

Definition is_some {A : Type} (o : option A) : bool :=
  match o with
  | Some _ => true
  | None => false
  end.

(** Some call of [socket] is in the trace. *)
Definition opens_socket (tr : list io_event) : bool :=
  existsb (fun ev => match ev with IoSocket _ => true | _ => false end) tr.

(** How many messages [clientthread] can still take in a state. *)
Definition messages_left (state : socksstate) : nat :=
  match state with
  | SS_1_CONNECTED => 3%nat
  | SS_2_NEED_AUTH => 2%nat
  | SS_3_AUTHED => 1%nat
  end.

(** The address of a [sockaddr_union] as an Address of the spec. *)
Definition sockaddr_address (a : sockaddr_union) : Address :=
  match sa_family a with
  | AF_INET => IPv4 (sa_addr a) (sa_port a)
  | AF_INET6 => IPv6 (sa_addr a) (sa_port a)
  end.

(** The address that [parse_addrport] stores for the well-formed [x]. *)
Definition stored_addrport
    (inet_ntop : address_family -> list Z -> option (list Z)) (x : Address)
    : socks5_addrport :=
  mk_addrport (address_tag x) (c_array (stored_name inet_ntop x))
    (address_port x).

(** The sockets that a trace adds to the kqueue one at a time: in
    [copy_loop_udp] the sockets of the flows (the control socket and
    [udp_fd] are registered together, in one call). *)
Definition flow_sockets (tr : list io_event) : list Z :=
  flat_map (fun ev =>
              match ev with
              | IoKqAdd _ [fd] _ => [fd]
              | _ => []
              end) tr.

(** The descriptors that a trace closes, in order. *)
Definition closed_fds (tr : list io_event) : list Z :=
  flat_map (fun ev =>
              match ev with
              | IoClose fd => [fd]
              | _ => []
              end) tr.

(** No two entries of a flow table compare equal by address. *)
Fixpoint flows_distinct (l : list fd_socks5addr) : bool :=
  match l with
  | [] => true
  | a :: rest =>
      forallb (fun b => negb (compare_fd_socks5addr_by_addrport a b =? 0))
        rest
      && flows_distinct rest
  end.

(** What one step of the UDP relay keeps: the flow table grows by the
    sockets the step adds to the kqueue, stays free of duplicates, and
    nothing is closed. *)
Definition udp_step_ok (st st' : udp_state) (tr : list io_event) : Prop :=
  map fs_fd (us_sock_list st') =
    map fs_fd (us_sock_list st) ++ flow_sockets tr /\
  closed_fds tr = [] /\
  (flows_distinct (us_sock_list st) = true ->
   flows_distinct (us_sock_list st') = true).

(** An address whose type [copy_loop_udp] can put into a reply header. *)
Definition type_known (ap : socks5_addrport) : bool :=
  (ap_type ap =? SOCKS5_DNS) || (ap_type ap =? SOCKS5_IPV4)
  || (ap_type ap =? SOCKS5_IPV6).

Definition flows_typed (l : list fd_socks5addr) : bool :=
  forallb (fun item => type_known (fs_addrport item)) l.

(** ** Start-up *)

(** [zero_arg]: [for (i = 0; i < l; i++) s[i] = 0], with [count] the
    iterations left. *)
Fixpoint zero_arg_loop (s : list Z) (i count : nat) : list Z :=
  match count with
  | O => s
  | S count' => zero_arg_loop (list_update s i 0) (S i) count'
  end.

Definition zero_arg (s : list Z) : list Z :=
  let l := Z.to_nat (strlen s) in
  zero_arg_loop s 0 l.

(** What [getopt(argc, argv, ":1qi:p:u:P:")] returns, with [optarg] for
    the options that take an operand; the last two are [':'] and ['?']. *)
Inductive getopt_result :=
| Opt_1
| Opt_q
| Opt_u (optarg : list Z)
| Opt_P (optarg : list Z)
| Opt_i (optarg : list Z)
| Opt_p (optarg : list Z)
| Opt_missing_operand
| Opt_unknown.

(** The statics and locals that the option loop of [socks_main] sets, and
    the operands of [argv] that [zero_arg] has overwritten. *)
Record socks_config := mk_config {
  cf_auth_ips : option (list sockaddr_union);
  cf_quiet : bool;
  cf_auth_user : option (list Z);
  cf_auth_pass : option (list Z);
  cf_listenip : list Z;
  cf_port : Z;
  cf_wiped : list (list Z)
}.

(** ["0.0.0.0"] and 1080. *)
Definition config_default : socks_config :=
  mk_config None false None None [48; 46; 48; 46; 48; 46; 48] 1080 [].

Section Startup.

(** [atoi] of the C library. *)
Variable atoi : list Z -> Z.

(** The [while ((ch = getopt(..)) != -1)] loop; [None] is [return
    usage()]. [strdup] copies the operand as a C string (it is taken to
    succeed), and [listenip] points to its operand. *)
Fixpoint socks_main_options (opts : list getopt_result) (cfg : socks_config)
    : option socks_config :=
  match opts with
  | [] => Some cfg
  | ch :: rest =>
      match ch with
      | Opt_1 =>
          socks_main_options rest
            (mk_config (Some []) (cf_quiet cfg) (cf_auth_user cfg)
               (cf_auth_pass cfg) (cf_listenip cfg) (cf_port cfg)
               (cf_wiped cfg))
      | Opt_q =>
          socks_main_options rest
            (mk_config (cf_auth_ips cfg) true (cf_auth_user cfg)
               (cf_auth_pass cfg) (cf_listenip cfg) (cf_port cfg)
               (cf_wiped cfg))
      | Opt_u optarg =>
          socks_main_options rest
            (mk_config (cf_auth_ips cfg) (cf_quiet cfg) (Some (c_str optarg))
               (cf_auth_pass cfg) (cf_listenip cfg) (cf_port cfg)
               (cf_wiped cfg ++ [zero_arg optarg]))
      | Opt_P optarg =>
          socks_main_options rest
            (mk_config (cf_auth_ips cfg) (cf_quiet cfg) (cf_auth_user cfg)
               (Some (c_str optarg)) (cf_listenip cfg) (cf_port cfg)
               (cf_wiped cfg ++ [zero_arg optarg]))
      | Opt_i optarg =>
          socks_main_options rest
            (mk_config (cf_auth_ips cfg) (cf_quiet cfg) (cf_auth_user cfg)
               (cf_auth_pass cfg) (c_str optarg) (cf_port cfg)
               (cf_wiped cfg))
      | Opt_p optarg =>
          socks_main_options rest
            (mk_config (cf_auth_ips cfg) (cf_quiet cfg) (cf_auth_user cfg)
               (cf_auth_pass cfg) (cf_listenip cfg)
               (atoi optarg mod 2 ^ 32) (cf_wiped cfg))
      | Opt_missing_operand => None
      | Opt_unknown => None
      end
  end.

(** [socks_main] up to the call of [server_setup]: it returns 1 after
    [usage()] or one of the two error messages, or goes on to serve. *)
Inductive start_result :=
| StartUsage
| StartError
| StartServe (cfg : socks_config).

Definition socks_main_start (opts : list getopt_result) : start_result :=
  match socks_main_options opts config_default with
  | None => StartUsage
  | Some cfg =>
      if (is_some (cf_auth_user cfg) && negb (is_some (cf_auth_pass cfg)))
         || (negb (is_some (cf_auth_user cfg)) && is_some (cf_auth_pass cfg))
      then StartError
      else if is_some (cf_auth_ips cfg) && negb (is_some (cf_auth_pass cfg))
      then StartError
      else StartServe cfg
  end.

End Startup.

(** What the option loop keeps: a stored credential is a C string, and
    every operand of [-u] and [-P] has been wiped. *)
Definition config_ok (cfg : socks_config) : Prop :=
  (forall u, cf_auth_user cfg = Some u -> ~ In 0 u) /\
  (forall p, cf_auth_pass cfg = Some p -> ~ In 0 p) /\
  Forall (fun arg => strlen arg = 0) (cf_wiped cfg).

(** A model of [atoi] for the examples: the value of the leading decimal
    digits. *)
Fixpoint atoi_digits (s : list Z) (acc : Z) : Z :=
  match s with
  | [] => acc
  | c :: rest =>
      if (48 <=? c) && (c <=? 57) then atoi_digits rest (10 * acc + (c - 48))
      else acc
  end.

Definition atoi_model (s : list Z) : Z := atoi_digits s 0.

(** ** Example values *)

(** A client at 10.0.0.1, source port 40000. *)
Definition example_ip : sockaddr_union :=
  mk_sockaddr AF_INET 40000 [10; 0; 0; 1].

(** The same client on another connection. *)
Definition example_ip_again : sockaddr_union :=
  mk_sockaddr AF_INET 40001 [10; 0; 0; 1].

(** The address 8.8.8.8:53 as [parse_addrport] stores it, a datagram of
    three bytes for it, and the event of its arrival on [udp_fd] = 7 (the
    control socket is 5, the kqueue 9, the next new socket 12). *)
Definition example_dns_server : socks5_addrport :=
  mk_addrport SOCKS5_IPV4 (c_array [56; 46; 56; 46; 56; 46; 56]) 53.

Definition example_datagram : list Z :=
  [0; 0; 0; 1; 8; 8; 8; 8; 0; 53; 1; 2; 3].

Definition example_udp_event (datagram : list Z) : udp_event :=
  mk_udp_event 7 (Some datagram) EOTHER example_ip 0 12 0 0 3.

(** A session with one flow, to 8.8.8.8:53 on socket 11, and one with no
    flow. *)
Definition example_flow_state : udp_state :=
  mk_udp_state true (mk_fd_addr 0 example_dns_server)
    [mk_fd_addr 11 example_dns_server].

Definition example_empty_state : udp_state :=
  mk_udp_state true (mk_fd_addr 0 example_dns_server) [].

(** A datagram for the host "xxxxx", which [resolve_model] does not
    resolve. *)
Definition example_unresolved_datagram : list Z :=
  [0; 0; 0; 3; 5; 120; 120; 120; 120; 120; 0; 53; 1; 2; 3].

(** A relay between the client socket 5 and the target socket 6: five
    bytes from the client, written in two pieces, then the end of the
    target's stream; and one in which the write fails. *)
Definition example_relay : copyloop_sys :=
  mk_copyloop_sys 9 0
    [KevReady [mk_read_event 5 true (Some [1; 2; 3; 4; 5]) [2; 3]];
     KevReady [mk_read_event 6 true (Some []) []]].

Definition example_failed_relay : copyloop_sys :=
  mk_copyloop_sys 9 0
    [KevReady [mk_read_event 5 true (Some [1; 2; 3; 4; 5]) [-1]]].

(** Another client, at 10.0.0.2. *)
Definition example_flow_client : sockaddr_union :=
  mk_sockaddr AF_INET 40002 [10; 0; 0; 2].

(** The results of the calls of a thread whose locks are taken, whose
    [socket], [connect] and [getsockname] succeed (new socket 12, local
    address 10.0.0.9:50000) and whose relays end at once. *)
Definition example_thread_sys : thread_sys :=
  mk_thread_sys 0 0 12 EOTHER 0 EOTHER 0 0 0
    (mk_sockaddr AF_INET 50000 [10; 0; 0; 9]) 10
    (mk_copyloop_sys 9 0 [KevReady []])
    (mk_udp_sys 9 0 None (mk_fd_addr 0 example_dns_server)
       [KevFail EOTHER]).

(** An associate on the kqueue 9 that relays [example_datagram] and then
    ends on a failure of [kevent]. *)
Definition example_udp_sys : udp_sys :=
  mk_udp_sys 9 0 None (mk_fd_addr 0 example_dns_server)
    [KevReady [example_udp_event example_datagram]; KevFail EOTHER].

(** An event on the control socket 5 and one on the flow socket 11. *)
Definition example_control_event (res : option (list Z)) : udp_event :=
  mk_udp_event 5 res EOTHER example_ip 0 12 0 0 3.

Definition example_target_event (res : option (list Z)) : udp_event :=
  mk_udp_event 11 res EOTHER example_ip 0 12 0 0 3.

(** The calls of a session whose new socket is 12: the results of
    [connect], [getaddrinfo], [bind] and [getsockname] are given, the
    reply is written in full, the TCP relay is [example_relay] and the
    associate [example_udp_sys]. *)
Definition example_sys (connect_rc : Z) (connect_errno : errno)
    (getaddrinfo_rc bind_rc getsockname_rc : Z) : thread_sys :=
  mk_thread_sys 0 0 12 EOTHER connect_rc connect_errno getaddrinfo_rc
    bind_rc getsockname_rc (mk_sockaddr AF_INET 50000 [10; 0; 0; 9]) 10
    example_relay example_udp_sys.

(** A CONNECT request for 8.8.8.8:53 and a UDP ASSOCIATE request for
    0.0.0.0:0. *)
Definition example_connect_request : list Z :=
  [5; 1; 0; 1; 8; 8; 8; 8; 0; 53].

Definition example_associate_request : list Z :=
  [5; 3; 0; 1; 0; 0; 0; 0; 0; 0].

(** A session that has authenticated. *)
Definition example_authed_state : thread_state :=
  mk_thread_state SS_3_AUTHED None (0, 0).

(** An associate whose [getpeername] fails with [EBADF]. *)
Definition example_unbound_sys : udp_sys :=
  mk_udp_sys 9 0 (Some EBADF) (mk_fd_addr 0 example_dns_server)
    [KevReady [example_udp_event example_datagram]].

(** The options [-1 -u u -P p -p 1081] and the configuration they give. *)
Definition example_options : list getopt_result :=
  [Opt_1; Opt_u [117; 0]; Opt_P [112; 0]; Opt_p [49; 48; 56; 49; 0]].

Definition example_config : socks_config :=
  mk_config (Some []) false (Some [117]) (Some [112])
    [48; 46; 48; 46; 48; 46; 48] 1081 [[0; 0]; [0; 0]].

(** * Properties *)

(** ** Lists, buffers and C strings *)

Lemma list_eqb_eq (a b : list Z) : list_eqb a b = true <-> a = b.
Proof.
  revert b; induction a as [|x a IH]; intros [|y b]; simpl;
    try (split; [discriminate | congruence]); try tauto.
  rewrite andb_true_iff, Z.eqb_eq, IH. split.
  - intros [-> ->]; reflexivity.
  - intros H; inversion H; auto.
Qed.

Lemma list_eqb_refl (a : list Z) : list_eqb a a = true.
Proof. apply list_eqb_eq; reflexivity. Qed.

Lemma blen_nonneg (l : list Z) : 0 <= blen l.
Proof. unfold blen; lia. Qed.

Lemma blen_app (a b : list Z) : blen (a ++ b) = blen a + blen b.
Proof. unfold blen; rewrite length_app; lia. Qed.

Lemma blen_cons (x : Z) (l : list Z) : blen (x :: l) = 1 + blen l.
Proof. unfold blen; simpl length; lia. Qed.

Lemma skipn_app_exact {A : Type} (a b : list A) (k : nat) :
  k = length a -> skipn k (a ++ b) = b.
Proof.
  intros ->. rewrite skipn_app, skipn_all, Nat.sub_diag. reflexivity.
Qed.

Lemma firstn_app_exact {A : Type} (a b : list A) (k : nat) :
  k = length a -> firstn k (a ++ b) = a.
Proof.
  intros ->. rewrite firstn_app, firstn_all, Nat.sub_diag, firstn_O.
  apply app_nil_r.
Qed.

(** The [len] bytes at offset [off] of [pre ++ mid ++ post] are [mid] when
    [pre] has [off] bytes and [mid] has [len]. *)
Lemma sub_middle (pre mid post : list Z) (off len : Z) :
  off = blen pre -> len = blen mid -> sub (pre ++ mid ++ post) off len = mid.
Proof.
  intros -> ->. unfold sub, blen. rewrite !Nat2Z.id.
  rewrite skipn_app_exact by reflexivity.
  apply firstn_app_exact; reflexivity.
Qed.

Lemma getb_app_exact (pre : list Z) (x : Z) (post : list Z) (i : Z) :
  i = blen pre -> getb (pre ++ x :: post) i = x.
Proof.
  intros ->. unfold getb, blen. rewrite Nat2Z.id.
  rewrite app_nth2 by lia. rewrite Nat.sub_diag. reflexivity.
Qed.

Lemma c_str_app_nul (s rest : list Z) : c_str (s ++ 0 :: rest) = c_str s.
Proof.
  induction s as [|c s IH]; simpl; [reflexivity|].
  destruct (c =? 0); [reflexivity | now rewrite IH].
Qed.

Lemma c_str_nul_free (s : list Z) : ~ In 0 s -> c_str s = s.
Proof.
  induction s as [|c s IH]; simpl; intros H; [reflexivity|].
  destruct (Z.eqb_spec c 0) as [->|_]; [tauto|].
  rewrite IH; tauto.
Qed.

Lemma c_str_no_nul (s : list Z) : ~ In 0 (c_str s).
Proof.
  induction s as [|c s IH]; simpl; [tauto|].
  destruct (Z.eqb_spec c 0); simpl; [tauto|]. intuition.
Qed.

Lemma c_str_length (s : list Z) : (length (c_str s) <= length s)%nat.
Proof.
  induction s as [|c s IH]; simpl; [lia|].
  destruct (c =? 0); simpl; lia.
Qed.

(** [strcmp] returns 0 exactly when the two strings agree up to their first
    NUL. *)
Lemma strcmp_zero (s1 s2 : list Z) :
  strcmp s1 s2 = 0 <-> c_str s1 = c_str s2.
Proof.
  revert s2; induction s1 as [|c1 r1 IH]; intros [|c2 r2]; simpl.
  - tauto.
  - destruct (Z.eqb_spec c2 0); split; intros; try lia; try discriminate;
      reflexivity.
  - destruct (Z.eqb_spec c1 0); split; intros; try lia; try discriminate;
      reflexivity.
  - destruct (Z.eqb_spec c1 c2) as [->|Hne].
    + destruct (Z.eqb_spec c2 0); [tauto|].
      rewrite IH. split; [congruence | intros H; inversion H; auto].
    + destruct (Z.eqb_spec c1 0), (Z.eqb_spec c2 0); split; intros H;
        try lia; try discriminate; inversion H; lia.
Qed.

Lemma blen_nil : blen [] = 0.
Proof. reflexivity. Qed.

Ltac blen_norm :=
  repeat (rewrite blen_app || rewrite blen_cons || rewrite blen_nil).

(** ** Credentials (C2, C3) *)

(** On a message laid out as [01, ulen, user, plen, pass], possibly with
    bytes after it, the length checks of [check_credentials] pass exactly
    when the message has at least 5 bytes and at least one byte follows the
    password length; the two strings are then the [user] and [pass]
    arrays. *)
Lemma check_credentials_extract_layout (user pass extra : list Z) :
  check_credentials_extract (spec_encode_credentials user pass ++ extra) =
  if (5 <=? 3 + blen user + blen pass + blen extra)
     && (1 <=? blen pass + blen extra)
  then Some (user ++ [0], pass ++ [0]) else None.
Proof.
  unfold check_credentials_extract, spec_encode_credentials.
  pose proof (blen_nonneg user) as Bu. pose proof (blen_nonneg pass) as Bp.
  pose proof (blen_nonneg extra) as Be.
  set (msg := ([1; blen user] ++ user ++ [blen pass] ++ pass) ++ extra).
  assert (Hn : blen msg = 3 + blen user + blen pass + blen extra).
  { unfold msg. blen_norm. lia. }
  assert (H0 : getb msg 0 = 1) by reflexivity.
  assert (H1 : getb msg 1 = blen user) by reflexivity.
  assert (Hp : getb msg (2 + blen user) = blen pass).
  { unfold msg.
    replace (([1; blen user] ++ user ++ [blen pass] ++ pass) ++ extra)
      with (([1; blen user] ++ user) ++ blen pass :: pass ++ extra)
      by (rewrite <- !app_assoc; reflexivity).
    apply getb_app_exact. blen_norm. lia. }
  assert (Hu : sub msg 2 (blen user) = user).
  { unfold msg. rewrite <- !app_assoc.
    apply (sub_middle [1; blen user] user); reflexivity. }
  assert (Hpw : sub msg (2 + blen user + 1) (blen pass) = pass).
  { unfold msg.
    replace (([1; blen user] ++ user ++ [blen pass] ++ pass) ++ extra)
      with (([1; blen user] ++ user ++ [blen pass]) ++ pass ++ extra)
      by (rewrite <- !app_assoc; reflexivity).
    apply sub_middle; [|reflexivity].
    blen_norm; lia. }
  rewrite Hn, H0, H1, Hp, Hu, Hpw. rewrite Z.eqb_refl. cbn [negb].
  repeat match goal with
         | |- context [Z.ltb ?a ?b] => destruct (Z.ltb_spec a b)
         | |- context [Z.leb ?a ?b] => destruct (Z.leb_spec a b)
         end; cbn [andb]; try reflexivity; lia.
Qed.

Lemma check_credentials_compare_spec (auth_user auth_pass user pass : list Z) :
  check_credentials_compare (Some auth_user) (Some auth_pass)
    (user ++ [0]) (pass ++ [0]) =
  if list_eqb (c_str user) (c_str auth_user)
     && list_eqb (c_str pass) (c_str auth_pass)
  then EC_SUCCESS else EC_NOT_ALLOWED.
Proof.
  unfold check_credentials_compare.
  assert (E : forall s a,
             (strcmp (s ++ [0]) a =? 0) = list_eqb (c_str s) (c_str a)).
  { intros s a. apply eq_true_iff_eq.
    rewrite Z.eqb_eq, strcmp_zero, c_str_app_nul, list_eqb_eq. tauto. }
  rewrite !E. reflexivity.
Qed.
Lemma getb_firstn (l : list Z) (k : nat) (i : Z) :
  0 <= i < Z.of_nat k -> getb (firstn k l) i = getb l i.
Proof.
  intros H. unfold getb.
  destruct (Nat.lt_ge_cases (Z.to_nat i) (length l)) as [Hl|Hl].
  - rewrite <- (firstn_skipn k l) at 2.
    rewrite app_nth1; [reflexivity|]. rewrite length_firstn. lia.
  - rewrite !nth_overflow; [reflexivity | lia |].
    rewrite length_firstn. lia.
Qed.

(** C3 (amended). On an input laid out as [01, ulen, user, plen, pass] with
    both lengths at most 255, [check_credentials] gets past its length
    checks, with [user] and [pass] as the two strings, when the password has
    at least one byte and the two strings at least two bytes together;
    otherwise (an empty password, or an empty user with a one-byte
    password) it returns [EC_GENERAL_FAILURE], as it does on every proper
    prefix of the input. *)
Theorem C3_parse_credentials (user pass : list Z) :
  (length user <= 255)%nat -> (length pass <= 255)%nat ->
  let msg := spec_encode_credentials user pass in
  (1 <= blen pass -> 2 <= blen user + blen pass ->
   check_credentials_extract msg = Some (user ++ [0], pass ++ [0]))
  /\ (blen pass < 1 \/ blen user + blen pass < 2 ->
      forall au ap, check_credentials au ap msg = EC_GENERAL_FAILURE)
  /\ (forall k au ap, (k < length msg)%nat ->
      check_credentials au ap (firstn k msg) = EC_GENERAL_FAILURE).
Proof.
  intros _ _ msg.
  pose proof (check_credentials_extract_layout user pass []) as L.
  rewrite app_nil_r in L. fold msg in L. change (blen []) with 0 in L.
  pose proof (blen_nonneg user) as Bu. pose proof (blen_nonneg pass) as Bp.
  split; [|split].
  - intros H1 H2. rewrite L.
    destruct (Z.leb_spec 5 (3 + blen user + blen pass + 0)); [|lia].
    destruct (Z.leb_spec 1 (blen pass + 0)); [reflexivity | lia].
  - intros H au ap. unfold check_credentials. rewrite L.
    destruct (Z.leb_spec 5 (3 + blen user + blen pass + 0));
      destruct (Z.leb_spec 1 (blen pass + 0)); try reflexivity; lia.
  - intros k au ap Hk. unfold check_credentials.
    assert (E : check_credentials_extract (firstn k msg) = None);
      [|now rewrite E].
    assert (Hm : blen msg = 3 + blen user + blen pass).
    { unfold msg, spec_encode_credentials. blen_norm. lia. }
    assert (Hn : blen (firstn k msg) = Z.of_nat k).
    { unfold blen. rewrite length_firstn. lia. }
    unfold check_credentials_extract. rewrite Hn.
    destruct (Z.ltb_spec (Z.of_nat k) 5); [reflexivity|].
    destruct (negb (getb (firstn k msg) 0 =? 1)); [reflexivity|].
    rewrite (getb_firstn msg k 1) by lia.
    change (getb msg 1) with (blen user).
    destruct (Z.ltb_spec (Z.of_nat k) (2 + blen user + 2)); [reflexivity|].
    rewrite (getb_firstn msg k (2 + blen user)) by lia.
    assert (Hp : getb msg (2 + blen user) = blen pass).
    { unfold msg, spec_encode_credentials.
      replace ([1; blen user] ++ user ++ [blen pass] ++ pass)
        with (([1; blen user] ++ user) ++ blen pass :: pass)
        by (rewrite <- !app_assoc; reflexivity).
      apply getb_app_exact. blen_norm. lia. }
    rewrite Hp.
    destruct (Z.ltb_spec (Z.of_nat k) (2 + blen user + 1 + blen pass));
      [reflexivity|].
    unfold blen in *. lia.
Qed.

Lemma C3_parse_credentials_witness :
  (length [97] <= 255)%nat /\ (length [98] <= 255)%nat /\
  check_credentials_extract (spec_encode_credentials [97] [98]) =
    Some ([97; 0], [98; 0]).
Proof.
  split; [simpl; lia|]. split; [simpl; lia|].
  apply (C3_parse_credentials [97] [98]); unfold blen; simpl; lia.
Defined.

(** C3 as stated fails: the input [01 00 00], laid out with
    [ulen = plen = 0], is refused. *)
Lemma C3_counterexample :
  spec_encode_credentials [] [] = [1; 0; 0] /\
  check_credentials_extract [1; 0; 0] = None /\
  check_credentials (Some [97]) (Some [98]) [1; 0; 0] = EC_GENERAL_FAILURE.
Proof. repeat split. Qed.

(** C2 (amended). For an offered user and password whose message passes the
    length checks, [check_credentials] returns [EC_SUCCESS] exactly when the
    offered user and the offered password, each cut at its first NUL byte,
    are the configured C strings, and [EC_NOT_ALLOWED] otherwise; for offers
    and credentials without NUL bytes that is equality of the byte
    sequences. *)
Theorem C2_verify_credentials (auth_user auth_pass user pass : list Z) :
  (length user <= 255)%nat -> (length pass <= 255)%nat ->
  1 <= blen pass -> 2 <= blen user + blen pass ->
  let ret :=
    check_credentials (Some auth_user) (Some auth_pass)
      (spec_encode_credentials user pass) in
  (ret = EC_SUCCESS <->
   c_str user = c_str auth_user /\ c_str pass = c_str auth_pass)
  /\ (ret = EC_SUCCESS \/ ret = EC_NOT_ALLOWED)
  /\ (~ In 0 user -> ~ In 0 pass -> ~ In 0 auth_user -> ~ In 0 auth_pass ->
      (ret = EC_SUCCESS <-> user = auth_user /\ pass = auth_pass)).
Proof.
  intros Hu Hp H1 H2 ret.
  assert (E : ret =
              if list_eqb (c_str user) (c_str auth_user)
                 && list_eqb (c_str pass) (c_str auth_pass)
              then EC_SUCCESS else EC_NOT_ALLOWED).
  { unfold ret, check_credentials.
    pose proof (check_credentials_extract_layout user pass []) as L.
    rewrite app_nil_r in L. rewrite L. change (blen []) with 0.
    destruct (Z.leb_spec 5 (3 + blen user + blen pass + 0)); [|lia].
    destruct (Z.leb_spec 1 (blen pass + 0)); [|lia].
    apply check_credentials_compare_spec. }
  assert (A : ret = EC_SUCCESS <->
              c_str user = c_str auth_user /\ c_str pass = c_str auth_pass).
  { rewrite E, <- !list_eqb_eq, <- andb_true_iff.
    destruct (_ && _); split; (reflexivity || discriminate). }
  split; [exact A|]. split.
  - rewrite E. destruct (_ && _); auto.
  - intros N1 N2 N3 N4. rewrite A.
    rewrite !c_str_nul_free by assumption. tauto.
Qed.

Lemma C2_verify_credentials_witness :
  (length [97] <= 255)%nat /\ (length [98] <= 255)%nat /\
  1 <= blen [98] /\ 2 <= blen [97] + blen [98] /\
  (check_credentials (Some [97]) (Some [98])
     (spec_encode_credentials [97] [98]) = EC_SUCCESS <->
   c_str [97] = c_str [97] /\ c_str [98] = c_str [98]).
Proof.
  assert (H1 : (length [97] <= 255)%nat) by (simpl; lia).
  assert (H2 : (length [98] <= 255)%nat) by (simpl; lia).
  assert (H3 : 1 <= blen [98]) by (unfold blen; simpl; lia).
  assert (H4 : 2 <= blen [97] + blen [98]) by (unfold blen; simpl; lia).
  repeat (split; [assumption|]).
  exact (proj1 (C2_verify_credentials [97] [98] [97] [98] H1 H2 H3 H4)).
Defined.

(** C2 as stated fails: with the credentials ("a", "b") the offer of the
    user [61 00 78] (an "a", a NUL and an "x") with the password "b" is
    accepted, although the user is not the configured one. *)
Lemma C2_counterexample :
  check_credentials (Some [97]) (Some [98])
    (spec_encode_credentials [97; 0; 120] [98]) = EC_SUCCESS
  /\ [97; 0; 120] <> [97].
Proof. split; [reflexivity | discriminate]. Qed.

(** ** Method selection (C4) *)

Section MethodSelection.

Variable auth_user : list Z.
Variable ips : list sockaddr_union.
Variable client : sockaddr_union.
Hypothesis whitelisted : is_in_authed_list ips client = true.

Lemma check_auth_method_loop_no_auth (pre post : list Z) (n_methods : Z) :
  ~ In AM_USERNAME pre -> Z.of_nat (length pre) < n_methods ->
  check_auth_method_loop (Some auth_user) (Some ips) 0 client
    (pre ++ AM_NO_AUTH :: post) n_methods = AM_NO_AUTH.
Proof.
  revert n_methods; induction pre as [|m pre IH]; intros nm Hno Hlen;
    simpl in *.
  - destruct (Z.gtb_spec nm 0); [|lia]. simpl. now rewrite whitelisted.
  - destruct (Z.gtb_spec nm 0); [|lia]. cbn [negb].
    destruct (Z.eqb_spec m AM_NO_AUTH).
    + now rewrite whitelisted.
    + destruct (Z.eqb_spec m AM_USERNAME); [tauto|].
      apply IH; [tauto | lia].
Qed.

Lemma check_auth_method_loop_username (pre post : list Z) (n_methods : Z) :
  ~ In AM_NO_AUTH pre -> ~ In AM_USERNAME pre ->
  Z.of_nat (length pre) < n_methods ->
  check_auth_method_loop (Some auth_user) (Some ips) 0 client
    (pre ++ AM_USERNAME :: post) n_methods = AM_USERNAME.
Proof.
  revert n_methods; induction pre as [|m pre IH]; intros nm Hno Hnu Hlen;
    simpl in *.
  - destruct (Z.gtb_spec nm 0); [|lia]. reflexivity.
  - destruct (Z.gtb_spec nm 0); [|lia]. cbn [negb].
    destruct (Z.eqb_spec m AM_NO_AUTH); [tauto|].
    destruct (Z.eqb_spec m AM_USERNAME); [tauto|].
    apply IH; [tauto | tauto | lia].
Qed.

End MethodSelection.

(** C4 (amended). With credentials configured, the whitelist enabled and
    read, and the client's IP in it, a greeting whose counted methods offer
    NoAuth with no UsernamePassword before it is answered with NoAuth; one
    that offers UsernamePassword before any NoAuth is answered with
    UsernamePassword: between the two, the first in the client's list
    decides. *)
Theorem C4_select_method (auth_user : list Z) (ips : list sockaddr_union)
    (client : sockaddr_union) (n_methods : Z) (pre post : list Z) :
  is_in_authed_list ips client = true ->
  Z.of_nat (length pre) < n_methods ->
  ~ In AM_USERNAME pre ->
  check_auth_method (Some auth_user) (Some ips) 0
    (5 :: n_methods :: pre ++ AM_NO_AUTH :: post) client = AM_NO_AUTH
  /\ (~ In AM_NO_AUTH pre ->
      check_auth_method (Some auth_user) (Some ips) 0
        (5 :: n_methods :: pre ++ AM_USERNAME :: post) client = AM_USERNAME).
Proof.
  intros Hw Hlen Hnu. unfold check_auth_method.
  change (getb (5 :: n_methods :: ?l) 0) with 5.
  change (getb (5 :: n_methods :: ?l) 1) with n_methods.
  rewrite !blen_cons. cbn [negb Z.eqb Pos.eqb].
  split; [|intros Hno].
  - pose proof (blen_nonneg (pre ++ AM_NO_AUTH :: post)).
    destruct (Z.geb_spec 1 (1 + (1 + blen (pre ++ AM_NO_AUTH :: post))));
      [lia|].
    now apply check_auth_method_loop_no_auth.
  - pose proof (blen_nonneg (pre ++ AM_USERNAME :: post)).
    destruct (Z.geb_spec 1 (1 + (1 + blen (pre ++ AM_USERNAME :: post))));
      [lia|].
    now apply check_auth_method_loop_username.
Qed.

Lemma C4_select_method_witness :
  is_in_authed_list [example_ip] example_ip = true /\
  Z.of_nat (length [1]) < 3 /\
  ~ In AM_USERNAME [1] /\
  check_auth_method (Some [97]) (Some [example_ip]) 0 [5; 3; 1; 0; 2]
    example_ip = AM_NO_AUTH.
Proof.
  assert (H1 : is_in_authed_list [example_ip] example_ip = true) by reflexivity.
  assert (H2 : Z.of_nat (length [1]) < 3) by (simpl; lia).
  assert (H3 : ~ In AM_USERNAME [1]).
  { simpl. intros [H|[]]. discriminate H. }
  repeat (split; [assumption|]).
  exact (proj1 (C4_select_method [97] [example_ip] example_ip 3 [1] [2]
                  H1 H2 H3)).
Defined.

(** C4 as stated fails: the whitelisted client that offers
    UsernamePassword and then NoAuth is asked for its credentials. *)
Lemma C4_counterexample :
  is_in_authed_list [example_ip] example_ip = true /\
  In AM_NO_AUTH [2; 0] /\
  check_auth_method (Some [97]) (Some [example_ip]) 0 [5; 2; 2; 0]
    example_ip = AM_USERNAME /\
  AM_USERNAME <> AM_NO_AUTH.
Proof.
  split; [reflexivity|]. split; [simpl; auto|].
  split; [reflexivity | discriminate].
Qed.

(** ** The model of [inet_ntop] and [inet_pton] meets the contract *)

Lemma split_on_no_sep (sep : Z) (g : list Z) :
  ~ In sep g -> split_on sep g = [g].
Proof.
  induction g as [|c g IH]; simpl; intros H; [reflexivity|].
  destruct (Z.eqb_spec c sep) as [->|_]; [tauto|].
  rewrite IH by tauto. reflexivity.
Qed.

Lemma split_on_app_sep (sep : Z) (g text : list Z) :
  ~ In sep g -> split_on sep (g ++ sep :: text) = g :: split_on sep text.
Proof.
  induction g as [|c g IH]; simpl; intros H.
  - now rewrite Z.eqb_refl.
  - destruct (Z.eqb_spec c sep) as [->|_]; [tauto|].
    rewrite IH by tauto. reflexivity.
Qed.

Lemma split_on_join (sep : Z) (groups : list (list Z)) :
  groups <> [] -> Forall (fun g => ~ In sep g) groups ->
  split_on sep (join sep groups) = groups.
Proof.
  induction groups as [|g rest IH]; intros Hne Hall; [congruence|].
  inversion Hall as [|? ? Hg Hrest]; subst.
  destruct rest as [|g' rest'].
  - simpl. now apply split_on_no_sep.
  - change (join sep (g :: g' :: rest'))
      with (g ++ sep :: join sep (g' :: rest')).
    rewrite split_on_app_sep by assumption.
    rewrite IH; [reflexivity | discriminate | assumption].
Qed.

Lemma all_some_map {A : Type} (f : list Z -> option A) (g : A -> list Z)
    (l : list A) :
  Forall (fun v => f (g v) = Some v) l ->
  all_some (map f (map g l)) = Some l.
Proof.
  induction 1 as [|v l Hv _ IH]; simpl; [reflexivity|].
  now rewrite Hv, IH.
Qed.

Lemma join_no_nul (sep : Z) (groups : list (list Z)) :
  sep <> 0 -> Forall (fun g => ~ In 0 g) groups -> ~ In 0 (join sep groups).
Proof.
  intros Hsep. induction 1 as [|g rest Hg _ IH]; simpl; [tauto|].
  destruct rest as [|g' rest']; [assumption|].
  rewrite in_app_iff. simpl. intros [H|[H|H]]; [tauto | congruence | tauto].
Qed.

Lemma join_length (sep : Z) (k : nat) (groups : list (list Z)) :
  Forall (fun g => (length g <= k)%nat) groups ->
  (length (join sep groups) <= (k + 1) * length groups)%nat.
Proof.
  induction 1 as [|g rest Hg _ IH]; simpl; [lia|].
  destruct rest as [|g' rest']; [simpl; lia|].
  rewrite length_app. simpl length in *. lia.
Qed.

Lemma zrange_in (v start : Z) (k : nat) :
  start <= v < start + Z.of_nat k -> In v (zrange start k).
Proof.
  revert start; induction k as [|k IH]; intros start H; simpl; [lia|].
  destruct (Z.eq_dec start v); [now left | right]. apply IH. lia.
Qed.

Lemma text_ok_spec (sep : Z) (maxlen : nat) (text : list Z) :
  text_ok sep maxlen text = true ->
  ~ In sep text /\ ~ In 0 text /\ (length text <= maxlen)%nat.
Proof.
  unfold text_ok. rewrite andb_true_iff, forallb_forall, Nat.leb_le.
  intros [H L]. repeat split; [| |exact L]; intros Hin; apply H in Hin;
    rewrite Z.eqb_refl in Hin; simpl in Hin;
    try discriminate; rewrite andb_false_r in Hin; discriminate.
Qed.

Lemma dec_text_ok (v : Z) :
  0 <= v < 256 ->
  group_value 10 256 3 (dec_text v) = Some v /\
  ~ In 46 (dec_text v) /\ ~ In 0 (dec_text v) /\
  (length (dec_text v) <= 3)%nat.
Proof.
  intros H.
  assert (A : forallb dec_ok (zrange 0 (Z.to_nat 256)) = true)
    by (vm_compute; reflexivity).
  rewrite forallb_forall in A.
  specialize (A v (zrange_in v 0 (Z.to_nat 256) ltac:(lia))).
  unfold dec_ok in A.
  destruct (group_value 10 256 3 (dec_text v)) as [w|]; [|discriminate].
  apply andb_true_iff in A as [E T]. apply Z.eqb_eq in E. subst w.
  split; [reflexivity | now apply text_ok_spec].
Qed.

Lemma hex_text_ok (v : Z) :
  0 <= v < 65536 ->
  group_value 16 65536 4 (hex_text v) = Some v /\
  ~ In 58 (hex_text v) /\ ~ In 0 (hex_text v) /\
  (length (hex_text v) <= 4)%nat.
Proof.
  intros H.
  assert (A : forallb hex_ok (zrange 0 (Z.to_nat 65536)) = true)
    by (vm_compute; reflexivity).
  rewrite forallb_forall in A.
  specialize (A v (zrange_in v 0 (Z.to_nat 65536) ltac:(lia))).
  unfold hex_ok in A.
  destruct (group_value 16 65536 4 (hex_text v)) as [w|]; [|discriminate].
  apply andb_true_iff in A as [E T]. apply Z.eqb_eq in E. subst w.
  split; [reflexivity | now apply text_ok_spec].
Qed.

Lemma groups_of_bytes_spec (k : nat) (b : list Z) :
  length b = (2 * k)%nat -> bytes b ->
  bytes_of_groups (groups_of_bytes b) = b /\
  length (groups_of_bytes b) = k /\
  Forall (fun g => 0 <= g < 65536) (groups_of_bytes b).
Proof.
  revert b; induction k as [|k IH]; intros b Hlen Hb.
  - destruct b; [|discriminate]. repeat split. constructor.
  - destruct b as [|hi [|lo rest]]; simpl in Hlen; try lia.
    inversion Hb as [|? ? Hhi Hb']; subst.
    inversion Hb' as [|? ? Hlo Hrest]; subst.
    destruct (IH rest) as (E & L & F); [simpl in Hlen; lia | assumption|].
    unfold is_byte in *.
    change (groups_of_bytes (hi :: lo :: rest))
      with ((hi * 256 + lo) :: groups_of_bytes rest).
    change (bytes_of_groups ((hi * 256 + lo) :: groups_of_bytes rest))
      with ((hi * 256 + lo) / 256 :: (hi * 256 + lo) mod 256
            :: bytes_of_groups (groups_of_bytes rest)).
    rewrite E. simpl length. rewrite L.
    repeat split.
    + f_equal; [|f_equal].
      * rewrite Z.div_add_l by lia. rewrite Z.div_small by lia. lia.
      * rewrite Z.add_comm, Z.mod_add by lia. apply Z.mod_small; lia.
    + constructor; [lia | assumption].
Qed.

Lemma inet_model_contract : inet_contract inet_ntop_model inet_pton_model.
Proof.
  intros af b Hlen Hb. unfold inet_ntop_model. rewrite Hlen, Nat.eqb_refl.
  cbn [negb]. destruct af; simpl in Hlen.
  - exists (join 46 (map dec_text b)).
    assert (D : Forall (fun v => 0 <= v < 256) b) by exact Hb.
    assert (G : Forall (fun g => ~ In 46 g) (map dec_text b)).
    { apply Forall_map. eapply Forall_impl; [|exact D].
      intros v Hv. now apply dec_text_ok. }
    assert (N : Forall (fun g => ~ In 0 g) (map dec_text b)).
    { apply Forall_map. eapply Forall_impl; [|exact D].
      intros v Hv. now apply dec_text_ok. }
    assert (L : Forall (fun g => (length g <= 3)%nat) (map dec_text b)).
    { apply Forall_map. eapply Forall_impl; [|exact D].
      intros v Hv. now apply dec_text_ok. }
    split; [reflexivity|]. split; [apply join_no_nul; [lia | exact N]|].
    split.
    + pose proof (join_length 46 3 _ L) as J. rewrite length_map, Hlen in J.
      lia.
    + unfold inet_pton_model.
      rewrite split_on_join; [|destruct b; discriminate|exact G].
      rewrite all_some_map.
      * now rewrite Hlen.
      * eapply Forall_impl; [|exact D]. intros v Hv. now apply dec_text_ok.
  - destruct (groups_of_bytes_spec 8 b Hlen Hb) as (E & Lg & F).
    set (gs := groups_of_bytes b) in *.
    exists (join 58 (map hex_text gs)).
    assert (G : Forall (fun g => ~ In 58 g) (map hex_text gs)).
    { apply Forall_map. eapply Forall_impl; [|exact F].
      intros v Hv. now apply hex_text_ok. }
    assert (N : Forall (fun g => ~ In 0 g) (map hex_text gs)).
    { apply Forall_map. eapply Forall_impl; [|exact F].
      intros v Hv. now apply hex_text_ok. }
    assert (L : Forall (fun g => (length g <= 4)%nat) (map hex_text gs)).
    { apply Forall_map. eapply Forall_impl; [|exact F].
      intros v Hv. now apply hex_text_ok. }
    split; [reflexivity|]. split; [apply join_no_nul; [lia | exact N]|].
    split.
    + pose proof (join_length 58 4 _ L) as J. rewrite length_map, Lg in J.
      lia.
    + unfold inet_pton_model.
      rewrite split_on_join; [|destruct gs; discriminate|exact G].
      rewrite all_some_map.
      * now rewrite Lg, E.
      * eapply Forall_impl; [|exact F]. intros v Hv. now apply hex_text_ok.
Qed.

(** ** Wire codec (C5, C6) *)

Lemma sub_skipn (buf : list Z) (off len : Z) :
  0 <= off -> 0 <= len ->
  skipn (Z.to_nat off) buf =
  sub buf off len ++ skipn (Z.to_nat (off + len)) buf.
Proof.
  intros Ho Hl. unfold sub.
  rewrite Z2Nat.inj_add by lia. rewrite Nat.add_comm, <- skipn_skipn.
  symmetry; apply firstn_skipn.
Qed.

Lemma sub_length (buf : list Z) (off len : Z) :
  0 <= off -> 0 <= len -> off + len <= blen buf ->
  blen (sub buf off len) = len.
Proof.
  intros Ho Hl H. unfold sub, blen in *.
  rewrite length_firstn, length_skipn. lia.
Qed.

Lemma sub_one (buf : list Z) (off : Z) :
  0 <= off < blen buf -> sub buf off 1 = [getb buf off].
Proof.
  intros H. unfold sub, getb, blen in *.
  remember (Z.to_nat off) as k eqn:Hk.
  assert (Hlt : (k < length buf)%nat) by lia. clear H Hk.
  revert buf Hlt; induction k as [|k IH]; intros [|x buf] Hlt;
    simpl in *; try lia; [reflexivity|].
  apply IH. lia.
Qed.

Lemma sub_two (buf : list Z) (off : Z) :
  0 <= off -> off + 2 <= blen buf ->
  sub buf off 2 = [getb buf off; getb buf (off + 1)].
Proof.
  intros Ho H.
  assert (E : sub buf off 2 = sub buf off 1 ++ sub buf (off + 1) 1).
  { unfold sub. change (Z.to_nat 2) with (1 + 1)%nat.
    rewrite Z2Nat.inj_add by lia. change (Z.to_nat 1) with 1%nat.
    rewrite (Nat.add_comm (Z.to_nat off) 1), <- skipn_skipn.
    remember (skipn (Z.to_nat off) buf) as l. destruct l as [|x [|y l]];
      reflexivity. }
  rewrite E, !sub_one by lia. reflexivity.
Qed.

Lemma bytes_getb (buf : list Z) (i : Z) : bytes buf -> is_byte (getb buf i).
Proof.
  intros H. unfold getb.
  destruct (Nat.lt_ge_cases (Z.to_nat i) (length buf)) as [L|L].
  - eapply Forall_forall; [exact H | now apply nth_In].
  - rewrite nth_overflow by lia. unfold is_byte; lia.
Qed.

Lemma bytes_sub (buf : list Z) (off len : Z) :
  bytes buf -> bytes (sub buf off len).
Proof.
  intros H. unfold sub, bytes in *.
  rewrite <- (firstn_skipn (Z.to_nat off) buf) in H.
  apply Forall_app in H as [_ H].
  rewrite <- (firstn_skipn (Z.to_nat len) (skipn (Z.to_nat off) buf)) in H.
  now apply Forall_app in H as [H _].
Qed.

Lemma port_decode (hi lo : Z) :
  is_byte hi -> is_byte lo ->
  Z.lor (Z.shiftl hi 8) lo mod 65536 = hi * 256 + lo.
Proof.
  unfold is_byte; intros Hhi Hlo.
  assert (L : Z.land (Z.shiftl hi 8) lo = 0).
  { apply Z.bits_inj'. intros k Hk.
    rewrite Z.land_spec, Z.bits_0.
    destruct (Z.lt_ge_cases k 8).
    - rewrite Z.shiftl_spec_low by lia. reflexivity.
    - rewrite (Z.bits_above_log2 lo k); [apply andb_false_r | lia |].
      destruct (Z.eq_dec lo 0) as [->|]; [simpl; lia|].
      apply Z.log2_lt_pow2; [lia|].
      apply Z.lt_le_trans with (2 ^ 8); [lia|].
      apply Z.pow_le_mono_r; lia. }
  rewrite <- Z.lxor_lor by exact L.
  rewrite <- Z.add_nocarry_lxor by exact L.
  rewrite Z.shiftl_mul_pow2 by lia.
  change (2 ^ 8) with 256. apply Z.mod_small. lia.
Qed.

Lemma port_encode (port : Z) :
  well_formed_port port ->
  Z.shiftr port 8 mod 256 = port / 256 /\ Z.land port 255 = port mod 256.
Proof.
  unfold well_formed_port; intros H. split.
  - rewrite Z.shiftr_div_pow2 by lia. change (2 ^ 8) with 256.
    apply Z.mod_small. split; [apply Z.div_pos; lia|].
    apply Z.div_lt_upper_bound; lia.
  - change 255 with (Z.ones 8). rewrite Z.land_ones by lia. reflexivity.
Qed.

Lemma port_bytes (port : Z) :
  well_formed_port port ->
  is_byte (port / 256) /\ is_byte (port mod 256) /\
  port / 256 * 256 + port mod 256 = port.
Proof.
  unfold well_formed_port, is_byte; intros H.
  pose proof (Z.div_mod port 256 ltac:(lia)).
  pose proof (Z.mod_pos_bound port 256 ltac:(lia)).
  repeat split; lia.
Qed.

(** What [strncpy] and the terminator at index 255 leave in [addr] for a
    NUL-terminated [namebuf]. *)
Lemma strncpy_namebuf (s rest : list Z) :
  (length (c_str s) <= MAX_DNS_LEN)%nat ->
  strncpy (s ++ 0 :: rest) MAX_DNS_LEN ++ [0] = c_array (c_str s).
Proof.
  intros H. unfold strncpy, c_array. rewrite c_str_app_nul.
  rewrite firstn_all2 by exact H. now rewrite <- app_assoc.
Qed.

Lemma c_array_tail (s : list Z) :
  c_array s = s ++ 0 :: repeat 0 (MAX_DNS_LEN - length s).
Proof.
  unfold c_array. f_equal.
  change [0] with (repeat 0 1). rewrite <- repeat_app.
  rewrite Nat.add_1_r. reflexivity.
Qed.

Lemma c_str_c_array (s : list Z) : ~ In 0 s -> c_str (c_array s) = s.
Proof.
  intros H. rewrite c_array_tail, c_str_app_nul. now apply c_str_nul_free.
Qed.

Lemma sub_c_array (s : list Z) : sub (c_array s) 0 (blen s) = s.
Proof.
  unfold sub, blen. rewrite Nat2Z.id. simpl skipn.
  unfold c_array. now apply firstn_app_exact.
Qed.
(** [getb l i = x] where [l] is [pre ++ x :: post] up to association. *)
Ltac getb_at pre x post :=
  match goal with
  | |- getb ?l ?i = _ =>
      replace l with (pre ++ x :: post)
        by (rewrite <- ?app_assoc; reflexivity);
      apply getb_app_exact; blen_norm; try lia
  end.

Section CodecProofs.

Variable inet_ntop : address_family -> list Z -> option (list Z).
Variable inet_pton : address_family -> list Z -> option (list Z).
Hypothesis libc : inet_contract inet_ntop inet_pton.

Lemma stored_name_ip (af : address_family) (addr : list Z) :
  length addr = addr_len af -> bytes addr ->
  exists text,
    inet_ntop af addr = Some text /\ ~ In 0 text /\
    (length text <= MAX_DNS_LEN)%nat /\ inet_pton af text = Some addr.
Proof. intros Hl Hb. exact (libc af addr Hl Hb). Qed.

Lemma parse_addrport_ip (af : address_family) (type : Z) (addr : list Z)
    (port : Z) (rest text : list Z) :
  (af = AF_INET /\ type = SOCKS5_IPV4 \/ af = AF_INET6 /\ type = SOCKS5_IPV6) ->
  length addr = addr_len af -> well_formed_port port ->
  inet_ntop af addr = Some text -> ~ In 0 text ->
  (length text <= MAX_DNS_LEN)%nat ->
  parse_addrport inet_ntop
    (([type] ++ addr ++ [port / 256; port mod 256]) ++ rest) =
  Ok (1 + Z.of_nat (addr_len af) + 2, mk_addrport type (c_array text) port).
Proof.
  intros Haf Hlen Hport Hntop Hnul Htext.
  set (buf := ([type] ++ addr ++ [port / 256; port mod 256]) ++ rest).
  pose proof (blen_nonneg rest) as Br.
  assert (Ha : blen addr = Z.of_nat (addr_len af)) by (unfold blen; lia).
  assert (Hn : blen buf = 1 + Z.of_nat (addr_len af) + 2 + blen rest).
  { unfold buf. blen_norm. lia. }
  assert (H0 : getb buf 0 = type) by reflexivity.
  assert (Hs : sub buf 1 (Z.of_nat (addr_len af)) = addr).
  { unfold buf. rewrite <- !app_assoc.
    apply (sub_middle [type] addr); [reflexivity | lia]. }
  assert (Hhi : getb buf (1 + Z.of_nat (addr_len af)) = port / 256).
  { unfold buf.
    getb_at ([type] ++ addr) (port / 256) (port mod 256 :: rest). }
  assert (Hlo : getb buf (1 + Z.of_nat (addr_len af) + 1) = port mod 256).
  { unfold buf.
    getb_at ([type] ++ addr ++ [port / 256]) (port mod 256) rest. }
  destruct (port_bytes port Hport) as (Bhi & Blo & Hp).
  assert (Hfill : fill_addrport buf type (text ++ [0])
                    (1 + Z.of_nat (addr_len af) + 2) =
                  Ok (1 + Z.of_nat (addr_len af) + 2,
                      mk_addrport type (c_array text) port)).
  { unfold fill_addrport.
    replace (1 + Z.of_nat (addr_len af) + 2 - 2)
      with (1 + Z.of_nat (addr_len af)) by lia.
    replace (1 + Z.of_nat (addr_len af) + 2 - 1)
      with (1 + Z.of_nat (addr_len af) + 1) by lia.
    rewrite Hhi, Hlo, port_decode, Hp by assumption.
    rewrite strncpy_namebuf; rewrite (c_str_nul_free text Hnul);
      [reflexivity | exact Htext]. }
  unfold parse_addrport. fold buf. rewrite Hn, H0.
  destruct (Z.ltb_spec (1 + Z.of_nat (addr_len af) + 2 + blen rest) 2);
    [lia|].
  destruct Haf as [[-> ->]|[-> ->]]; simpl addr_len in *;
    cbn [Z.eqb SOCKS5_IPV6 SOCKS5_IPV4 Pos.eqb];
    change (Z.of_nat 4) with 4 in *; change (Z.of_nat 16) with 16 in *.
  - destruct (Z.ltb_spec (1 + 4 + 2 + blen rest) (1 + 4 + 2)); [lia|].
    rewrite Hs, Hntop. exact Hfill.
  - destruct (Z.ltb_spec (1 + 16 + 2 + blen rest) (1 + 16 + 2)); [lia|].
    rewrite Hs, Hntop. exact Hfill.
Qed.

Lemma parse_addrport_dns (name : list Z) (port : Z) (rest : list Z) :
  (length name <= MAX_DNS_LEN)%nat -> well_formed_port port ->
  parse_addrport inet_ntop
    (([SOCKS5_DNS; blen name] ++ name ++ [port / 256; port mod 256]) ++ rest) =
  Ok (1 + (1 + blen name) + 2,
      mk_addrport SOCKS5_DNS (c_array (c_str name)) port).
Proof.
  intros Hlen Hport.
  set (buf := ([SOCKS5_DNS; blen name] ++ name
               ++ [port / 256; port mod 256]) ++ rest).
  pose proof (blen_nonneg rest) as Br. pose proof (blen_nonneg name) as Bn.
  assert (Hn : blen buf = 1 + (1 + blen name) + 2 + blen rest).
  { unfold buf. blen_norm. lia. }
  assert (H0 : getb buf 0 = SOCKS5_DNS) by reflexivity.
  assert (H1 : getb buf 1 = blen name) by reflexivity.
  assert (Hs : sub buf 2 (blen name) = name).
  { unfold buf. rewrite <- !app_assoc.
    apply (sub_middle [SOCKS5_DNS; blen name] name); reflexivity. }
  assert (Hhi : getb buf (2 + blen name) = port / 256).
  { unfold buf.
    getb_at ([SOCKS5_DNS; blen name] ++ name) (port / 256)
      (port mod 256 :: rest). }
  assert (Hlo : getb buf (2 + blen name + 1) = port mod 256).
  { unfold buf.
    getb_at ([SOCKS5_DNS; blen name] ++ name ++ [port / 256])
      (port mod 256) rest. }
  destruct (port_bytes port Hport) as (Bhi & Blo & Hp).
  unfold parse_addrport. fold buf. rewrite Hn, H0, H1.
  destruct (Z.ltb_spec (1 + (1 + blen name) + 2 + blen rest) 2); [lia|].
  cbn [Z.eqb SOCKS5_IPV6 SOCKS5_IPV4 SOCKS5_DNS Pos.eqb].
  destruct (Z.ltb_spec (1 + (1 + blen name) + 2 + blen rest)
              (1 + (1 + blen name) + 2)); [lia|].
  unfold fill_addrport.
  replace (1 + (1 + blen name) + 2 - 2) with (2 + blen name) by lia.
  replace (1 + (1 + blen name) + 2 - 1) with (2 + blen name + 1) by lia.
  rewrite Hs, Hhi, Hlo, port_decode, Hp by assumption.
  rewrite strncpy_namebuf; [reflexivity|].
  pose proof (c_str_length name). lia.
Qed.

(** [parse_addrport] on the wire form of a well-formed address, whatever
    follows it. *)
Lemma parse_addrport_encode (x : Address) (rest : list Z) :
  well_formed x ->
  parse_addrport inet_ntop (spec_encode_address x ++ rest) =
  Ok (blen (spec_encode_address x),
      mk_addrport (address_tag x) (c_array (stored_name inet_ntop x))
        (address_port x))
  /\ ~ In 0 (stored_name inet_ntop x)
  /\ (length (stored_name inet_ntop x) <= MAX_DNS_LEN)%nat.
Proof.
  destruct x as [addr port|addr port|name port]; simpl well_formed;
    intros (Hlen & Hb & Hport).
  - destruct (stored_name_ip AF_INET addr Hlen Hb)
      as (text & Hn & Hz & Hl & _).
    unfold stored_name. rewrite Hn. split; [|split; assumption].
    change (spec_encode_address (IPv4 addr port) ++ rest)
      with (([SOCKS5_IPV4] ++ addr ++ [port / 256; port mod 256]) ++ rest).
    rewrite (parse_addrport_ip AF_INET SOCKS5_IPV4 addr port rest text);
      auto. unfold spec_encode_address.
    simpl address_tag; simpl address_port. do 2 f_equal.
    blen_norm. unfold blen. rewrite Hlen. reflexivity.
  - destruct (stored_name_ip AF_INET6 addr Hlen Hb)
      as (text & Hn & Hz & Hl & _).
    unfold stored_name. rewrite Hn. split; [|split; assumption].
    change (spec_encode_address (IPv6 addr port) ++ rest)
      with (([SOCKS5_IPV6] ++ addr ++ [port / 256; port mod 256]) ++ rest).
    rewrite (parse_addrport_ip AF_INET6 SOCKS5_IPV6 addr port rest text);
      auto. unfold spec_encode_address.
    simpl address_tag; simpl address_port. do 2 f_equal.
    blen_norm. unfold blen. rewrite Hlen. reflexivity.
  - unfold stored_name. split; [|split].
    + change (spec_encode_address (DomainName name port) ++ rest)
        with (([SOCKS5_DNS; blen name] ++ name
               ++ [port / 256; port mod 256]) ++ rest).
      rewrite (parse_addrport_dns name port rest) by assumption.
      unfold spec_encode_address.
      simpl address_tag; simpl address_port. do 2 f_equal.
      blen_norm. lia.
    + apply c_str_no_nul.
    + pose proof (c_str_length name). unfold MAX_DNS_LEN. lia.
Qed.

End CodecProofs.
Lemma buf_layout (buf : list Z) (k len : Z) :
  0 <= k -> 0 <= len -> k + len + 2 <= blen buf ->
  buf = sub buf 0 k ++ sub buf k len
        ++ [getb buf (k + len); getb buf (k + len + 1)]
        ++ skipn (Z.to_nat (k + len + 2)) buf.
Proof.
  intros Hk Hl Hn.
  rewrite <- (sub_two buf (k + len)) by lia.
  rewrite <- (sub_skipn buf (k + len) 2) by lia.
  rewrite <- (sub_skipn buf k len) by lia.
  unfold sub at 1. change (Z.to_nat 0) with 0%nat. rewrite skipn_O.
  symmetry; apply firstn_skipn.
Qed.

Lemma port_of_bytes (hi lo : Z) :
  is_byte hi -> is_byte lo ->
  well_formed_port (hi * 256 + lo) /\
  (hi * 256 + lo) / 256 = hi /\ (hi * 256 + lo) mod 256 = lo.
Proof.
  unfold is_byte, well_formed_port. intros H1 H2. repeat split; try lia.
  - rewrite Z.div_add_l by lia. rewrite Z.div_small by lia. lia.
  - rewrite Z.add_comm, Z.mod_add by lia. apply Z.mod_small; lia.
Qed.

Section CodecClaims.

Variable inet_ntop : address_family -> list Z -> option (list Z).
Variable inet_pton : address_family -> list Z -> option (list Z).

(** Whatever [parse_addrport] accepts starts with the wire form of a
    well-formed address. *)
Lemma parse_addrport_ok_inv (buf : list Z) (r : Z * socks5_addrport) :
  bytes buf -> parse_addrport inet_ntop buf = Ok r ->
  exists x rest, well_formed x /\ buf = spec_encode_address x ++ rest.
Proof.
  intros Hb. unfold parse_addrport.
  destruct (Z.ltb_spec (blen buf) 2) as [|Hn2]; [discriminate|].
  assert (Hip : forall af k tag,
    (k = 4 /\ tag = 1 \/ k = 16 /\ tag = 4) -> getb buf 0 = tag ->
    (if blen buf <? 1 + k + 2 then Err (- EC_GENERAL_FAILURE)
     else match inet_ntop af (sub buf 1 k) with
          | Some text =>
              fill_addrport buf (getb buf 0) (text ++ [0]) (1 + k + 2)
          | None => Err (- EC_GENERAL_FAILURE)
          end) = Ok r ->
    exists x rest, well_formed x /\ buf = spec_encode_address x ++ rest).
  { intros af k tag Hk H0.
    destruct (Z.ltb_spec (blen buf) (1 + k + 2)) as [|Hn]; [discriminate|].
    intros _.
    destruct (port_of_bytes (getb buf (1 + k)) (getb buf (1 + k + 1)))
      as (Hp & Hhi & Hlo); try now apply bytes_getb.
    pose proof (buf_layout buf 1 k ltac:(lia) ltac:(lia) ltac:(lia)) as L.
    rewrite sub_one, H0 in L by lia.
    assert (Hlen : blen (sub buf 1 k) = k) by (apply sub_length; lia).
    destruct Hk as [[-> ->]|[-> ->]].
    - exists (IPv4 (sub buf 1 4)
                (getb buf (1 + 4) * 256 + getb buf (1 + 4 + 1))),
             (skipn (Z.to_nat (1 + 4 + 2)) buf).
      split.
      + simpl. split; [unfold blen in Hlen; lia|].
        split; [now apply bytes_sub | exact Hp].
      + unfold spec_encode_address. rewrite Hhi, Hlo.
        rewrite <- !app_assoc. exact L.
    - exists (IPv6 (sub buf 1 16)
                (getb buf (1 + 16) * 256 + getb buf (1 + 16 + 1))),
             (skipn (Z.to_nat (1 + 16 + 2)) buf).
      split.
      + simpl. split; [unfold blen in Hlen; lia|].
        split; [now apply bytes_sub | exact Hp].
      + unfold spec_encode_address. rewrite Hhi, Hlo.
        rewrite <- !app_assoc. exact L. }
  cbv zeta.
  destruct (Z.eqb_spec (getb buf 0) SOCKS5_IPV6) as [E6|_].
  { apply (Hip AF_INET6 16 4); auto. }
  destruct (Z.eqb_spec (getb buf 0) SOCKS5_IPV4) as [E4|_].
  { apply (Hip AF_INET 4 1); auto. }
  destruct (Z.eqb_spec (getb buf 0) SOCKS5_DNS) as [E3|_]; [|discriminate].
  set (l := getb buf 1).
  destruct (Z.ltb_spec (blen buf) (1 + (1 + l) + 2)) as [|Hn]; [discriminate|].
  intros _.
  assert (Bl : is_byte l) by now apply bytes_getb.
  unfold is_byte in Bl.
  destruct (port_of_bytes (getb buf (2 + l)) (getb buf (2 + l + 1)))
    as (Hp & Hhi & Hlo); try now apply bytes_getb.
  pose proof (buf_layout buf 2 l ltac:(lia) ltac:(lia) ltac:(lia)) as L.
  rewrite (sub_two buf 0) in L by lia. rewrite E3 in L.
  change (getb buf (0 + 1)) with l in L.
  assert (Hlen : blen (sub buf 2 l) = l) by (apply sub_length; lia).
  exists (DomainName (sub buf 2 l)
            (getb buf (2 + l) * 256 + getb buf (2 + l + 1))),
         (skipn (Z.to_nat (2 + l + 2)) buf).
  split.
  - simpl. split; [unfold blen in Hlen; lia|].
    split; [now apply bytes_sub | exact Hp].
  - unfold spec_encode_address. rewrite Hhi, Hlo, Hlen.
    rewrite <- !app_assoc. exact L.
Qed.

Hypothesis libc : inet_contract inet_ntop inet_pton.

(** The header that [copy_loop_udp] builds from the parsed address is the
    wire form again, except that a domain name is cut at its first NUL. *)
Lemma udp_reply_header_stored (x : Address) :
  well_formed x ->
  (forall name port, x = DomainName name port -> ~ In 0 name) ->
  udp_reply_header inet_pton
    (mk_addrport (address_tag x) (c_array (stored_name inet_ntop x))
       (address_port x)) =
  HeaderOk ([RSV; RSV; 0] ++ spec_encode_address x).
Proof.
  destruct x as [addr port|addr port|name port]; simpl well_formed;
    intros (Hlen & Hb & Hport) Hname;
    destruct (port_encode port Hport) as (Ehi & Elo);
    unfold udp_reply_header; cbn [ap_type ap_addr ap_port address_tag
      address_port]; rewrite Ehi, Elo.
  - destruct (stored_name_ip inet_ntop inet_pton libc AF_INET addr Hlen Hb)
      as (text & Hn & Hz & Hl & Hpton).
    unfold stored_name. rewrite Hn.
    cbn [Z.eqb SOCKS5_IPV6 SOCKS5_IPV4 SOCKS5_DNS Pos.eqb].
    rewrite c_str_c_array, Hpton by assumption. reflexivity.
  - destruct (stored_name_ip inet_ntop inet_pton libc AF_INET6 addr Hlen Hb)
      as (text & Hn & Hz & Hl & Hpton).
    unfold stored_name. rewrite Hn.
    cbn [Z.eqb SOCKS5_IPV6 SOCKS5_IPV4 SOCKS5_DNS Pos.eqb].
    rewrite c_str_c_array, Hpton by assumption. reflexivity.
  - specialize (Hname name port eq_refl).
    unfold stored_name. rewrite (c_str_nul_free name Hname).
    cbn [Z.eqb SOCKS5_IPV6 SOCKS5_IPV4 SOCKS5_DNS Pos.eqb].
    unfold strlen. rewrite c_str_c_array, sub_c_array by assumption.
    rewrite (Z.mod_small (blen name)) by (unfold blen; lia). reflexivity.
Qed.

(** C6 (amended). For every well-formed address [x] -- IPv4, IPv6, or a
    domain name of at most 255 bytes none of which is NUL -- with a 16-bit
    port, [parse_addrport] reads the wire form of [x] completely and stores
    [x]: the same tag, the same port, and an address from which the reply
    header of [copy_loop_udp] is the wire form of [x] again, byte for
    byte. *)
Theorem C6_address_round_trip (x : Address) (rest : list Z) :
  well_formed x ->
  (forall name port, x = DomainName name port -> ~ In 0 name) ->
  exists ap,
    parse_addrport inet_ntop (spec_encode_address x ++ rest) =
      Ok (blen (spec_encode_address x), ap)
    /\ ap_type ap = address_tag x
    /\ ap_port ap = address_port x
    /\ udp_reply_header inet_pton ap =
         HeaderOk ([RSV; RSV; 0] ++ spec_encode_address x).
Proof.
  intros Hwf Hname.
  exists (mk_addrport (address_tag x) (c_array (stored_name inet_ntop x))
            (address_port x)).
  split; [apply (parse_addrport_encode inet_ntop inet_pton libc x rest Hwf)|].
  split; [reflexivity|]. split; [reflexivity|].
  now apply udp_reply_header_stored.
Qed.

End CodecClaims.
Lemma buf_header (buf : list Z) :
  3 <= blen buf ->
  buf = [getb buf 0; getb buf 1; getb buf 2] ++ skipn 3 buf.
Proof.
  destruct buf as [|a [|b [|c rest]]]; unfold blen; simpl length; try lia.
  reflexivity.
Qed.

Lemma C6_address_round_trip_witness :
  well_formed (IPv4 [127; 0; 0; 1] 80) /\
  (forall name port,
     IPv4 [127; 0; 0; 1] 80 = DomainName name port -> ~ In 0 name) /\
  exists ap,
    parse_addrport inet_ntop_model
      (spec_encode_address (IPv4 [127; 0; 0; 1] 80) ++ []) =
      Ok (blen (spec_encode_address (IPv4 [127; 0; 0; 1] 80)), ap)
    /\ ap_type ap = address_tag (IPv4 [127; 0; 0; 1] 80)
    /\ ap_port ap = address_port (IPv4 [127; 0; 0; 1] 80)
    /\ udp_reply_header inet_pton_model ap =
         HeaderOk ([RSV; RSV; 0]
                   ++ spec_encode_address (IPv4 [127; 0; 0; 1] 80)).
Proof.
  assert (W : well_formed (IPv4 [127; 0; 0; 1] 80)).
  { simpl. split; [reflexivity|]. split.
    - repeat constructor; unfold is_byte; lia.
    - unfold well_formed_port; lia. }
  assert (D : forall name port,
            IPv4 [127; 0; 0; 1] 80 = DomainName name port -> ~ In 0 name)
    by (intros name port H; discriminate H).
  split; [exact W|]. split; [exact D|].
  exact (C6_address_round_trip inet_ntop_model inet_pton_model
           inet_model_contract (IPv4 [127; 0; 0; 1] 80) [] W D).
Defined.

(** C6 as stated fails: the domain name [61 00 62] (an "a", a NUL and a
    "b") is well formed, and of its wire form [parse_addrport] keeps the
    name "a" only; the header built from the parsed address carries a name
    of one byte. *)
Lemma C6_counterexample :
  well_formed (DomainName [97; 0; 98] 80) /\
  spec_encode_address (DomainName [97; 0; 98] 80) = [3; 3; 97; 0; 98; 0; 80] /\
  parse_addrport inet_ntop_model [3; 3; 97; 0; 98; 0; 80] =
    Ok (7, mk_addrport 3 (c_array [97]) 80) /\
  c_str (c_array [97]) = [97] /\
  udp_reply_header inet_pton_model (mk_addrport 3 (c_array [97]) 80) =
    HeaderOk [0; 0; 0; 3; 1; 97; 0; 80] /\
  [0; 0; 0; 3; 1; 97; 0; 80] <> [0; 0; 0] ++ [3; 3; 97; 0; 98; 0; 80].
Proof.
  split.
  { simpl. split; [lia|]. split.
    - repeat constructor; unfold is_byte; lia.
    - unfold well_formed_port; lia. }
  split; [reflexivity|]. split; [vm_compute; reflexivity|].
  split; [vm_compute; reflexivity|]. split; [vm_compute; reflexivity|].
  discriminate.
Qed.

Section RequestClaims.

Variable inet_ntop : address_family -> list Z -> option (list Z).
Variable inet_pton : address_family -> list Z -> option (list Z).
Variable resolve_tcp : list Z -> Z -> option sockaddr_union.
Variable resolve_udp : list Z -> Z -> option sockaddr_union.

Hypothesis libc : inet_contract inet_ntop inet_pton.
Local Abbreviation parse_request :=
  (parse_socks_request_header inet_ntop resolve_tcp resolve_udp).

(** The result for a request that is well formed: the answer of the
    lookup, or GeneralFailure when there is none. *)
Lemma parse_request_encoded (cmd : Z) (x : Address) (rest : list Z) :
  cmd = CONNECT \/ cmd = UDP_ASSOCIATE -> well_formed x ->
  parse_request ([VERSION; cmd; RSV] ++ spec_encode_address x ++ rest) =
  match request_lookup inet_ntop resolve_tcp resolve_udp cmd x with
  | Some a => Ok (cmd, a)
  | None => Err (- EC_GENERAL_FAILURE)
  end.
Proof.
  intros Hcmd Hwf.
  destruct (parse_addrport_encode inet_ntop inet_pton libc x rest Hwf)
    as (P & Hnul & _).
  unfold parse_socks_request_header, request_lookup.
  set (buf := [VERSION; cmd; RSV] ++ spec_encode_address x ++ rest).
  assert (Hn : 3 <= blen buf).
  { unfold buf. blen_norm. pose proof (blen_nonneg rest).
    pose proof (blen_nonneg (spec_encode_address x)). lia. }
  destruct (Z.ltb_spec (blen buf) 3); [lia|].
  change (getb buf 0) with VERSION. change (getb buf 1) with cmd.
  change (getb buf 2) with RSV.
  change (skipn 3 buf) with (spec_encode_address x ++ rest).
  rewrite !Z.eqb_refl, P. cbn [negb].
  unfold resolveSocks5Addrport. cbn [ap_addr ap_port].
  rewrite (c_str_c_array _ Hnul).
  destruct Hcmd as [-> | ->]; cbn [CONNECT UDP_ASSOCIATE Z.eqb Pos.eqb negb
    andb].
  - destruct (resolve_tcp _ _); reflexivity.
  - destruct (resolve_udp _ _); reflexivity.
Qed.

(** What [parse_socks_request_header] accepts is a well-formed request. *)
Lemma parse_request_ok_inv (buf : list Z) (r : Z * sockaddr_union) :
  bytes buf -> parse_request buf = Ok r ->
  exists cmd x rest,
    (cmd = CONNECT \/ cmd = UDP_ASSOCIATE) /\ well_formed x /\
    buf = [VERSION; cmd; RSV] ++ spec_encode_address x ++ rest.
Proof.
  intros Hb Hr. unfold parse_socks_request_header in Hr.
  destruct (Z.ltb_spec (blen buf) 3) as [|Hn]; [discriminate|].
  destruct (Z.eqb_spec (getb buf 0) VERSION) as [E0|]; [|discriminate].
  cbn [negb] in Hr.
  destruct (Z.eqb_spec (getb buf 2) RSV) as [E2|];
    [|destruct (negb (getb buf 1 =? CONNECT)
                && negb (getb buf 1 =? UDP_ASSOCIATE)); discriminate].
  cbn [negb] in Hr.
  assert (Hcmd : getb buf 1 = CONNECT \/ getb buf 1 = UDP_ASSOCIATE).
  { destruct (Z.eqb_spec (getb buf 1) CONNECT); [now left|].
    destruct (Z.eqb_spec (getb buf 1) UDP_ASSOCIATE); [now right|].
    discriminate. }
  assert (Hc : negb (getb buf 1 =? CONNECT)
               && negb (getb buf 1 =? UDP_ASSOCIATE) = false).
  { destruct Hcmd as [-> | ->]; reflexivity. }
  rewrite Hc in Hr.
  destruct (parse_addrport inet_ntop (skipn 3 buf)) as [pr|] eqn:P;
    [|discriminate].
  assert (Hb3 : bytes (skipn 3 buf)).
  { unfold bytes in *. rewrite <- (firstn_skipn 3 buf) in Hb.
    now apply Forall_app in Hb as [_ Hb]. }
  destruct (parse_addrport_ok_inv inet_ntop _ _ Hb3 P)
    as (x & rest & Hwf & Hx).
  exists (getb buf 1), x, rest. split; [exact Hcmd|]. split; [exact Hwf|].
  rewrite <- Hx, <- E0, <- E2. now apply buf_header.
Qed.

(** C5 (amended). For every resolver: [parse_socks_request_header]
    succeeds on exactly the byte sequences that are [05], then [01] or
    [03], then [00], followed by a well-formed address whose lookup the
    resolver answers (the TCP resolver for CONNECT, the UDP resolver for
    UDP ASSOCIATE); what it accepts is a well-formed request, and a
    well-formed request whose lookup fails gives GeneralFailure. The bytes
    are checked in the order of the wire: a version other than 5 gives
    GeneralFailure; after a right version a command other than CONNECT and
    UDP_ASSOCIATE gives CommandNotSupported; after a right version and
    command a non-zero reserved byte gives GeneralFailure. *)
Theorem C5_parse_request (buf : list Z) :
  bytes buf ->
  ((exists r, parse_request buf = Ok r) <->
   resolved_request inet_ntop resolve_tcp resolve_udp buf)
  /\ ((exists r, parse_request buf = Ok r) -> well_formed_request buf)
  /\ (well_formed_request buf ->
      ~ resolved_request inet_ntop resolve_tcp resolve_udp buf ->
      parse_request buf = Err (- EC_GENERAL_FAILURE))
  /\ (3 <= blen buf -> getb buf 0 = VERSION ->
      getb buf 1 <> CONNECT -> getb buf 1 <> UDP_ASSOCIATE ->
      parse_request buf = Err (- EC_COMMAND_NOT_SUPPORTED))
  /\ (getb buf 0 <> VERSION ->
      parse_request buf = Err (- EC_GENERAL_FAILURE))
  /\ (getb buf 0 = VERSION ->
      getb buf 1 = CONNECT \/ getb buf 1 = UDP_ASSOCIATE ->
      getb buf 2 <> RSV ->
      parse_request buf = Err (- EC_GENERAL_FAILURE)).
Proof.
  intros Hb. split; [split|split; [|split]].
  - intros [r Hr].
    destruct (parse_request_ok_inv buf r Hb Hr)
      as (cmd & x & rest & Hcmd & Hwf & Hbuf).
    exists cmd, x, rest. split; [exact Hcmd|]. split; [exact Hwf|].
    split; [exact Hbuf|].
    rewrite Hbuf, (parse_request_encoded cmd x rest Hcmd Hwf) in Hr.
    intros N. rewrite N in Hr. discriminate.
  - intros (cmd & x & rest & Hcmd & Hwf & -> & Hl).
    rewrite (parse_request_encoded cmd x rest Hcmd Hwf).
    destruct (request_lookup inet_ntop resolve_tcp resolve_udp cmd x)
      as [a|]; [now exists (cmd, a) | now elim Hl].
  - intros [r Hr].
    destruct (parse_request_ok_inv buf r Hb Hr)
      as (cmd & x & rest & Hcmd & Hwf & Hbuf).
    now exists cmd, x, rest.
  - intros (cmd & x & rest & Hcmd & Hwf & Hbuf) Hnot.
    rewrite Hbuf, (parse_request_encoded cmd x rest Hcmd Hwf).
    destruct (request_lookup inet_ntop resolve_tcp resolve_udp cmd x)
      as [a|] eqn:L; [|reflexivity].
    elim Hnot. exists cmd, x, rest. rewrite L.
    split; [exact Hcmd|]. split; [exact Hwf|]. split; [exact Hbuf|].
    discriminate.
  - split; [|split].
    + intros Hn E0 N1 N3. unfold parse_socks_request_header.
      destruct (Z.ltb_spec (blen buf) 3); [lia|].
      rewrite E0, Z.eqb_refl. cbn [negb].
      destruct (Z.eqb_spec (getb buf 1) CONNECT); [contradiction|].
      destruct (Z.eqb_spec (getb buf 1) UDP_ASSOCIATE); [contradiction|].
      reflexivity.
    + intros N0. unfold parse_socks_request_header.
      destruct (blen buf <? 3); [reflexivity|].
      destruct (Z.eqb_spec (getb buf 0) VERSION); [contradiction|].
      reflexivity.
    + intros E0 Hcmd N2. unfold parse_socks_request_header.
      destruct (blen buf <? 3); [reflexivity|].
      rewrite E0, Z.eqb_refl. cbn [negb].
      assert (Hc : negb (getb buf 1 =? CONNECT)
                   && negb (getb buf 1 =? UDP_ASSOCIATE) = false).
      { destruct Hcmd as [-> | ->]; reflexivity. }
      rewrite Hc.
      destruct (Z.eqb_spec (getb buf 2) RSV); [contradiction|].
      reflexivity.
Qed.

End RequestClaims.

Lemma C5_parse_request_witness :
  bytes [5; 1; 0; 1; 127; 0; 0; 1; 0; 80] /\
  ((exists r,
      parse_socks_request_header inet_ntop_model resolve_model resolve_model
        [5; 1; 0; 1; 127; 0; 0; 1; 0; 80] = Ok r)
   <-> resolved_request inet_ntop_model resolve_model resolve_model
         [5; 1; 0; 1; 127; 0; 0; 1; 0; 80]) /\
  parse_socks_request_header inet_ntop_model resolve_model resolve_model
    [5; 1; 0; 1; 127; 0; 0; 1; 0; 80] =
    Ok (CONNECT, mk_sockaddr AF_INET 80 [127; 0; 0; 1]).
Proof.
  assert (B : bytes [5; 1; 0; 1; 127; 0; 0; 1; 0; 80])
    by (repeat constructor; unfold is_byte; lia).
  split; [exact B|]. split; [|vm_compute; reflexivity].
  exact (proj1 (C5_parse_request inet_ntop_model inet_pton_model
                  resolve_model resolve_model inet_model_contract
                  [5; 1; 0; 1; 127; 0; 0; 1; 0; 80] B)).
Defined.

(** C5 as stated fails: the CONNECT request for the host "xxxxx", port 80,
    is [05 01 00] followed by a well-formed address, and
    [parse_socks_request_header] refuses it with GeneralFailure, because
    the resolver (here one that knows numeric IPv4 hosts only) does not
    resolve the name. *)
Lemma C5_counterexample :
  bytes [5; 1; 0; 3; 5; 120; 120; 120; 120; 120; 0; 80] /\
  well_formed (DomainName [120; 120; 120; 120; 120] 80) /\
  [5; 1; 0; 3; 5; 120; 120; 120; 120; 120; 0; 80] =
    [VERSION; CONNECT; RSV]
    ++ spec_encode_address (DomainName [120; 120; 120; 120; 120] 80) ++ [] /\
  well_formed_request [5; 1; 0; 3; 5; 120; 120; 120; 120; 120; 0; 80] /\
  parse_socks_request_header inet_ntop_model resolve_model resolve_model
    [5; 1; 0; 3; 5; 120; 120; 120; 120; 120; 0; 80] =
    Err (- EC_GENERAL_FAILURE).
Proof.
  assert (W : well_formed (DomainName [120; 120; 120; 120; 120] 80)).
  { simpl. split; [lia|]. split.
    - repeat constructor; unfold is_byte; lia.
    - unfold well_formed_port; lia. }
  split; [repeat constructor; unfold is_byte; lia|].
  split; [exact W|]. split; [reflexivity|]. split.
  - exists CONNECT, (DomainName [120; 120; 120; 120; 120] 80), [].
    split; [now left|]. split; [exact W | reflexivity].
  - vm_compute. reflexivity.
Qed.

(** ** Requests that fail (C1) *)

Section SessionClaims.

Variable inet_ntop : address_family -> list Z -> option (list Z).
Variable inet_pton : address_family -> list Z -> option (list Z).
Variable resolve_tcp : list Z -> Z -> option sockaddr_union.
Variable resolve_udp : list Z -> Z -> option sockaddr_union.

(** A request that [parse_socks_request_header] refuses -- malformed, with
    an unsupported command or address type, or with a name that does not
    resolve -- is answered with nothing: the thread goes to [breakloop]
    without a call of [send_error]. *)
Lemma authed_parse_failure_no_reply (sys : thread_sys) (client_fd : Z)
    (st : thread_state) (buf : list Z) (code : Z) :
  parse_socks_request_header inet_ntop resolve_tcp resolve_udp buf = Err code ->
  clientthread_authed inet_ntop inet_pton resolve_tcp resolve_udp sys
    client_fd st buf = (StepBreak, st, []).
Proof. intros H. unfold clientthread_authed. now rewrite H. Qed.

(** A CONNECT whose [connect] fails is answered with one error reply that
    carries the code of [eval_errno]. *)
Lemma authed_connect_failure_one_reply (sys : thread_sys) (client_fd : Z)
    (st : thread_state) (buf : list Z) (address : sockaddr_union) :
  parse_socks_request_header inet_ntop resolve_tcp resolve_udp buf =
    Ok (CONNECT, address) ->
  ts_socket sys <> -1 -> ts_connect_rc sys = -1 ->
  exists tr,
    clientthread_authed inet_ntop inet_pton resolve_tcp resolve_udp sys
      client_fd st buf =
    (StepBreak, st,
     tr ++ [IoWriteNoCheck client_fd
              [5; (eval_errno (ts_connect_errno sys) * -1) mod 256;
               0; 1; 0; 0; 0; 0; 0; 0]])
    /\ replies_on client_fd tr = 0%nat.
Proof.
  intros H Hs Hc. unfold clientthread_authed. rewrite H.
  change (CONNECT =? CONNECT) with true. cbv iota.
  unfold connect_socks_target.
  destruct (Z.eqb_spec (ts_socket sys) (-1)); [contradiction|].
  rewrite Hc. change (-1 =? -1) with true. cbv iota.
  assert (Hneg : (eval_errno (ts_connect_errno sys) <? 0) = true)
    by (destruct (ts_connect_errno sys); reflexivity).
  rewrite Hneg.
  exists [IoSocket (ts_socket sys); IoConnect (ts_socket sys) address (-1);
          IoClose (ts_socket sys)].
  split; reflexivity.
Qed.

(** C1 (the code at the failing input). In the state AUTHED the BIND request
    [05 02 00 01 7F 00 00 01 00 50] makes [parse_socks_request_header]
    return CommandNotSupported, and the thread closes the control socket
    without any reply: of the whole session, the only bytes the client
    receives are the method selection [05 00]. *)
Theorem C1_unsupported_command_no_reply (sys : thread_sys) (client_fd : Z)
    (client_addr : sockaddr_union) (auth_ips : option (list sockaddr_union))
    (totals : traffic) :
  parse_socks_request_header inet_ntop resolve_tcp resolve_udp
    [5; 2; 0; 1; 127; 0; 0; 1; 0; 80] = Err (- EC_COMMAND_NOT_SUPPORTED)
  /\ clientthread inet_ntop inet_pton resolve_tcp resolve_udp None None sys
       client_fd client_addr auth_ips totals
       [[5; 1; 0]; [5; 2; 0; 1; 127; 0; 0; 1; 0; 80]] =
     (true, mk_thread_state SS_3_AUTHED auth_ips totals,
      [IoWriteNoCheck client_fd [5; 0]; IoClose client_fd]).
Proof. split; reflexivity. Qed.

End SessionClaims.

(** The request of a name that does not resolve ends the same way. *)
Lemma resolve_failure_no_reply (sys : thread_sys) (client_fd : Z)
    (st : thread_state) :
  clientthread_authed inet_ntop_model inet_pton_model resolve_model
    resolve_model sys client_fd st
    [5; 1; 0; 3; 5; 120; 120; 120; 120; 120; 0; 80] = (StepBreak, st, []).
Proof.
  apply authed_parse_failure_no_reply with (code := - EC_GENERAL_FAILURE).
  vm_compute. reflexivity.
Qed.

(** ** The whitelist (C7) *)

Lemma family_eqb_eq (a b : address_family) : family_eqb a b = true <-> a = b.
Proof. destruct a, b; simpl; split; congruence. Qed.

Lemma same_ip_is_authed (a b x : sockaddr_union) :
  same_ip a b -> is_authed a x = is_authed b x.
Proof.
  intros [Hf Ha]. unfold is_authed, mem_equal. rewrite <- Hf.
  destruct (family_eqb (sa_family x) (sa_family a)) eqn:E; [|reflexivity].
  apply family_eqb_eq in E. rewrite E.
  destruct (sa_family a); now rewrite Ha.
Qed.

Lemma same_ip_authed (a b : sockaddr_union) :
  same_ip a b -> is_authed a b = true.
Proof.
  intros [Hf Ha]. unfold is_authed, mem_equal. rewrite <- Hf.
  assert (E : family_eqb (sa_family a) (sa_family a) = true)
    by now apply family_eqb_eq.
  rewrite E. destruct (sa_family a); rewrite Ha; now rewrite list_eqb_refl.
Qed.

Lemma same_ip_refl (a : sockaddr_union) : same_ip a a.
Proof. split; [reflexivity|]. destruct (sa_family a); reflexivity. Qed.

Lemma same_ip_sym (a b : sockaddr_union) : same_ip a b -> same_ip b a.
Proof.
  intros [Hf Ha]. split; [now symmetry|]. rewrite <- Hf.
  destruct (sa_family a); now symmetry.
Qed.

Lemma same_ip_in_list (l : list sockaddr_union) (a b : sockaddr_union) :
  same_ip a b -> is_in_authed_list l a = is_in_authed_list l b.
Proof.
  intros H. induction l as [|x l IH]; simpl; [reflexivity|].
  now rewrite (same_ip_is_authed a b x H), IH.
Qed.

Lemma is_in_authed_list_app (l : list sockaddr_union) (a b : sockaddr_union) :
  is_in_authed_list (l ++ [b]) a = is_in_authed_list l a || is_authed a b.
Proof.
  induction l as [|x l IH]; simpl.
  - now destruct (is_authed a b).
  - destruct (is_authed a x); [reflexivity | exact IH].
Qed.

Lemma nth_error_update_eq {A : Type} (l : list A) (i : nat) (x y : A) :
  nth_error l i = Some y -> nth_error (list_update l i x) i = Some x.
Proof.
  revert i; induction l as [|z l IH]; intros [|i]; simpl; try discriminate;
    auto.
Qed.

Lemma nth_error_update_neq {A : Type} (l : list A) (i j : nat) (x : A) :
  i <> j -> nth_error (list_update l i x) j = nth_error l j.
Proof.
  revert i j; induction l as [|z l IH]; intros [|i] [|j] H; simpl;
    try reflexivity; try congruence.
  apply IH. congruence.
Qed.

Lemma list_update_not_nil {A : Type} (l : list A) (i : nat) (x : A) :
  l <> [] -> list_update l i x <> [].
Proof. destruct l, i; simpl; congruence. Qed.

Lemma nth_error_update_inv {A : Type} (l : list A) (i j : nat) (x y t : A) :
  nth_error l i = Some t ->
  nth_error (list_update l i x) j = Some y ->
  (j = i /\ y = x) \/ (j <> i /\ nth_error l j = Some y).
Proof.
  intros Hi Hj. destruct (Nat.eq_dec i j) as [->|Hne].
  - rewrite (nth_error_update_eq l j x t Hi) in Hj. left. split; congruence.
  - rewrite nth_error_update_neq in Hj by exact Hne. right. split; auto.
Qed.

Section Whitelist.

Variable ips0 : list sockaddr_union.
Variable c : sockaddr_union.
Hypothesis not_listed : is_in_authed_list ips0 c = false.

Lemma remember_inv_init (addrs : list sockaddr_union) :
  addrs <> [] -> Forall (fun a => same_ip a c) addrs ->
  remember_inv ips0 c (remember_init ips0 addrs).
Proof.
  intros Hne Hall. unfold remember_inv, remember_init; simpl.
  assert (T : forall i t,
            nth_error (map (mk_remember_thread RpLock) addrs) i = Some t ->
            rt_pc t = RpLock /\ same_ip (rt_addr t) c).
  { intros i t H. rewrite nth_error_map in H.
    destruct (nth_error addrs i) as [a|] eqn:E; [|discriminate].
    inversion H; subst; simpl. split; [reflexivity|].
    rewrite Forall_forall in Hall. eapply Hall, nth_error_In, E. }
  split; [destruct addrs; [congruence | discriminate]|].
  split; [intros i t H; now apply (T i t)|].
  split; [intros i t H Hcs; apply T in H as [Hp _]; rewrite Hp in Hcs;
          discriminate|].
  split.
  - intros _. split; [reflexivity|]. intros i t H.
    apply T in H as [-> _]. reflexivity.
  - intros H. rewrite not_listed in H. discriminate.
Qed.

Lemma remember_inv_step (s s' : whitelist_state) (i : nat) :
  remember_inv ips0 c s -> remember_step s i = Some s' ->
  remember_inv ips0 c s'.
Proof.
  intros (Hne & Hip & Hcs & Hout & Hin) Hstep.
  unfold remember_step in Hstep.
  destruct (nth_error (ws_threads s) i) as [t|] eqn:Ht; [|discriminate].
  pose proof (Hip i t Ht) as Hsame.
  assert (Hother : forall pc j u,
            nth_error (set_pc s i t pc) j = Some u ->
            (j = i /\ u = mk_remember_thread pc (rt_addr t)) \/
            (j <> i /\ nth_error (ws_threads s) j = Some u)).
  { intros pc j u Hu. unfold set_pc in Hu.
    eapply nth_error_update_inv; eauto. }
  assert (Hip' : forall pc j u,
            nth_error (set_pc s i t pc) j = Some u -> same_ip (rt_addr u) c).
  { intros pc j u Hu. destruct (Hother pc j u Hu) as [[_ ->]|[_ Hj]];
      [exact Hsame | eapply Hip; eauto]. }
  assert (Hne' : forall pc, set_pc s i t pc <> []).
  { intros pc. now apply list_update_not_nil. }
  destruct (rt_pc t) eqn:Hpc.
  - (* lock *)
    destruct (ws_writer s) eqn:Hw; [discriminate|].
    inversion Hstep; subst s'; clear Hstep. unfold remember_inv; simpl.
    split; [apply Hne'|]. split; [apply Hip'|]. split.
    { intros j u Hu Hc. destruct (Hother _ j u Hu) as [[-> _]|[_ Hj]];
        [reflexivity|].
      specialize (Hcs j u Hj Hc). congruence. }
    split.
    + intros Hno. destruct (Hout Hno) as [E Hb]. split; [exact E|].
      intros j u Hu. destruct (Hother _ j u Hu) as [[_ ->]|[_ Hj]];
        [reflexivity | eapply Hb; eauto].
    + intros Hyes. destruct (Hin Hyes) as [E Hb]. split; [exact E|].
      intros j u Hu. destruct (Hother _ j u Hu) as [[_ ->]|[_ Hj]];
        [discriminate | eapply Hb; eauto].
  - (* check *)
    rewrite (same_ip_in_list (ws_ips s) (rt_addr t) c Hsame) in Hstep.
    assert (Hw : ws_writer s = Some i) by (apply (Hcs i t Ht); now rewrite Hpc).
    destruct (is_in_authed_list (ws_ips s) c) eqn:Hlisted; simpl in Hstep;
      inversion Hstep; subst s'; clear Hstep; unfold remember_inv; simpl;
      (split; [apply Hne'|]); (split; [apply Hip'|]);
      (split; [intros j u Hu Hc;
               destruct (Hother _ j u Hu) as [[-> _]|[_ Hj]];
               [exact Hw | eapply Hcs; eauto]|]);
      rewrite Hlisted; (split; [|intros Hx]); try discriminate.
    + destruct (Hin eq_refl) as [E Hb]. split; [exact E|].
      intros j u Hu. destruct (Hother _ j u Hu) as [[_ ->]|[_ Hj]];
        [discriminate | eapply Hb; eauto].
    + intros _. destruct (Hout eq_refl) as [E Hb]. split; [exact E|].
      intros j u Hu. destruct (Hother _ j u Hu) as [[_ ->]|[_ Hj]];
        [reflexivity | eapply Hb; eauto].
  - (* add *)
    assert (Hw : ws_writer s = Some i) by (apply (Hcs i t Ht); now rewrite Hpc).
    assert (Hno : is_in_authed_list (ws_ips s) c = false).
    { destruct (is_in_authed_list (ws_ips s) c) eqn:E; [|reflexivity].
      destruct (Hin eq_refl) as [_ Hb]. now apply (Hb i t Ht) in Hpc. }
    destruct (Hout Hno) as [E0 Hb].
    inversion Hstep; subst s'; clear Hstep. unfold remember_inv; simpl.
    split; [apply Hne'|]. split; [apply Hip'|]. split.
    { intros j u Hu Hc. destruct (Hother _ j u Hu) as [[-> _]|[_ Hj]];
        [exact Hw | eapply Hcs; eauto]. }
    assert (Hyes : is_in_authed_list (add_auth_ip (ws_ips s) (rt_addr t)) c
                   = true).
    { unfold add_auth_ip, sblist_add. rewrite is_in_authed_list_app.
      rewrite (same_ip_authed c (rt_addr t)) by now apply same_ip_sym.
      apply orb_true_r. }
    rewrite Hyes. split; [discriminate|]. intros _. split.
    + unfold add_auth_ip, sblist_add. rewrite length_app, E0. simpl. lia.
    + intros j u Hu. destruct (Hother _ j u Hu) as [[_ ->]|[Hji Hj]];
        [discriminate|].
      intros Hadd. assert (Hc : in_critical_section (rt_pc u) = true)
        by now rewrite Hadd.
      specialize (Hcs j u Hj Hc). congruence.
  - (* unlock *)
    assert (Hw : ws_writer s = Some i) by (apply (Hcs i t Ht); now rewrite Hpc).
    assert (Hyes : is_in_authed_list (ws_ips s) c = true).
    { destruct (is_in_authed_list (ws_ips s) c) eqn:E; [reflexivity|].
      destruct (Hout eq_refl) as [_ Hb]. specialize (Hb i t Ht).
      rewrite Hpc in Hb. discriminate. }
    inversion Hstep; subst s'; clear Hstep. unfold remember_inv; simpl.
    split; [apply Hne'|]. split; [apply Hip'|]. split.
    { intros j u Hu Hc. destruct (Hother _ j u Hu) as [[_ ->]|[Hji Hj]];
        [discriminate|].
      specialize (Hcs j u Hj Hc). congruence. }
    rewrite Hyes. split; [discriminate|]. intros _.
    destruct (Hin Hyes) as [E Hb]. split; [exact E|].
    intros j u Hu. destruct (Hother _ j u Hu) as [[_ ->]|[_ Hj]];
      [discriminate | eapply Hb; eauto].
  - discriminate.
Qed.

Lemma remember_inv_run (schedule : list nat) (s s' : whitelist_state) :
  remember_inv ips0 c s -> remember_run s schedule = Some s' ->
  remember_inv ips0 c s'.
Proof.
  revert s; induction schedule as [|i rest IH]; intros s Hinv Hrun;
    simpl in Hrun.
  - now inversion Hrun; subst.
  - destruct (remember_step s i) as [s1|] eqn:E; [|discriminate].
    eapply IH; [|exact Hrun]. eapply remember_inv_step; eauto.
Qed.

Lemma remember_inv_done (s : whitelist_state) :
  remember_inv ips0 c s -> all_done s = true ->
  length (ws_ips s) = S (length ips0) /\
  is_in_authed_list (ws_ips s) c = true.
Proof.
  intros (Hne & _ & _ & Hout & Hin) Hdone.
  destruct (is_in_authed_list (ws_ips s) c) eqn:E.
  - split; [now apply Hin | reflexivity].
  - destruct (Hout eq_refl) as [_ Hb].
    destruct (ws_threads s) as [|t ts] eqn:Et; [congruence|].
    unfold all_done in Hdone. rewrite Et in Hdone. simpl in Hdone.
    apply andb_true_iff in Hdone as [Hd _].
    specialize (Hb 0%nat t eq_refl).
    unfold remember_done in Hd. destruct (rt_pc t); discriminate.
Qed.

End Whitelist.

(** C7. With the whitelist enabled and the write lock taken, recording a
    client is idempotent: a second successful username/password
    authentication from the same IP leaves the whitelist as the first one
    left it. For an IP that is not listed yet, two such authentications
    make the whitelist longer by exactly one entry: run one after the
    other, the second finds the entry of the first; run concurrently, the
    two critical sections can be completed, and however the steps of the
    two threads interleave, the list has grown by one when both are done,
    because the test and the insertion are made while the thread holds the
    exclusive lock. *)
Theorem C7_remember_client_idempotent (ips : list sockaddr_union)
    (a1 a2 : sockaddr_union) :
  same_ip a1 a2 ->
  clientthread_remember (clientthread_remember (Some ips) 0 a1) 0 a2 =
    clientthread_remember (Some ips) 0 a1
  /\ (is_in_authed_list ips a1 = false ->
      clientthread_remember (clientthread_remember (Some ips) 0 a1) 0 a2 =
        Some (ips ++ [a1])
      /\ (exists schedule s',
            remember_run (remember_init ips [a1; a2]) schedule = Some s' /\
            all_done s' = true)
      /\ (forall schedule s',
            remember_run (remember_init ips [a1; a2]) schedule = Some s' ->
            all_done s' = true ->
            length (ws_ips s') = S (length ips) /\
            is_in_authed_list (ws_ips s') a1 = true /\
            is_in_authed_list (ws_ips s') a2 = true)).
Proof.
  intros Hsame.
  assert (Hyes : is_in_authed_list (ips ++ [a1]) a2 = true).
  { rewrite is_in_authed_list_app.
    rewrite (same_ip_authed a2 a1) by now apply same_ip_sym.
    apply orb_true_r. }
  assert (Hseq : is_in_authed_list ips a1 = false ->
                 clientthread_remember
                   (clientthread_remember (Some ips) 0 a1) 0 a2 =
                 Some (ips ++ [a1])).
  { intros Hno. unfold clientthread_remember, add_auth_ip, sblist_add.
    simpl. rewrite Hno. simpl. now rewrite Hyes. }
  split.
  - destruct (is_in_authed_list ips a1) eqn:Hin.
    + unfold clientthread_remember. simpl. rewrite Hin. simpl.
      now rewrite <- (same_ip_in_list ips a1 a2 Hsame), Hin.
    + rewrite (Hseq eq_refl). unfold clientthread_remember. simpl.
      now rewrite Hin.
  - intros Hno. split; [exact (Hseq Hno)|]. split.
    + exists [0; 0; 0; 0; 1; 1; 1]%nat. eexists.
      unfold remember_init, remember_run, remember_step, set_pc,
        add_auth_ip, sblist_add; simpl.
      rewrite Hno. simpl. rewrite Hyes. simpl. split; reflexivity.
    + intros schedule s' Hrun Hdone.
      assert (Hinit : remember_inv ips a1 (remember_init ips [a1; a2])).
      { apply remember_inv_init; [exact Hno | discriminate|].
        constructor; [apply same_ip_refl|].
        constructor; [now apply same_ip_sym | constructor]. }
      pose proof (remember_inv_run ips a1 schedule _ s' Hinit Hrun) as Hinv.
      destruct (remember_inv_done ips a1 s' Hinv Hdone) as [L I].
      split; [exact L|]. split; [exact I|].
      now rewrite <- (same_ip_in_list (ws_ips s') a1 a2 Hsame).
Qed.

Lemma C7_remember_client_idempotent_witness :
  same_ip example_ip example_ip_again /\
  is_in_authed_list [] example_ip = false /\
  clientthread_remember (clientthread_remember (Some []) 0 example_ip) 0
    example_ip_again = clientthread_remember (Some []) 0 example_ip /\
  clientthread_remember (clientthread_remember (Some []) 0 example_ip) 0
    example_ip_again = Some ([] ++ [example_ip]).
Proof.
  assert (H1 : same_ip example_ip example_ip_again)
    by (split; reflexivity).
  assert (H2 : is_in_authed_list [] example_ip = false) by reflexivity.
  split; [exact H1|]. split; [exact H2|]. split.
  - exact (proj1 (C7_remember_client_idempotent [] example_ip
                    example_ip_again H1)).
  - exact (proj1 (proj2 (C7_remember_client_idempotent [] example_ip
                           example_ip_again H1) H2)).
Defined.

(** ** UDP relay (C8, C10) *)

Lemma sblist_search_found {A : Type} (l : list A) (key : A)
    (cmp : A -> A -> Z) :
  sblist_search l key cmp = -1 \/
  (0 <= sblist_search l key cmp /\
   exists found,
     sblist_item_from_index l (sblist_search l key cmp) = Some found /\
     cmp found key = 0).
Proof.
  unfold sblist_item_from_index.
  induction l as [|x rest IH]; simpl; [now left|].
  destruct (Z.eqb_spec (cmp x key) 0) as [E|_].
  - right. split; [lia|]. exists x. now split.
  - destruct IH as [->|(Hpos & found & Hf & Hc)]; [now left|].
    destruct (Z.eqb_spec (sblist_search rest key cmp) (-1)); [lia|].
    right. split; [lia|]. exists found. split; [|exact Hc].
    rewrite Z2Nat.inj_add by lia. rewrite Nat.add_comm. exact Hf.
Qed.

Section UdpClaims.

Variable inet_ntop : address_family -> list Z -> option (list Z).
Variable inet_pton : address_family -> list Z -> option (list Z).
Variable resolve_tcp : list Z -> Z -> option sockaddr_union.
Variable resolve_udp : list Z -> Z -> option sockaddr_union.

Variable kq tcp_fd udp_fd : Z.
Hypothesis distinct : udp_fd <> tcp_fd.

Local Abbreviation udp_event_step :=
  (copy_loop_udp_event inet_ntop inet_pton resolve_tcp resolve_udp
     kq tcp_fd udp_fd).
Local Abbreviation client_branch :=
  (udp_client_branch inet_ntop resolve_tcp resolve_udp kq tcp_fd udp_fd).
Local Abbreviation udp_loop :=
  (copy_loop_udp_loop inet_ntop inet_pton resolve_tcp resolve_udp
     kq tcp_fd udp_fd).

(** An event on [udp_fd] runs the second [if] only. *)
Lemma udp_event_client (st : udp_state) (e : udp_event) :
  ue_ident e = udp_fd -> udp_event_step st e = client_branch st e.
Proof.
  intros Hid. unfold copy_loop_udp_event. rewrite Hid.
  destruct (Z.eqb_spec udp_fd tcp_fd); [contradiction|].
  rewrite Z.eqb_refl. cbn [negb andb].
  destruct (client_branch st e) as [[f2 st2] tr2].
  destruct f2; simpl; rewrite ?app_nil_r; reflexivity.
Qed.

Section Datagram.

Variable st : udp_state.
Variable e : udp_event.
Variable data : list Z.
Variable offset : Z.
Variable D : socks5_addrport.

Hypothesis on_udp_fd : ue_ident e = udp_fd.
Hypothesis received : ue_recv e = Some data.
Hypothesis pinned : us_bound st = true \/ ue_pin_rc e = 0.
Hypothesis deframed : extract_udp_data inet_ntop data = Ok (offset, D).

Let payload := sub data offset (blen data - offset).
Let key := mk_fd_addr (fs_fd (us_item st)) D.
Let lookup :=
  sblist_search (us_sock_list st) key compare_fd_socks5addr_by_addrport.

Lemma client_branch_deframed :
  client_branch st e =
  let st1 := mk_udp_state true key (us_sock_list st) in
  let rd := IoRead udp_fd (Some data) in
  if negb (lookup =? -1) then
    match sblist_item_from_index (us_sock_list st) lookup with
    | None => (Abort, st1, rd :: pin_events udp_fd st e)
    | Some item_found =>
        (send_flow e, st1,
         rd :: pin_events udp_fd st e
         ++ [IoWrite (fs_fd item_found) payload (ue_send_rc e)])
    end
  else
    let res := IoResolve (c_str (ap_addr D)) (ap_port D) in
    match resolve_udp (c_str (ap_addr D)) (ap_port D) with
    | None => (LoopEnd, st1, rd :: pin_events udp_fd st e ++ [res])
    | Some target_addr =>
        let fd := ue_socket e in
        let con := IoConnect fd target_addr (ue_connect_rc e) in
        if ue_connect_rc e =? -1 then
          (LoopEnd, st1,
           rd :: pin_events udp_fd st e ++ [res; IoSocket fd; con]
           ++ send_error tcp_fd EC_GENERAL_FAILURE)
        else
          let item := mk_fd_addr fd D in
          let st2 :=
            mk_udp_state true item (sblist_add (us_sock_list st) item) in
          let add := IoKqAdd kq [fd] (ue_kevent_rc e) in
          if ue_kevent_rc e =? -1 then
            (LoopEnd, st2, rd :: pin_events udp_fd st e ++ [res; IoSocket fd; con; add])
          else
            (send_flow e, st2,
             rd :: pin_events udp_fd st e
             ++ [res; IoSocket fd; con; add;
                 IoWrite fd payload (ue_send_rc e)])
    end.
Proof.
  unfold udp_client_branch. rewrite received. cbn [recv_n recv_buf].
  pose proof (blen_nonneg data) as Bd.
  destruct (Z.eqb_spec (blen data) (-1)); [lia|].
  assert (Hpin : negb (us_bound st) && negb (ue_pin_rc e =? 0) = false).
  { destruct pinned as [-> | ->]; [reflexivity|]. apply andb_false_r. }
  rewrite Hpin, deframed. cbn [us_item us_sock_list fs_fd].
  fold key. fold lookup. fold payload. unfold pin_events, send_flow.
  unfold resolveSocks5Addrport.
  destruct (negb (lookup =? -1)); [reflexivity|].
  destruct (resolve_udp (c_str (ap_addr D)) (ap_port D)); reflexivity.
Qed.

(** C8. For a client datagram that deframes to the destination [D]: when
    the lookup of [D] in the flow table finds an entry, the event makes
    exactly one send, of the datagram's payload on that entry's socket, and
    leaves the flow table as it was; when it finds none and the steps
    succeed, [D] is resolved, a socket is created and connected to the
    resolved address, the pair is appended to the flow table, the socket is
    added to the kqueue, and then exactly one send of the payload is made
    on the new socket. *)
Theorem C8_udp_datagram_forwarding :
  (lookup <> -1 ->
   exists found st',
     sblist_item_from_index (us_sock_list st) lookup = Some found /\
     compareSocks5Addrport (fs_addrport found) D = 0 /\
     udp_event_step st e =
       (send_flow e, st',
        IoRead udp_fd (Some data) :: pin_events udp_fd st e
        ++ [IoWrite (fs_fd found) payload (ue_send_rc e)]) /\
     us_sock_list st' = us_sock_list st)
  /\ (lookup = -1 ->
      forall target,
        resolve_udp (c_str (ap_addr D)) (ap_port D) = Some target ->
        ue_connect_rc e <> -1 -> ue_kevent_rc e <> -1 ->
        exists st',
          udp_event_step st e =
            (send_flow e, st',
             IoRead udp_fd (Some data) :: pin_events udp_fd st e
             ++ [IoResolve (c_str (ap_addr D)) (ap_port D);
                 IoSocket (ue_socket e);
                 IoConnect (ue_socket e) target (ue_connect_rc e);
                 IoKqAdd kq [ue_socket e] (ue_kevent_rc e);
                 IoWrite (ue_socket e) payload (ue_send_rc e)]) /\
          us_sock_list st' =
            us_sock_list st ++ [mk_fd_addr (ue_socket e) D]).
Proof.
  rewrite (udp_event_client st e on_udp_fd), client_branch_deframed.
  cbv zeta. split.
  - intros Hhit.
    destruct (sblist_search_found (us_sock_list st) key
                compare_fd_socks5addr_by_addrport)
      as [Hm|(_ & found & Hf & Hc)]; [contradiction|].
    fold lookup in Hf. exists found. eexists.
    split; [exact Hf|]. split; [exact Hc|].
    destruct (Z.eqb_spec lookup (-1)); [contradiction|]. cbn [negb].
    rewrite Hf. split; reflexivity.
  - intros Hmiss target Hres Hcon Hkev. rewrite Hmiss, Hres.
    change (negb (-1 =? -1)) with false. cbv iota.
    destruct (Z.eqb_spec (ue_connect_rc e) (-1)); [contradiction|].
    destruct (Z.eqb_spec (ue_kevent_rc e) (-1)); [contradiction|].
    eexists. split; reflexivity.
Qed.

(** C10. A client datagram for a destination that is not in the flow table
    ends the whole associate when the destination does not resolve or the
    new socket cannot be connected: the event jumps to [UDP_LOOP_END], the
    events and [kevent] results that follow are not looked at, every socket
    of the flow table is closed, then the kqueue, and the loop returns (in
    the second case after an error reply on the control socket). *)
Theorem C10_udp_flow_failure_ends_session
    (events : list udp_event) (batches : list (kevent_result udp_event)) :
  lookup = -1 ->
  (resolve_udp (c_str (ap_addr D)) (ap_port D) = None ->
   exists st',
     udp_loop st (KevReady (e :: events) :: batches) =
       (UdpReturned, st',
        (IoRead udp_fd (Some data) :: pin_events udp_fd st e
         ++ [IoResolve (c_str (ap_addr D)) (ap_port D)])
        ++ close_all kq st) /\
     us_sock_list st' = us_sock_list st)
  /\ (forall target,
        resolve_udp (c_str (ap_addr D)) (ap_port D) = Some target ->
        ue_connect_rc e = -1 ->
        exists st',
          udp_loop st (KevReady (e :: events) :: batches) =
            (UdpReturned, st',
             (IoRead udp_fd (Some data) :: pin_events udp_fd st e
              ++ [IoResolve (c_str (ap_addr D)) (ap_port D);
                  IoSocket (ue_socket e);
                  IoConnect (ue_socket e) target (-1);
                  IoWriteNoCheck tcp_fd [5; 1; 0; 1; 0; 0; 0; 0; 0; 0]])
             ++ close_all kq st) /\
          us_sock_list st' = us_sock_list st).
Proof.
  intros Hmiss. unfold copy_loop_udp_loop, copy_loop_udp_events, close_all,
    udp_loop_end.
  rewrite (udp_event_client st e on_udp_fd), client_branch_deframed.
  cbv zeta. rewrite Hmiss. change (negb (-1 =? -1)) with false. cbv iota.
  split.
  - intros Hres. rewrite Hres. eexists. split; reflexivity.
  - intros target Hres Hcon. rewrite Hres, Hcon.
    change (-1 =? -1) with true. cbv iota.
    eexists. split; reflexivity.
Qed.

End Datagram.

End UdpClaims.

Lemma C8_udp_datagram_forwarding_witness :
  7 <> 5 /\
  ue_ident (example_udp_event example_datagram) = 7 /\
  ue_recv (example_udp_event example_datagram) = Some example_datagram /\
  (us_bound example_flow_state = true \/
   ue_pin_rc (example_udp_event example_datagram) = 0) /\
  extract_udp_data inet_ntop_model example_datagram =
    Ok (10, example_dns_server) /\
  exists found st',
    sblist_item_from_index (us_sock_list example_flow_state)
      (sblist_search (us_sock_list example_flow_state)
         (mk_fd_addr (fs_fd (us_item example_flow_state)) example_dns_server)
         compare_fd_socks5addr_by_addrport) = Some found /\
    compareSocks5Addrport (fs_addrport found) example_dns_server = 0 /\
    copy_loop_udp_event inet_ntop_model inet_pton_model resolve_model
      resolve_model 9 5 7 example_flow_state
      (example_udp_event example_datagram) =
      (send_flow (example_udp_event example_datagram), st',
       IoRead 7 (Some example_datagram)
       :: pin_events 7 example_flow_state (example_udp_event example_datagram)
       ++ [IoWrite (fs_fd found)
             (sub example_datagram 10 (blen example_datagram - 10))
             (ue_send_rc (example_udp_event example_datagram))]) /\
    us_sock_list st' = us_sock_list example_flow_state.
Proof.
  assert (H1 : 7 <> 5) by lia.
  assert (H2 : ue_ident (example_udp_event example_datagram) = 7)
    by reflexivity.
  assert (H3 : ue_recv (example_udp_event example_datagram)
               = Some example_datagram) by reflexivity.
  assert (H4 : us_bound example_flow_state = true \/
               ue_pin_rc (example_udp_event example_datagram) = 0)
    by (left; reflexivity).
  assert (H5 : extract_udp_data inet_ntop_model example_datagram =
               Ok (10, example_dns_server)) by (vm_compute; reflexivity).
  assert (H6 : sblist_search (us_sock_list example_flow_state)
                 (mk_fd_addr (fs_fd (us_item example_flow_state))
                    example_dns_server)
                 compare_fd_socks5addr_by_addrport <> -1)
    by (vm_compute; discriminate).
  repeat (split; [assumption|]).
  exact (proj1 (C8_udp_datagram_forwarding inet_ntop_model inet_pton_model
                  resolve_model resolve_model 9 5 7 H1 example_flow_state
                  (example_udp_event example_datagram) example_datagram 10
                  example_dns_server H2 H3 H4 H5) H6).
Defined.

Lemma C10_udp_flow_failure_ends_session_witness :
  7 <> 5 /\
  ue_ident (example_udp_event example_unresolved_datagram) = 7 /\
  ue_recv (example_udp_event example_unresolved_datagram) =
    Some example_unresolved_datagram /\
  (us_bound example_flow_state = true \/
   ue_pin_rc (example_udp_event example_unresolved_datagram) = 0) /\
  extract_udp_data inet_ntop_model example_unresolved_datagram =
    Ok (12, mk_addrport SOCKS5_DNS (c_array [120; 120; 120; 120; 120]) 53) /\
  sblist_search (us_sock_list example_flow_state)
    (mk_fd_addr (fs_fd (us_item example_flow_state))
       (mk_addrport SOCKS5_DNS (c_array [120; 120; 120; 120; 120]) 53))
    compare_fd_socks5addr_by_addrport = -1 /\
  resolve_model [120; 120; 120; 120; 120] 53 = None /\
  exists st',
    copy_loop_udp_loop inet_ntop_model inet_pton_model resolve_model
      resolve_model 9 5 7 example_flow_state
      [KevReady [example_udp_event example_unresolved_datagram;
                 example_udp_event example_datagram]] =
      (UdpReturned, st',
       [IoRead 7 (Some example_unresolved_datagram);
        IoResolve [120; 120; 120; 120; 120] 53;
        IoClose 11; IoClose 9]) /\
    us_sock_list st' = us_sock_list example_flow_state.
Proof.
  assert (H1 : 7 <> 5) by lia.
  assert (H2 : ue_ident (example_udp_event example_unresolved_datagram) = 7)
    by reflexivity.
  assert (H3 : ue_recv (example_udp_event example_unresolved_datagram)
               = Some example_unresolved_datagram) by reflexivity.
  assert (H4 : us_bound example_flow_state = true \/
               ue_pin_rc (example_udp_event example_unresolved_datagram) = 0)
    by (left; reflexivity).
  assert (H5 : extract_udp_data inet_ntop_model example_unresolved_datagram =
               Ok (12, mk_addrport SOCKS5_DNS
                         (c_array [120; 120; 120; 120; 120]) 53))
    by (vm_compute; reflexivity).
  assert (H6 : sblist_search (us_sock_list example_flow_state)
                 (mk_fd_addr (fs_fd (us_item example_flow_state))
                    (mk_addrport SOCKS5_DNS
                       (c_array [120; 120; 120; 120; 120]) 53))
                 compare_fd_socks5addr_by_addrport = -1)
    by (vm_compute; reflexivity).
  assert (H7 : resolve_model [120; 120; 120; 120; 120] 53 = None)
    by (vm_compute; reflexivity).
  repeat (split; [assumption|]).
  exact (proj1 (C10_udp_flow_failure_ends_session inet_ntop_model
                  inet_pton_model resolve_model resolve_model 9 5 7 H1
                  example_flow_state
                  (example_udp_event example_unresolved_datagram)
                  example_unresolved_datagram 12
                  (mk_addrport SOCKS5_DNS
                     (c_array [120; 120; 120; 120; 120]) 53)
                  H2 H3 H4 H5 [example_udp_event example_datagram] [] H6) H7).
Defined.

(** ** TCP relay (C9) *)

Lemma relay_monitor_app (fd1 fd2 : Z) (v : relay_view) (a b : list io_event) :
  relay_monitor fd1 fd2 v (a ++ b) =
  match relay_monitor fd1 fd2 v a with
  | Some v' => relay_monitor fd1 fd2 v' b
  | None => None
  end.
Proof.
  revert v; induction a as [|ev a IH]; intros v; simpl; [reflexivity|].
  destruct (relay_monitor_step fd1 fd2 v ev); [apply IH | reflexivity].
Qed.

Lemma relay_monitor_cons (fd1 fd2 : Z) (v : relay_view) (ev : io_event)
    (tr : list io_event) :
  relay_monitor fd1 fd2 v (ev :: tr) =
  match relay_monitor_step fd1 fd2 v ev with
  | Some v' => relay_monitor fd1 fd2 v' tr
  | None => None
  end.
Proof. reflexivity. Qed.

Lemma skipn_sub (buf : list Z) (off len m : Z) :
  0 <= off -> 0 <= m <= len ->
  skipn (Z.to_nat m) (sub buf off len) = sub buf (off + m) (len - m).
Proof.
  intros Ho Hm. unfold sub. rewrite skipn_firstn_comm, skipn_skipn.
  f_equal; [lia|]. f_equal. lia.
Qed.

Lemma sub_all (buf : list Z) : sub buf 0 (blen buf) = buf.
Proof.
  unfold sub, blen. rewrite Nat2Z.id. simpl. apply firstn_all.
Qed.

Lemma sub_nil (buf : list Z) (off len : Z) : len <= 0 -> sub buf off len = [].
Proof.
  intros H. unfold sub. replace (Z.to_nat len) with 0%nat by lia.
  reflexivity.
Qed.

Lemma pick_put {A : Type} (d : bool) (p : A * A) (x : A) :
  pick d (put d p x) = x.
Proof. destruct d; reflexivity. Qed.

Lemma put_put {A : Type} (d : bool) (p : A * A) (x y : A) :
  put d (put d p x) y = put d p y.
Proof. destruct d; reflexivity. Qed.

Section RelayClaims.

Variable kq fd1 fd2 : Z.
Hypothesis distinct : fd1 <> fd2.

Lemma write_direction_out (d : bool) :
  write_direction fd1 fd2 (out_fd fd1 fd2 d) = Some d.
Proof.
  unfold write_direction, out_fd. destruct d.
  - now rewrite Z.eqb_refl.
  - destruct (Z.eqb_spec fd1 fd2); [contradiction|]. now rewrite Z.eqb_refl.
Qed.

Lemma read_direction_in (d : bool) :
  read_direction fd1 fd2 (in_fd fd1 fd2 d) = Some d.
Proof.
  unfold read_direction, in_fd. destruct d.
  - now rewrite Z.eqb_refl.
  - destruct (Z.eqb_spec fd2 fd1); [congruence|]. now rewrite Z.eqb_refl.
Qed.

(** The monitor follows the [write] loop: each write offers what is left of
    the payload, and when the loop is done nothing is left and the whole
    payload is owed to the counter. *)
Lemma write_all_monitor (d : bool) (buf : list Z) (totals : traffic)
    (writes : list Z) :
  forall (sent owed : Z) (ex : write_exit) (tr : list io_event),
  0 <= sent <= blen buf ->
  write_all (out_fd fd1 fd2 d) buf (blen buf) sent writes = (ex, tr) ->
  exists pending owed',
    relay_monitor fd1 fd2
      (mk_relay_view (put d ([], []) (sub buf sent (blen buf - sent)))
         (put d (0, 0) owed) false totals) tr =
    Some (mk_relay_view (put d ([], []) pending) (put d (0, 0) owed')
            false totals)
    /\ (ex = WriteDone -> pending = [] /\ owed' = owed + (blen buf - sent))
    /\ (ex <> WriteDone -> pending <> []).
Proof.
  assert (Hleft : forall sent,
            0 <= sent < blen buf -> sub buf sent (blen buf - sent) <> []).
  { intros sent Hs E.
    assert (Hl : blen (sub buf sent (blen buf - sent)) = blen buf - sent)
      by (apply sub_length; lia).
    rewrite E in Hl. unfold blen at 1 in Hl. simpl in Hl. lia. }
  induction writes as [|m0 writes IH]; intros sent owed ex tr Hs Hw;
    simpl in Hw.
  - destruct (Z.ltb_spec sent (blen buf)); simpl in Hw;
      inversion Hw; subst; clear Hw; simpl; do 2 eexists;
      (split; [reflexivity|]).
    + split; [discriminate|]. intros _. apply Hleft. lia.
    + split; [|intros N; now elim N]. intros _.
      split; [apply sub_nil; lia | lia].
  - destruct (Z.ltb_spec sent (blen buf)) as [Hlt|Hge]; simpl in Hw.
    2:{ inversion Hw; subst; clear Hw; simpl. do 2 eexists.
        split; [reflexivity|]. split; [|intros N; now elim N]. intros _.
        split; [apply sub_nil; lia | lia]. }
    set (m := Z.min m0 (blen buf - sent)) in *.
    assert (Hm : m <= blen buf - sent) by (unfold m; lia).
    assert (Hlen : blen (sub buf sent (blen buf - sent)) = blen buf - sent)
      by (apply sub_length; lia).
    assert (Hstep :
      relay_monitor_step fd1 fd2
        (mk_relay_view (put d ([], []) (sub buf sent (blen buf - sent)))
           (put d (0, 0) owed) false totals)
        (IoWrite (out_fd fd1 fd2 d) (sub buf sent (blen buf - sent)) m) =
      if m <? 0
      then Some (mk_relay_view
                   (put d ([], []) (sub buf sent (blen buf - sent)))
                   (put d (0, 0) owed) false totals)
      else Some (mk_relay_view
                   (put d ([], [])
                      (sub buf (sent + m) (blen buf - (sent + m))))
                   (put d (0, 0) (owed + m)) false totals)).
    { unfold relay_monitor_step. rewrite write_direction_out.
      cbn [rv_locked rv_pending rv_owed rv_totals negb andb].
      rewrite !pick_put, list_eqb_refl, Hlen.
      destruct (Z.leb_spec m (blen buf - sent)); [|lia]. cbn [andb].
      destruct (Z.ltb_spec m 0); [reflexivity|].
      rewrite !put_put, skipn_sub by lia.
      do 3 f_equal. f_equal. lia. }
    destruct (Z.ltb_spec m 0) as [Hneg|Hpos].
    + inversion Hw; subst; clear Hw. rewrite relay_monitor_cons, Hstep.
      do 2 eexists. split; [reflexivity|]. split; [discriminate|].
      intros _. apply Hleft. lia.
    + destruct (write_all (out_fd fd1 fd2 d) buf (blen buf) (sent + m) writes)
        as [ex1 tr1] eqn:Hrec.
      inversion Hw; subst; clear Hw. rewrite relay_monitor_cons, Hstep.
      destruct (IH (sent + m) (owed + m) ex tr1 ltac:(lia) Hrec)
        as (pending & owed' & Hmon & Hdone & Hleftover).
      exists pending, owed'. split; [exact Hmon|].
      split; [|exact Hleftover].
      intros E. destruct (Hdone E) as [-> ->]. split; [reflexivity | lia].
Qed.

Lemma relay_settled_init (totals : traffic) :
  relay_settled (relay_view_init totals).
Proof. split; [reflexivity|]. intros []; reflexivity. Qed.

(** A view with one payload under way, or with nothing owed, is settled. *)
Lemma relay_settled_direction (d : bool) (pending : list Z) (owed : Z)
    (totals : traffic) :
  pending <> [] \/ owed = 0 ->
  relay_settled
    (mk_relay_view (put d ([], []) pending) (put d (0, 0) owed) false totals).
Proof.
  intros H. split; [reflexivity|].
  intros d'. cbn [rv_pending rv_owed].
  destruct d, d'; cbn [pick put fst snd]; intros E;
    try reflexivity; destruct H as [N | ->]; try reflexivity; contradiction.
Qed.

(** What [update_traffic_stats] does for a payload of [n] bytes read in
    direction [d], as [copyloop] calls it. *)
Lemma update_monitor (d : bool) (totals : traffic) (n : Z) :
  let '(totals', tr) :=
    if in_fd fd1 fd2 d =? fd1 then update_traffic_stats totals n 0
    else update_traffic_stats totals 0 n in
  relay_monitor fd1 fd2
    (mk_relay_view (put d ([], []) []) (put d (0, 0) (0 + n)) false totals)
    tr = Some (relay_view_init totals').
Proof.
  unfold in_fd, update_traffic_stats, relay_view_init. destruct d.
  - rewrite Z.eqb_refl. simpl. rewrite !Z.eqb_refl. reflexivity.
  - destruct (Z.eqb_spec fd2 fd1); [congruence|]. simpl.
    rewrite !Z.eqb_refl. reflexivity.
Qed.

Lemma copyloop_events_monitor (events : list read_event) :
  (forall e, In e events -> ev_ident e = fd1 \/ ev_ident e = fd2) ->
  forall totals,
  let '(ex, totals', tr) := copyloop_events kq fd1 fd2 totals events in
  exists v,
    relay_monitor fd1 fd2 (relay_view_init totals) tr = Some v /\
    rv_totals v = totals' /\
    (ex = ForDone -> v = relay_view_init totals') /\
    relay_settled v.
Proof.
  induction events as [|e rest IH]; intros Hid totals.
  - simpl. exists (relay_view_init totals).
    split; [reflexivity|]. split; [reflexivity|]. split; [reflexivity|].
    apply relay_settled_init.
  - assert (Hd : exists d, ev_ident e = in_fd fd1 fd2 d).
    { destruct (Hid e (or_introl eq_refl)) as [H|H];
        [exists true | exists false]; exact H. }
    destruct Hd as [d Hd].
    assert (Hout : (if ev_ident e =? fd1 then fd2 else fd1) = out_fd fd1 fd2 d).
    { rewrite Hd. unfold in_fd, out_fd. destruct d.
      - now rewrite Z.eqb_refl.
      - destruct (Z.eqb_spec fd2 fd1); [congruence | reflexivity]. }
    specialize (IH (fun e' H => Hid e' (or_intror H))).
    cbn [copyloop_events]. rewrite Hout.
    destruct (ev_is_read e); [|apply IH].
    assert (Hrd : relay_monitor_step fd1 fd2 (relay_view_init totals)
                    (IoRead (ev_ident e) (ev_recv e)) =
                  Some (mk_relay_view
                          (put d ([], []) (recv_buf (ev_recv e)))
                          (put d (0, 0) 0) false totals)).
    { unfold relay_monitor_step. rewrite Hd, read_direction_in.
      destruct d; reflexivity. }
    destruct (Z.leb_spec (recv_n (ev_recv e)) 0) as [Hn|Hn].
    { rewrite relay_monitor_cons, Hrd. simpl. eexists.
      split; [reflexivity|]. split; [reflexivity|]. split; [discriminate|].
      apply relay_settled_direction. now right. }
    destruct (ev_recv e) as [data|] eqn:Hrecv; [|simpl in Hn; lia].
    cbn [recv_n recv_buf] in *.
    destruct (write_all (out_fd fd1 fd2 d) data (blen data) 0 (ev_writes e))
      as [wex wtr] eqn:Hw.
    destruct (write_all_monitor d data totals (ev_writes e) 0 0 wex wtr
                ltac:(lia) Hw) as (pending & owed' & Hmon & Hdone & Hleft).
    rewrite Z.sub_0_r, sub_all in Hmon.
    destruct wex.
    + (* the payload was written in full *)
      destruct (Hdone eq_refl) as [-> ->]. rewrite Z.sub_0_r in Hmon.
      pose proof (update_monitor d totals (blen data)) as Hup.
      rewrite <- Hd in Hup.
      destruct (if ev_ident e =? fd1
                then update_traffic_stats totals (blen data) 0
                else update_traffic_stats totals 0 (blen data))
        as [totals1 tr2].
      specialize (IH totals1).
      destruct (copyloop_events kq fd1 fd2 totals1 rest)
        as [[ex totals2] tr3].
      destruct IH as (v & Hv & Ht & Hidle & Hset).
      exists v. split; [|split; [|split]; assumption].
      rewrite relay_monitor_cons, Hrd.
      rewrite relay_monitor_app, Hmon, relay_monitor_app, Hup. exact Hv.
    + eexists. split; [|split; [|split; [discriminate|]]].
      * rewrite relay_monitor_cons, Hrd, relay_monitor_app, Hmon.
        reflexivity.
      * reflexivity.
      * apply relay_settled_direction. left. apply Hleft. discriminate.
    + eexists. split; [|split; [|split; [discriminate|]]].
      * rewrite relay_monitor_cons, Hrd, Hmon. reflexivity.
      * reflexivity.
      * apply relay_settled_direction. left. apply Hleft. discriminate.
Qed.

Lemma copyloop_loop_monitor (batches : list (kevent_result read_event)) :
  (forall events e, In (KevReady events) batches -> In e events ->
     ev_ident e = fd1 \/ ev_ident e = fd2) ->
  forall totals,
  let '(ex, totals', tr) := copyloop_loop kq fd1 fd2 totals batches in
  exists v,
    relay_monitor fd1 fd2 (relay_view_init totals) tr = Some v /\
    rv_totals v = totals' /\ relay_settled v.
Proof.
  induction batches as [|b rest IH]; intros Hid totals.
  - simpl. exists (relay_view_init totals).
    split; [reflexivity|]. split; [reflexivity | apply relay_settled_init].
  - assert (Hrest : forall events e, In (KevReady events) rest ->
              In e events -> ev_ident e = fd1 \/ ev_ident e = fd2).
    { intros events e H. apply Hid. now right. }
    specialize (IH Hrest). destruct b as [err|events].
    + simpl. destruct (is_retry err); [apply IH|].
      simpl. eexists. split; [reflexivity|].
      split; [reflexivity | apply relay_settled_init].
    + destruct events as [|e events].
      { simpl. eexists. split; [reflexivity|].
        split; [reflexivity | apply relay_settled_init]. }
      cbn [copyloop_loop].
      pose proof (copyloop_events_monitor (e :: events)
                    (fun e' H => Hid (e :: events) e' (or_introl eq_refl) H)
                    totals) as He.
      destruct (copyloop_events kq fd1 fd2 totals (e :: events))
        as [[ex totals1] tr1].
      destruct He as (v & Hv & Ht & Hidle & Hset).
      destruct ex; try (exists v; split; [|split]; assumption).
      specialize (IH totals1).
      destruct (copyloop_loop kq fd1 fd2 totals1 rest)
        as [[ex2 totals2] tr2].
      destruct IH as (v2 & Hv2 & Ht2).
      exists v2. split; [|exact Ht2].
      rewrite relay_monitor_app, Hv, (Hidle eq_refl). exact Hv2.
Qed.

End RelayClaims.

(** ** The counters under concurrent updates *)

Lemma map_list_update {A B : Type} (f : A -> B) (l : list A) (i : nat)
    (x : A) :
  map f (list_update l i x) = list_update (map f l) i (f x).
Proof.
  revert i; induction l as [|y l IH]; intros [|i]; simpl; try reflexivity.
  now rewrite IH.
Qed.

Lemma list_update_same {A : Type} (l : list A) (i : nat) (x : A) :
  nth_error l i = Some x -> list_update l i x = l.
Proof.
  revert i; induction l as [|y l IH]; intros [|i]; simpl; try discriminate.
  - intros H; inversion H; reflexivity.
  - intros H. now rewrite IH.
Qed.

Lemma credited_update (f : Z * Z -> Z) (calls : list (Z * Z)) :
  forall (mask : list bool) (i : nat) (b b' : bool) (c : Z * Z),
  nth_error mask i = Some b -> nth_error calls i = Some c ->
  credited f calls (list_update mask i b') =
  credited f calls mask + (if b' then f c else 0) - (if b then f c else 0).
Proof.
  induction calls as [|c0 calls IH]; intros mask i b b' c Hm Hc.
  - destruct i; discriminate.
  - destruct mask as [|b0 mask]; [destruct i; discriminate|].
    destruct i as [|i]; simpl in *.
    + inversion Hm; inversion Hc; subst. lia.
    + rewrite (IH mask i b b' c Hm Hc). lia.
Qed.

(** The mutual exclusion part of the invariant after a step of thread [i]:
    the thread itself, or another thread, whose state has not changed. *)
Ltac mutex_case Hother Hmx :=
  let j := fresh "j" in
  let q := fresh "q" in
  let Hq := fresh "Hq" in
  let Hm := fresh "Hm" in
  let Hne := fresh "Hne" in
  let Hj := fresh "Hj" in
  intros j q Hq Hm;
  destruct (Hother _ j q Hq) as [[-> ->]|[Hne Hj]];
  [ try reflexivity; try discriminate; try assumption
  | pose proof (Hmx j q Hj Hm); congruence ].

Section Counters.

Variable totals : traffic.
Variable calls : list (Z * Z).
Hypothesis totals_ok : traffic_ok totals.

Lemma stats_inv_init : stats_inv totals calls (stats_init totals calls).
Proof.
  unfold stats_inv, stats_init; simpl.
  assert (Z0 : forall f sel,
            sel SpLock = false ->
            credited f calls (map sel (map (fun _ => SpLock) calls)) = 0).
  { intros f sel Hsel. induction calls as [|c l IH]; simpl; [reflexivity|].
    rewrite Hsel, IH. reflexivity. }
  destruct totals_ok as [Hu Hd].
  split; [|split; [|split]].
  - intros i pc H Hh. rewrite nth_error_map in H.
    destruct (nth_error calls i); inversion H; subst. discriminate.
  - rewrite Z0 by reflexivity. rewrite Z.add_0_r, Z.mod_small; lia.
  - rewrite Z0 by reflexivity. rewrite Z.add_0_r, Z.mod_small; lia.
  - intros r [].
Qed.

(** The sum that a mask of the threads selects changes, when thread [i]
    moves from [pc] to [pc'], by the call of that thread if the move enters
    the mask. *)
Lemma credited_move (f : Z * Z -> Z) (sel : stats_pc -> bool)
    (pcs : list stats_pc) (i : nat) (pc pc' : stats_pc) (c : Z * Z) :
  nth_error pcs i = Some pc -> nth_error calls i = Some c ->
  credited f calls (map sel (list_update pcs i pc')) =
  credited f calls (map sel pcs)
  + (if sel pc' then f c else 0) - (if sel pc then f c else 0).
Proof.
  intros Hp Hc. rewrite map_list_update.
  apply credited_update; [|exact Hc].
  rewrite nth_error_map, Hp. reflexivity.
Qed.

Lemma stats_inv_step (s s' : stats_state) (i : nat) :
  stats_inv totals calls s -> stats_step calls s i = Some s' ->
  stats_inv totals calls s'.
Proof.
  intros (Hmx & Hup & Hdown & Hrep) Hstep. unfold stats_step in Hstep.
  destruct (nth_error (ss_pcs s) i) as [pc|] eqn:Hpc; [|discriminate].
  destruct (nth_error calls i) as [[uploaded downloaded]|] eqn:Hc;
    [|discriminate].
  assert (Hother : forall pc' j q,
            nth_error (list_update (ss_pcs s) i pc') j = Some q ->
            (j = i /\ q = pc') \/ (j <> i /\ nth_error (ss_pcs s) j = Some q)).
  { intros pc' j q Hq. eapply nth_error_update_inv; eauto. }
  pose proof (fun f sel pc' =>
                credited_move f sel (ss_pcs s) i pc pc'
                  (uploaded, downloaded) Hpc Hc) as Hmove.
  assert (Hrep' : forall r,
            In r (ss_reports s ++ [ss_totals s]) ->
            map up_added (ss_pcs s) = map down_added (ss_pcs s) ->
            exists mask, r = totals_after totals calls mask).
  { intros r Hr E. apply in_app_iff in Hr as [Hr|[<-|[]]]; [now apply Hrep|].
    exists (map down_added (ss_pcs s)). unfold totals_after.
    rewrite (surjective_pairing (ss_totals s)), Hup, Hdown. now rewrite E. }
  destruct pc;
    try (destruct (ss_holder s) eqn:Hh; [discriminate|]);
    try discriminate;
    try (assert (Hh : ss_holder s = Some i)
           by (eapply (Hmx i); [exact Hpc | reflexivity]));
    inversion Hstep; subst s'; clear Hstep;
    unfold stats_inv; cbn [ss_pcs ss_totals ss_holder ss_reports];
    (split; [mutex_case Hother Hmx|]);
    rewrite !Hmove; cbn [up_added down_added fst snd];
    (split; [rewrite Hup, ?Z.add_mod_idemp_l by lia; f_equal; lia|]);
    (split; [rewrite Hdown, ?Z.add_mod_idemp_l by lia; f_equal; lia|]);
    try exact Hrep.
  (* the report *)
  intros r Hr. apply (Hrep' r Hr).
  apply map_ext_in. intros q Hq. destruct q; try reflexivity.
  apply In_nth_error in Hq as [j Hj].
  pose proof (Hmx j SpAddDown Hj eq_refl) as Hj'.
  assert (j = i) by congruence. subst j. congruence.
Qed.

Lemma stats_inv_run (schedule : list nat) (s s' : stats_state) :
  stats_inv totals calls s -> stats_run calls s schedule = Some s' ->
  stats_inv totals calls s'.
Proof.
  revert s; induction schedule as [|i rest IH]; intros s Hinv Hrun;
    simpl in Hrun.
  - now inversion Hrun; subst.
  - destruct (stats_step calls s i) as [s1|] eqn:E; [|discriminate].
    eapply IH; [|exact Hrun]. eapply stats_inv_step; eauto.
Qed.

(** Every report that the UI receives is the pair of totals after a set of
    whole calls: no report shows the upload of a call without its
    download. *)
Lemma stats_reports_atomic (schedule : list nat) (s' : stats_state) :
  stats_run calls (stats_init totals calls) schedule = Some s' ->
  forall r, In r (ss_reports s') ->
  exists mask, r = totals_after totals calls mask.
Proof.
  intros Hrun.
  now destruct (stats_inv_run schedule _ s' stats_inv_init Hrun)
    as (_ & _ & _ & H).
Qed.

End Counters.

(** Two concurrent updates, of 5 uploaded and of 7 downloaded bytes: run one
    after the other they are reported as (5, 0) and (5, 7); the second
    thread cannot enter while the first holds the mutex. *)
Example stats_run_two_updates :
  stats_run [(5, 0); (0, 7)] (stats_init (0, 0) [(5, 0); (0, 7)])
    [0; 0; 0; 0; 0; 1; 1; 1; 1; 1]%nat =
  Some (mk_stats_state (5, 7) None [SpDone; SpDone] [(5, 0); (5, 7)]).
Proof. reflexivity. Qed.

Example stats_run_mutex_excludes :
  stats_run [(5, 0); (0, 7)] (stats_init (0, 0) [(5, 0); (0, 7)])
    [0; 0; 1]%nat = None.
Proof. reflexivity. Qed.

(** C9 (amended). Every trace of [copyloop] is accepted by the monitor of
    the spec's words: in each direction a read is made only when the
    payload of the previous read has been written in full to the other
    socket, every write offers exactly the unwritten rest of that payload,
    and the counters change only by reports made inside the mutex, each of
    which adds to upload the bytes of the client payloads, and to download
    the bytes of the target payloads, that have been written in full since
    the last report. Every payload written in full is counted: where the
    trace ends the mutex is free and, in each direction, either a payload
    is still to be written or nothing is owed to the counter (the monitor
    lets no read follow a payload that has not been counted). The counters
    that [copyloop] returns are those of the last report: a payload whose
    write fails is not counted. And when several threads update the
    counters at once, however their steps interleave, every report that the
    UI callback receives is the pair of totals after a set of whole
    updates. *)
Theorem C9_copyloop_relay (sys : copyloop_sys) (fd1 fd2 : Z)
    (totals : traffic) :
  fd1 <> fd2 -> idents_ok fd1 fd2 sys -> traffic_ok totals ->
  (let '(ex, totals', tr) := copyloop sys fd1 fd2 totals in
   exists v,
     relay_monitor fd1 fd2 (relay_view_init totals) tr = Some v /\
     rv_totals v = totals' /\ relay_settled v)
  /\ (forall calls schedule s',
        stats_run calls (stats_init totals calls) schedule = Some s' ->
        forall r, In r (ss_reports s') ->
        exists mask, r = totals_after totals calls mask).
Proof.
  intros Hd Hid Hok. split.
  - unfold copyloop.
    destruct (cl_kq sys =? -1).
    { eexists. split; [reflexivity|].
      split; [reflexivity | apply relay_settled_init]. }
    destruct (cl_register_rc sys =? -1).
    { eexists. split; [reflexivity|].
      split; [reflexivity | apply relay_settled_init]. }
    pose proof (copyloop_loop_monitor (cl_kq sys) fd1 fd2 Hd (cl_batches sys)
                  Hid totals) as H.
    destruct (copyloop_loop (cl_kq sys) fd1 fd2 totals (cl_batches sys))
      as [[ex totals'] tr].
    destruct H as (v & Hv & Ht & Hset). exists v.
    split; [exact Hv|]. split; [exact Ht | exact Hset].
  - intros calls schedule s'. now apply stats_reports_atomic.
Qed.

Lemma C9_copyloop_relay_witness :
  5 <> 6 /\ idents_ok 5 6 example_relay /\ traffic_ok (0, 0) /\
  exists v,
    relay_monitor 5 6 (relay_view_init (0, 0))
      [IoKqueue 9; IoKqAdd 9 [5; 6] 0;
       IoRead 5 (Some [1; 2; 3; 4; 5]);
       IoWrite 6 [1; 2; 3; 4; 5] 2; IoWrite 6 [3; 4; 5] 3;
       IoMutexLock; IoReport 5 0; IoMutexUnlock;
       IoRead 6 (Some []); IoClose 9] = Some v /\
    rv_totals v = (5, 0) /\ relay_settled v.
Proof.
  assert (H1 : 5 <> 6) by lia.
  assert (H2 : idents_ok 5 6 example_relay).
  { intros events e [H|[H|[]]]; inversion H; subst; clear H;
      intros [<-|[]]; simpl; auto. }
  assert (H3 : traffic_ok (0, 0)) by (unfold traffic_ok; simpl; lia).
  split; [exact H1|]. split; [exact H2|]. split; [exact H3|].
  exact (proj1 (C9_copyloop_relay example_relay 5 6 (0, 0) H1 H2 H3)).
Defined.

(** C9 as stated fails: five bytes are read from the client socket 5, the
    write to the target fails, and [copyloop] returns with the upload
    counter unchanged. *)
Lemma C9_counterexample :
  copyloop example_failed_relay 5 6 (0, 0) =
  (Returned, (0, 0),
   [IoKqueue 9; IoKqAdd 9 [5; 6] 0;
    IoRead 5 (Some [1; 2; 3; 4; 5]); IoWrite 6 [1; 2; 3; 4; 5] (-1);
    IoClose 9]).
Proof. reflexivity. Qed.

(** The monitor refuses a trace in which a second read of a direction comes
    before the payload of the first has been written in full, and one in
    which the counters are reported outside the mutex. *)
Example relay_monitor_refuses_early_read :
  relay_monitor 5 6 (relay_view_init (0, 0))
    [IoRead 5 (Some [1; 2; 3]); IoWrite 6 [1; 2; 3] 2;
     IoRead 5 (Some [4])] = None.
Proof. reflexivity. Qed.

Example relay_monitor_refuses_unlocked_report :
  relay_monitor 5 6 (relay_view_init (0, 0))
    [IoRead 5 (Some [1; 2; 3]); IoWrite 6 [1; 2; 3] 3; IoReport 3 0] = None.
Proof. reflexivity. Qed.

(** A trace that ends after a payload has been written in full and before
    it is counted is not settled, and neither is one that ends inside the
    mutex. *)
Example relay_uncounted_not_settled :
  exists v,
    relay_monitor 5 6 (relay_view_init (0, 0))
      [IoRead 5 (Some [1; 2; 3]); IoWrite 6 [1; 2; 3] 3] = Some v /\
    ~ relay_settled v.
Proof.
  eexists. split; [reflexivity|].
  intros [_ H]. specialize (H true eq_refl). discriminate H.
Qed.

Example relay_locked_not_settled :
  exists v,
    relay_monitor 5 6 (relay_view_init (0, 0))
      [IoRead 5 (Some [1; 2; 3]); IoWrite 6 [1; 2; 3] 3; IoMutexLock;
       IoReport 3 0] = Some v /\
    ~ relay_settled v.
Proof.
  eexists. split; [reflexivity|]. intros [H _]. discriminate H.
Qed.

(** * Further properties of the code *)

(** ** Method selection *)

Lemma check_auth_method_loop_first (auth_user : option (list Z))
    (auth_ips : option (list sockaddr_union)) (rdlock_rc : Z)
    (client : sockaddr_union) (rest : list Z) :
  forall n_methods,
  check_auth_method_loop auth_user auth_ips rdlock_rc client rest n_methods =
  first_acceptable (is_some auth_user)
    (whitelisted auth_ips rdlock_rc client)
    (firstn (Z.to_nat n_methods) rest).
Proof.
  unfold first_acceptable.
  induction rest as [|m rest IH]; intros nm; simpl.
  - now rewrite firstn_nil.
  - destruct (Z.gtb_spec nm 0) as [Hpos|Hle]; cbn [negb].
    2:{ replace (Z.to_nat nm) with 0%nat by lia. reflexivity. }
    replace (Z.to_nat nm) with (S (Z.to_nat (nm - 1))) by lia.
    rewrite IH. clear IH.
    set (acc := method_acceptable (is_some auth_user)
                  (whitelisted auth_ips rdlock_rc client)).
    cbn [firstn find].
    destruct (Z.eqb_spec m AM_NO_AUTH) as [->|Hm0].
    + assert (A : acc AM_NO_AUTH =
                  negb (is_some auth_user)
                  || whitelisted auth_ips rdlock_rc client).
      { unfold acc, method_acceptable. rewrite Z.eqb_refl.
        change (AM_NO_AUTH =? AM_USERNAME) with false.
        cbn [andb]. apply orb_false_r. }
      rewrite A. change (AM_NO_AUTH =? AM_USERNAME) with false.
      destruct auth_user as [au|]; cbn [is_some negb orb]; [|reflexivity].
      unfold whitelisted. destruct auth_ips as [ips|]; [|reflexivity].
      destruct (rdlock_rc =? 0); cbn [andb]; [|reflexivity].
      destruct (is_in_authed_list ips client); reflexivity.
    + assert (A : acc m = (m =? AM_USERNAME) && is_some auth_user).
      { unfold acc, method_acceptable.
        destruct (Z.eqb_spec m AM_NO_AUTH); [contradiction | reflexivity]. }
      rewrite A.
      destruct (Z.eqb_spec m AM_USERNAME) as [->|Hm2];
        destruct auth_user; reflexivity.
Qed.

(** [check_auth_method] is the first acceptable method among those the
    greeting counts and carries: for any buffer, it answers a greeting that
    starts with 5 and has a count byte with the first offered method that
    is NoAuth (when no credentials are configured or the whitelist lets the
    client in) or UsernamePassword (when credentials are configured), and
    with Invalid when there is none or when the greeting is not one;
    methods beyond the count and a count beyond the received bytes change
    nothing. *)
Theorem check_auth_method_first_acceptable (auth_user : option (list Z))
    (auth_ips : option (list sockaddr_union)) (rdlock_rc : Z)
    (buf : list Z) (client : sockaddr_union) :
  check_auth_method auth_user auth_ips rdlock_rc buf client =
  if (getb buf 0 =? 5) && (1 <? blen buf)
  then first_acceptable (is_some auth_user)
         (whitelisted auth_ips rdlock_rc client) (offered_methods buf)
  else AM_INVALID.
Proof.
  unfold check_auth_method, offered_methods.
  destruct (getb buf 0 =? 5); cbn [negb andb]; [|reflexivity].
  destruct (Z.geb_spec 1 (blen buf)); destruct (Z.ltb_spec 1 (blen buf));
    try lia; try reflexivity.
  apply check_auth_method_loop_first.
Qed.

Lemma first_acceptable_cases (configured listed : bool) (offered : list Z) :
  (first_acceptable configured listed offered = AM_NO_AUTH /\
   (configured = false \/ listed = true) /\ In AM_NO_AUTH offered)
  \/ (first_acceptable configured listed offered = AM_USERNAME /\
      configured = true /\ In AM_USERNAME offered)
  \/ first_acceptable configured listed offered = AM_INVALID.
Proof.
  unfold first_acceptable.
  destruct (find (method_acceptable configured listed) offered) as [m|] eqn:F;
    [|now right; right].
  apply find_some in F as [Hin Hacc]. unfold method_acceptable in Hacc.
  apply orb_true_iff in Hacc as [H|H]; apply andb_true_iff in H as [Hm Hc];
    apply Z.eqb_eq in Hm; subst m.
  - left. split; [reflexivity|]. split; [|exact Hin].
    destruct configured, listed; simpl in Hc; auto; discriminate.
  - right; left. auto.
Qed.

(** With credentials configured, [check_auth_method] selects NoAuth only
    for a client that the enabled whitelist lists (the read lock taken) and
    that offered NoAuth; without credentials it never selects
    UsernamePassword; and it returns nothing but the three method codes. *)
Theorem check_auth_method_no_bypass (auth_user : option (list Z))
    (auth_ips : option (list sockaddr_union)) (rdlock_rc : Z)
    (buf : list Z) (client : sockaddr_union) :
  let am := check_auth_method auth_user auth_ips rdlock_rc buf client in
  (am = AM_NO_AUTH \/ am = AM_USERNAME \/ am = AM_INVALID)
  /\ (am = AM_NO_AUTH ->
      (auth_user = None \/ whitelisted auth_ips rdlock_rc client = true)
      /\ In AM_NO_AUTH (offered_methods buf))
  /\ (am = AM_USERNAME ->
      auth_user <> None /\ In AM_USERNAME (offered_methods buf)).
Proof.
  intros am. unfold am, check_auth_method.
  destruct (getb buf 0 =? 5); cbn [negb];
    [|split; [auto | split; discriminate]].
  destruct (1 >=? blen buf); [split; [auto | split; discriminate]|].
  rewrite check_auth_method_loop_first.
  change (firstn (Z.to_nat (getb buf 1)) (skipn (Z.to_nat (1 + 1)) buf))
    with (offered_methods buf).
  destruct (first_acceptable_cases (is_some auth_user)
              (whitelisted auth_ips rdlock_rc client) (offered_methods buf))
    as [(E & Hc & Hin)|[(E & Hc & Hin)|E]]; rewrite E.
  - split; [auto|]. split; [|discriminate]. intros _. split; [|exact Hin].
    destruct Hc as [Hc|Hc]; [left | now right].
    destruct auth_user; [discriminate | reflexivity].
  - split; [auto|]. split; [discriminate|]. intros _. split; [|exact Hin].
    destruct auth_user; [discriminate | discriminate].
  - split; [auto|]. split; discriminate.
Qed.

(** ** The whitelist over several sessions *)

Lemma spec_encode_credentials_length (user pass : list Z) :
  blen (spec_encode_credentials user pass) = 3 + blen user + blen pass.
Proof. unfold spec_encode_credentials. blen_norm. lia. Qed.

Lemma check_credentials_accepts (user pass : list Z) :
  1 <= blen pass -> 2 <= blen user + blen pass ->
  check_credentials (Some user) (Some pass)
    (spec_encode_credentials user pass) = EC_SUCCESS.
Proof.
  intros H1 H2. unfold check_credentials.
  pose proof (check_credentials_extract_layout user pass []) as L.
  rewrite app_nil_r in L. rewrite L. change (blen []) with 0.
  destruct (Z.leb_spec 5 (3 + blen user + blen pass + 0)); [|lia].
  destruct (Z.leb_spec 1 (blen pass + 0)); [|lia]. cbn [andb].
  rewrite check_credentials_compare_spec, !list_eqb_refl. reflexivity.
Qed.

Lemma remember_lists (ips : list sockaddr_union) (a1 a2 : sockaddr_union) :
  same_ip a1 a2 ->
  exists l,
    clientthread_remember (Some ips) 0 a1 = Some l /\
    is_in_authed_list l a2 = true.
Proof.
  intros Hsame. unfold clientthread_remember. cbn [Z.eqb].
  destruct (is_in_authed_list ips a1) eqn:Hin; cbn [negb].
  - exists ips. split; [reflexivity|].
    now rewrite <- (same_ip_in_list ips a1 a2 Hsame).
  - exists (add_auth_ip ips a1). split; [reflexivity|].
    unfold add_auth_ip, sblist_add. rewrite is_in_authed_list_app.
    rewrite (same_ip_authed a2 a1) by now apply same_ip_sym.
    apply orb_true_r.
Qed.

Section AuthOnce.

Variable inet_ntop : address_family -> list Z -> option (list Z).
Variable inet_pton : address_family -> list Z -> option (list Z).
Variable resolve_tcp : list Z -> Z -> option sockaddr_union.
Variable resolve_udp : list Z -> Z -> option sockaddr_union.

(** Auth-once, over two sessions of [clientthread]. On a server with
    credentials and the whitelist enabled, a client that offers
    UsernamePassword and sends the configured credentials is answered
    [05 02] and [01 00]; when the write lock is taken its IP is listed, so
    that a later connection from the same IP (whatever its port) that
    offers NoAuth only is answered [05 00] and is in the state AUTHED
    without having sent credentials. *)
Theorem auth_once_skips_credentials (user pass : list Z)
    (sys1 sys2 : thread_sys) (fd1 fd2 : Z) (a1 a2 : sockaddr_union)
    (ips : list sockaddr_union) (totals : traffic) :
  1 <= blen pass -> 2 <= blen user + blen pass ->
  ts_wrlock_rc sys1 = 0 -> ts_rdlock_rc sys2 = 0 -> same_ip a1 a2 ->
  exists ips',
    clientthread inet_ntop inet_pton resolve_tcp resolve_udp
      (Some user) (Some pass) sys1 fd1 a1 (Some ips) totals
      [[5; 1; 2]; spec_encode_credentials user pass] =
    (true, mk_thread_state SS_3_AUTHED (Some ips') totals,
     [IoWriteNoCheck fd1 [5; 2]; IoWriteNoCheck fd1 [1; 0]; IoClose fd1])
    /\ clientthread inet_ntop inet_pton resolve_tcp resolve_udp
         (Some user) (Some pass) sys2 fd2 a2 (Some ips') totals [[5; 1; 0]] =
       (true, mk_thread_state SS_3_AUTHED (Some ips') totals,
        [IoWriteNoCheck fd2 [5; 0]; IoClose fd2]).
Proof.
  intros Hp Hup Hw Hr Hsame.
  destruct (remember_lists ips a1 a2 Hsame) as (l & Hl & Hin).
  exists l. split.
  - unfold clientthread. cbn [clientthread_loop].
    change (negb (blen [5; 1; 2] >? 0)) with false. cbv iota.
    change (clientthread_step inet_ntop inet_pton resolve_tcp resolve_udp
              (Some user) (Some pass) sys1 fd1 a1
              (mk_thread_state SS_1_CONNECTED (Some ips) totals) [5; 1; 2])
      with (StepNext, mk_thread_state SS_2_NEED_AUTH (Some ips) totals,
            [IoWriteNoCheck fd1 [5; 2]]).
    cbv iota beta.
    pose proof (spec_encode_credentials_length user pass) as Hlen.
    pose proof (blen_nonneg user). pose proof (blen_nonneg pass).
    destruct (Z.gtb_spec (blen (spec_encode_credentials user pass)) 0);
      [|lia].
    cbn [negb]. unfold clientthread_step. cbn [th_state th_auth_ips th_totals].
    rewrite (check_credentials_accepts user pass Hp Hup).
    change (negb (EC_SUCCESS =? EC_SUCCESS)) with false. cbv iota.
    rewrite Hw, Hl. reflexivity.
  - unfold clientthread. cbn [clientthread_loop].
    change (negb (blen [5; 1; 0] >? 0)) with false. cbv iota.
    unfold clientthread_step. cbn [th_state th_auth_ips th_totals].
    assert (Ham : check_auth_method (Some user) (Some l) (ts_rdlock_rc sys2)
                    [5; 1; 0] a2 = AM_NO_AUTH).
    { rewrite Hr. unfold check_auth_method. simpl. now rewrite Hin. }
    rewrite Ham. reflexivity.
Qed.

End AuthOnce.

Lemma is_in_authed_list_app_list (l l' : list sockaddr_union)
    (c : sockaddr_union) :
  is_in_authed_list (l ++ l') c =
  is_in_authed_list l c || is_in_authed_list l' c.
Proof.
  induction l as [|x l IH]; simpl; [reflexivity|].
  destruct (is_authed c x); [reflexivity | exact IH].
Qed.

Lemma remember_step_grows (s s' : whitelist_state) (i : nat) :
  remember_step s i = Some s' -> exists added, ws_ips s' = ws_ips s ++ added.
Proof.
  unfold remember_step.
  destruct (nth_error (ws_threads s) i) as [t|]; [|discriminate].
  destruct (rt_pc t); try discriminate.
  - destruct (ws_writer s); [discriminate|].
    intros H; inversion H; subst. exists []. now rewrite app_nil_r.
  - destruct (negb _); intros H; inversion H; subst; exists [];
      now rewrite app_nil_r.
  - intros H; inversion H; subst. exists [rt_addr t]. reflexivity.
  - intros H; inversion H; subst. exists []. now rewrite app_nil_r.
Qed.

(** Membership in the whitelist is monotonic: whatever threads record
    whatever clients, in whatever interleaving, the list at the end is the
    list at the start with entries appended, and a client that the
    whitelist let in at the start is still let in at the end. *)
Theorem whitelist_only_grows (schedule : list nat) :
  forall s s',
  remember_run s schedule = Some s' ->
  (exists added, ws_ips s' = ws_ips s ++ added) /\
  (forall c, is_in_authed_list (ws_ips s) c = true ->
             is_in_authed_list (ws_ips s') c = true).
Proof.
  assert (G : forall s s', remember_run s schedule = Some s' ->
                           exists added, ws_ips s' = ws_ips s ++ added).
  { induction schedule as [|i rest IH]; intros s s' Hrun; simpl in Hrun.
    - inversion Hrun; subst. exists []. now rewrite app_nil_r.
    - destruct (remember_step s i) as [s1|] eqn:E; [|discriminate].
      destruct (remember_step_grows s s1 i E) as [a1 H1].
      destruct (IH s1 s' Hrun) as [a2 H2].
      exists (a1 ++ a2). now rewrite H2, H1, app_assoc. }
  intros s s' Hrun. destruct (G s s' Hrun) as [added E].
  split; [now exists added|].
  intros c Hc. rewrite E, is_in_authed_list_app_list, Hc. reflexivity.
Qed.

Lemma whitelist_only_grows_witness :
  remember_run (remember_init [example_ip] [example_flow_client])
    [0; 0; 0; 0]%nat =
    Some (mk_whitelist_state [example_ip; example_flow_client] None
            [mk_remember_thread RpDone example_flow_client]) /\
  (exists added,
     [example_ip; example_flow_client] = [example_ip] ++ added) /\
  (forall c, is_in_authed_list [example_ip] c = true ->
             is_in_authed_list [example_ip; example_flow_client] c = true).
Proof.
  assert (H : remember_run (remember_init [example_ip] [example_flow_client])
                [0; 0; 0; 0]%nat =
              Some (mk_whitelist_state [example_ip; example_flow_client] None
                      [mk_remember_thread RpDone example_flow_client]))
    by reflexivity.
  split; [exact H|].
  exact (whitelist_only_grows [0; 0; 0; 0]%nat _ _ H).
Defined.

Lemma auth_once_skips_credentials_witness :
  1 <= blen [98] /\ 2 <= blen [97] + blen [98] /\
  ts_wrlock_rc example_thread_sys = 0 /\
  ts_rdlock_rc example_thread_sys = 0 /\
  same_ip example_ip example_ip_again /\
  exists ips',
    clientthread inet_ntop_model inet_pton_model resolve_model resolve_model
      (Some [97]) (Some [98]) example_thread_sys 4 example_ip (Some [])
      (0, 0) [[5; 1; 2]; spec_encode_credentials [97] [98]] =
    (true, mk_thread_state SS_3_AUTHED (Some ips') (0, 0),
     [IoWriteNoCheck 4 [5; 2]; IoWriteNoCheck 4 [1; 0]; IoClose 4])
    /\ clientthread inet_ntop_model inet_pton_model resolve_model
         resolve_model (Some [97]) (Some [98]) example_thread_sys 8
         example_ip_again (Some ips') (0, 0) [[5; 1; 0]] =
       (true, mk_thread_state SS_3_AUTHED (Some ips') (0, 0),
        [IoWriteNoCheck 8 [5; 0]; IoClose 8]).
Proof.
  assert (H1 : 1 <= blen [98]) by (unfold blen; simpl; lia).
  assert (H2 : 2 <= blen [97] + blen [98]) by (unfold blen; simpl; lia).
  assert (H3 : ts_wrlock_rc example_thread_sys = 0) by reflexivity.
  assert (H4 : ts_rdlock_rc example_thread_sys = 0) by reflexivity.
  assert (H5 : same_ip example_ip example_ip_again) by (split; reflexivity).
  repeat (split; [assumption|]).
  exact (auth_once_skips_credentials inet_ntop_model inet_pton_model
           resolve_model resolve_model [97] [98] example_thread_sys
           example_thread_sys 4 8 example_ip example_ip_again [] (0, 0)
           H1 H2 H3 H4 H5).
Defined.

(** ** Replies *)

(** The reply of [send_response] is [05, code, 00] followed by the wire
    form of the address it is given -- 10 bytes for IPv4, 22 for IPv6 --
    and the reply of [send_error] is the same frame with the IPv4 address
    0.0.0.0 and port 0. *)
Theorem send_response_layout (fd ec write_rc : Z) (addr : sockaddr_union) :
  length (sa_addr addr) = addr_len (sa_family addr) ->
  well_formed_port (sa_port addr) ->
  send_response fd ec addr write_rc =
    (write_rc,
     [IoWrite fd
        ([VERSION; ec mod 256; RSV]
         ++ spec_encode_address (sockaddr_address addr)) write_rc])
  /\ blen ([VERSION; ec mod 256; RSV]
           ++ spec_encode_address (sockaddr_address addr)) =
     match sa_family addr with AF_INET => 10 | AF_INET6 => 22 end
  /\ send_error fd ec =
     [IoWriteNoCheck fd
        ([VERSION; ec mod 256; RSV]
         ++ spec_encode_address (IPv4 [0; 0; 0; 0] 0))].
Proof.
  intros Hlen Hport. unfold send_response, sockaddr_address.
  assert (Hmod : sa_port addr mod 65536 = sa_port addr)
    by (apply Z.mod_small; exact Hport).
  assert (Hhi : Z.shiftr (sa_port addr) 8 = sa_port addr / 256)
    by (rewrite Z.shiftr_div_pow2 by lia; reflexivity).
  destruct (port_encode (sa_port addr) Hport) as [_ Hlo].
  rewrite Hmod, Hhi, Hlo.
  assert (Hsub : sub (sa_addr addr) 0 (Z.of_nat (addr_len (sa_family addr)))
                 = sa_addr addr).
  { rewrite <- Hlen. apply sub_all. }
  destruct (sa_family addr); simpl addr_len in *;
    [change (Z.of_nat 4) with 4 in Hsub | change (Z.of_nat 16) with 16 in Hsub];
    rewrite Hsub; (split; [reflexivity|]); (split; [|reflexivity]);
    unfold spec_encode_address; blen_norm; unfold blen; rewrite Hlen;
    reflexivity.
Qed.

Lemma send_response_layout_witness :
  length (sa_addr (mk_sockaddr AF_INET 50000 [10; 0; 0; 9])) =
    addr_len (sa_family (mk_sockaddr AF_INET 50000 [10; 0; 0; 9])) /\
  well_formed_port (sa_port (mk_sockaddr AF_INET 50000 [10; 0; 0; 9])) /\
  send_response 4 0 (mk_sockaddr AF_INET 50000 [10; 0; 0; 9]) 10 =
    (10, [IoWrite 4 [5; 0; 0; 1; 10; 0; 0; 9; 195; 80] 10]).
Proof.
  assert (H1 : length (sa_addr (mk_sockaddr AF_INET 50000 [10; 0; 0; 9])) =
               addr_len (sa_family (mk_sockaddr AF_INET 50000 [10; 0; 0; 9])))
    by reflexivity.
  assert (H2 : well_formed_port
                 (sa_port (mk_sockaddr AF_INET 50000 [10; 0; 0; 9])))
    by (unfold well_formed_port; simpl; lia).
  split; [exact H1|]. split; [exact H2|].
  exact (proj1 (send_response_layout 4 0 10
                  (mk_sockaddr AF_INET 50000 [10; 0; 0; 9]) H1 H2)).
Defined.

(** ** UDP framing *)

Lemma strncpy_length (s : list Z) (k : nat) : length (strncpy s k) = k.
Proof.
  unfold strncpy. rewrite length_app, repeat_length.
  pose proof (firstn_le_length k (c_str s)). lia.
Qed.

Lemma sub_tail (buf : list Z) (off : Z) :
  0 <= off -> sub buf off (blen buf - off) = skipn (Z.to_nat off) buf.
Proof.
  intros H. unfold sub, blen. apply firstn_all2.
  rewrite length_skipn. lia.
Qed.

Section UdpFraming.

Variable inet_ntop : address_family -> list Z -> option (list Z).
Variable inet_pton : address_family -> list Z -> option (list Z).

(** What [parse_addrport] returns on success is within bounds, whatever
    [inet_ntop] prints. *)
Lemma parse_addrport_bounds (buf : list Z) (k : Z) (ap : socks5_addrport) :
  bytes buf -> parse_addrport inet_ntop buf = Ok (k, ap) ->
  4 <= k <= blen buf /\ length (ap_addr ap) = 256%nat /\
  nth 255 (ap_addr ap) 1 = 0 /\ strlen (ap_addr ap) <= 255 /\
  0 <= ap_port ap < 65536 /\
  (ap_type ap = SOCKS5_IPV4 \/ ap_type ap = SOCKS5_DNS \/
   ap_type ap = SOCKS5_IPV6).
Proof.
  intros Hb. unfold parse_addrport.
  destruct (Z.ltb_spec (blen buf) 2); [discriminate|].
  assert (Hfill : forall type namebuf minlen,
            4 <= minlen <= blen buf ->
            (type = SOCKS5_IPV4 \/ type = SOCKS5_DNS \/ type = SOCKS5_IPV6) ->
            fill_addrport buf type namebuf minlen = Ok (k, ap) ->
            4 <= k <= blen buf /\ length (ap_addr ap) = 256%nat /\
            nth 255 (ap_addr ap) 1 = 0 /\ strlen (ap_addr ap) <= 255 /\
            0 <= ap_port ap < 65536 /\
            (ap_type ap = SOCKS5_IPV4 \/ ap_type ap = SOCKS5_DNS \/
             ap_type ap = SOCKS5_IPV6)).
  { intros type namebuf minlen Hmin Htype Hf. unfold fill_addrport in Hf.
    inversion Hf; subst; clear Hf. cbn [ap_addr ap_port ap_type].
    pose proof (strncpy_length namebuf MAX_DNS_LEN) as Hl.
    split; [exact Hmin|]. split.
    { rewrite length_app, Hl. reflexivity. }
    split.
    { rewrite app_nth2 by (rewrite Hl; unfold MAX_DNS_LEN; lia).
      rewrite Hl. reflexivity. }
    split.
    { unfold strlen, blen.
      rewrite c_str_app_nul.
      pose proof (c_str_length (strncpy namebuf MAX_DNS_LEN)).
      rewrite Hl in *. unfold MAX_DNS_LEN in *. lia. }
    split; [apply Z.mod_pos_bound; lia | exact Htype]. }
  cbv zeta.
  destruct (Z.eqb_spec (getb buf 0) SOCKS5_IPV6) as [E6|_].
  { destruct (Z.ltb_spec (blen buf) (1 + 16 + 2)); [discriminate|].
    destruct (inet_ntop AF_INET6 (sub buf 1 16)); [|discriminate].
    apply Hfill; [lia | rewrite E6; auto]. }
  destruct (Z.eqb_spec (getb buf 0) SOCKS5_IPV4) as [E4|_].
  { destruct (Z.ltb_spec (blen buf) (1 + 4 + 2)); [discriminate|].
    destruct (inet_ntop AF_INET (sub buf 1 4)); [|discriminate].
    apply Hfill; [lia | rewrite E4; auto]. }
  destruct (Z.eqb_spec (getb buf 0) SOCKS5_DNS) as [E3|_]; [|discriminate].
  destruct (Z.ltb_spec (blen buf) (1 + (1 + getb buf 1) + 2));
    [discriminate|].
  pose proof (bytes_getb buf 1 Hb) as B1. unfold is_byte in B1.
  apply Hfill; [lia | rewrite E3; auto].
Qed.

(** A datagram that [extract_udp_data] accepts has its payload inside it:
    the offset returned is at least 7 and at most the length of the
    datagram, so that the length [n - offset] of the [send] is never
    negative; the address stored is a NUL-terminated array of 256 bytes
    with a 16-bit port and one of the three address types. *)
Theorem extract_udp_data_bounds (buf : list Z) (offset : Z)
    (ap : socks5_addrport) :
  bytes buf -> extract_udp_data inet_ntop buf = Ok (offset, ap) ->
  7 <= offset <= blen buf /\ 0 <= blen buf - offset /\
  length (ap_addr ap) = 256%nat /\ nth 255 (ap_addr ap) 1 = 0 /\
  strlen (ap_addr ap) <= 255 /\ 0 <= ap_port ap < 65536 /\
  (ap_type ap = SOCKS5_IPV4 \/ ap_type ap = SOCKS5_DNS \/
   ap_type ap = SOCKS5_IPV6).
Proof.
  intros Hb. unfold extract_udp_data.
  destruct (Z.ltb_spec (blen buf) 3) as [|Hn]; [discriminate|].
  destruct (negb (getb buf 0 =? RSV) || negb (getb buf 1 =? RSV));
    [discriminate|].
  destruct (negb (getb buf 2 =? 0)); [discriminate|].
  destruct (parse_addrport inet_ntop (skipn (Z.to_nat 3) buf))
    as [[k ap']|] eqn:P; [|discriminate].
  intros H; injection H as Ho Ha.
  assert (Ho' : offset = 3 + k) by (symmetry; exact Ho).
  clear Ho; subst offset ap'.
  assert (Hb3 : bytes (skipn (Z.to_nat 3) buf)).
  { unfold bytes in *. rewrite <- (firstn_skipn (Z.to_nat 3) buf) in Hb.
    now apply Forall_app in Hb as [_ Hb]. }
  destruct (parse_addrport_bounds _ _ _ Hb3 P) as ([Hk Hk'] & Hrest).
  assert (Hlen : blen (skipn (Z.to_nat 3) buf) = blen buf - 3).
  { unfold blen in *. rewrite length_skipn. lia. }
  rewrite Hlen in Hk'. split; [lia|]. split; [lia | exact Hrest].
Qed.

Hypothesis libc : inet_contract inet_ntop inet_pton.

(** What [parse_addrport] accepts is the wire form of a well-formed
    address, read to its end and stored as [stored_addrport]. *)
Lemma parse_addrport_ok_exact (buf : list Z) (k : Z) (ap : socks5_addrport) :
  bytes buf -> parse_addrport inet_ntop buf = Ok (k, ap) ->
  exists x,
    well_formed x /\ k = blen (spec_encode_address x) /\
    buf = spec_encode_address x ++ skipn (Z.to_nat k) buf /\
    ap = stored_addrport inet_ntop x.
Proof.
  intros Hb P.
  destruct (parse_addrport_ok_inv inet_ntop buf (k, ap) Hb P)
    as (x & rest & Hwf & Hbuf).
  destruct (parse_addrport_encode inet_ntop inet_pton libc x rest Hwf)
    as (Q & _).
  rewrite <- Hbuf, P in Q. inversion Q; subst k ap.
  exists x. split; [exact Hwf|]. split; [reflexivity|].
  split; [|reflexivity].
  rewrite Hbuf at 2. rewrite skipn_app_exact; [exact Hbuf|].
  unfold blen. now rewrite Nat2Z.id.
Qed.

(** [extract_udp_data] accepts exactly the datagrams that are
    [00 00 00] (two reserved bytes and the fragment number 0), a
    well-formed address and a payload; the offset it returns is the length
    of that header, and the bytes from the offset on are the payload. *)
Theorem extract_udp_data_accepts_exactly (buf : list Z) :
  bytes buf ->
  ((exists r, extract_udp_data inet_ntop buf = Ok r) <->
   (exists x payload,
      well_formed x /\ buf = [RSV; RSV; 0] ++ spec_encode_address x ++ payload))
  /\ (forall x payload,
        well_formed x ->
        buf = [RSV; RSV; 0] ++ spec_encode_address x ++ payload ->
        extract_udp_data inet_ntop buf =
          Ok (3 + blen (spec_encode_address x), stored_addrport inet_ntop x)
        /\ sub buf (3 + blen (spec_encode_address x))
             (blen buf - (3 + blen (spec_encode_address x))) = payload).
Proof.
  intros Hb.
  assert (Fwd : forall x payload,
            well_formed x ->
            buf = [RSV; RSV; 0] ++ spec_encode_address x ++ payload ->
            extract_udp_data inet_ntop buf =
              Ok (3 + blen (spec_encode_address x),
                  stored_addrport inet_ntop x)
            /\ sub buf (3 + blen (spec_encode_address x))
                 (blen buf - (3 + blen (spec_encode_address x))) = payload).
  { intros x payload Hwf ->.
    pose proof (blen_nonneg (spec_encode_address x)) as Bx.
    pose proof (blen_nonneg payload) as Bp. split.
    - unfold extract_udp_data.
      set (b := [RSV; RSV; 0] ++ spec_encode_address x ++ payload).
      assert (Hn : blen b = 3 + blen (spec_encode_address x) + blen payload).
      { unfold b. blen_norm. lia. }
      destruct (Z.ltb_spec (blen b) 3); [lia|].
      change (getb b 0) with RSV. change (getb b 1) with RSV.
      change (getb b 2) with 0.
      change (skipn (Z.to_nat 3) b) with (spec_encode_address x ++ payload).
      cbn [RSV Z.eqb negb orb].
      destruct (parse_addrport_encode inet_ntop inet_pton libc x payload Hwf)
        as (-> & _).
      reflexivity.
    - rewrite sub_tail by lia.
      replace ([RSV; RSV; 0] ++ spec_encode_address x ++ payload)
        with (([RSV; RSV; 0] ++ spec_encode_address x) ++ payload)
        by (rewrite <- app_assoc; reflexivity).
      apply skipn_app_exact. rewrite length_app. unfold blen. simpl length.
      lia. }
  split; [split|exact Fwd].
  - intros [[off ap] Hr]. unfold extract_udp_data in Hr.
    destruct (Z.ltb_spec (blen buf) 3) as [|Hn]; [discriminate|].
    destruct (Z.eqb_spec (getb buf 0) RSV) as [E0|]; [|discriminate].
    destruct (Z.eqb_spec (getb buf 1) RSV) as [E1|]; [|discriminate].
    destruct (Z.eqb_spec (getb buf 2) 0) as [E2|]; [|discriminate].
    cbn [negb orb] in Hr.
    destruct (parse_addrport inet_ntop (skipn (Z.to_nat 3) buf))
      as [[k ap']|] eqn:P; [|discriminate].
    assert (Hb3 : bytes (skipn (Z.to_nat 3) buf)).
    { unfold bytes in *. rewrite <- (firstn_skipn (Z.to_nat 3) buf) in Hb.
      now apply Forall_app in Hb as [_ Hb]. }
    destruct (parse_addrport_ok_inv inet_ntop _ _ Hb3 P)
      as (x & rest & Hwf & Hx).
    exists x, rest. split; [exact Hwf|].
    change (skipn (Z.to_nat 3) buf) with (skipn 3 buf) in Hx.
    rewrite <- Hx. pose proof (buf_header buf Hn) as Hh.
    rewrite E0, E1, E2 in Hh. exact Hh.
  - intros (x & payload & Hwf & Hbuf).
    destruct (Fwd x payload Hwf Hbuf) as [E _]. eauto.
Qed.

(** Framing and deframing compose to the identity: for the address that
    [parse_addrport] stores for a well-formed [x] (a domain name without
    NUL), the header that [copy_loop_udp] puts before a reply, followed by
    any payload, is deframed by [extract_udp_data] into the same stored
    address and the same payload. *)
Theorem udp_frame_deframe (x : Address) (payload : list Z) :
  well_formed x ->
  (forall name port, x = DomainName name port -> ~ In 0 name) ->
  exists hdr,
    udp_reply_header inet_pton (stored_addrport inet_ntop x) = HeaderOk hdr /\
    extract_udp_data inet_ntop (hdr ++ payload) =
      Ok (blen hdr, stored_addrport inet_ntop x) /\
    sub (hdr ++ payload) (blen hdr) (blen (hdr ++ payload) - blen hdr) =
      payload.
Proof.
  intros Hwf Hname.
  exists ([RSV; RSV; 0] ++ spec_encode_address x).
  split; [now apply udp_reply_header_stored|].
  pose proof (blen_nonneg (spec_encode_address x)) as Bx.
  split.
  - unfold extract_udp_data.
    set (b := ([RSV; RSV; 0] ++ spec_encode_address x) ++ payload).
    assert (Hn : 3 <= blen b).
    { unfold b. blen_norm. pose proof (blen_nonneg payload). lia. }
    destruct (Z.ltb_spec (blen b) 3); [lia|].
    change (getb b 0) with RSV. change (getb b 1) with RSV.
    change (getb b 2) with 0.
    change (skipn (Z.to_nat 3) b) with (spec_encode_address x ++ payload).
    cbn [RSV Z.eqb negb orb].
    destruct (parse_addrport_encode inet_ntop inet_pton libc x payload Hwf)
      as (-> & _).
    unfold stored_addrport. do 2 f_equal. blen_norm. lia.
  - rewrite sub_tail by (blen_norm; lia).
    apply skipn_app_exact. unfold blen. now rewrite Nat2Z.id.
Qed.

End UdpFraming.

Lemma example_datagram_bytes : bytes example_datagram.
Proof. repeat constructor; unfold is_byte; lia. Qed.

Lemma extract_udp_data_bounds_witness :
  bytes example_datagram /\
  extract_udp_data inet_ntop_model example_datagram =
    Ok (10, example_dns_server) /\
  7 <= 10 <= blen example_datagram /\ 0 <= blen example_datagram - 10 /\
  length (ap_addr example_dns_server) = 256%nat /\
  nth 255 (ap_addr example_dns_server) 1 = 0 /\
  strlen (ap_addr example_dns_server) <= 255 /\
  0 <= ap_port example_dns_server < 65536 /\
  (ap_type example_dns_server = SOCKS5_IPV4 \/
   ap_type example_dns_server = SOCKS5_DNS \/
   ap_type example_dns_server = SOCKS5_IPV6).
Proof.
  assert (H : extract_udp_data inet_ntop_model example_datagram =
              Ok (10, example_dns_server)) by (vm_compute; reflexivity).
  split; [exact example_datagram_bytes|]. split; [exact H|].
  exact (extract_udp_data_bounds inet_ntop_model example_datagram 10
           example_dns_server example_datagram_bytes H).
Defined.

Lemma extract_udp_data_accepts_exactly_witness :
  bytes example_datagram /\
  ((exists r, extract_udp_data inet_ntop_model example_datagram = Ok r) <->
   (exists x payload,
      well_formed x /\
      example_datagram = [RSV; RSV; 0] ++ spec_encode_address x ++ payload)).
Proof.
  split; [exact example_datagram_bytes|].
  exact (proj1 (extract_udp_data_accepts_exactly inet_ntop_model
                  inet_pton_model inet_model_contract example_datagram
                  example_datagram_bytes)).
Defined.

Lemma udp_frame_deframe_witness :
  well_formed (IPv4 [8; 8; 8; 8] 53) /\
  (forall name port,
     IPv4 [8; 8; 8; 8] 53 = DomainName name port -> ~ In 0 name) /\
  exists hdr,
    udp_reply_header inet_pton_model
      (stored_addrport inet_ntop_model (IPv4 [8; 8; 8; 8] 53)) = HeaderOk hdr /\
    extract_udp_data inet_ntop_model (hdr ++ [1; 2; 3]) =
      Ok (blen hdr, stored_addrport inet_ntop_model (IPv4 [8; 8; 8; 8] 53)) /\
    sub (hdr ++ [1; 2; 3]) (blen hdr) (blen (hdr ++ [1; 2; 3]) - blen hdr) =
      [1; 2; 3].
Proof.
  assert (W : well_formed (IPv4 [8; 8; 8; 8] 53)).
  { simpl. split; [reflexivity|]. split.
    - repeat constructor; unfold is_byte; lia.
    - unfold well_formed_port; lia. }
  assert (D : forall name port,
            IPv4 [8; 8; 8; 8] 53 = DomainName name port -> ~ In 0 name)
    by (intros name port H; discriminate H).
  split; [exact W|]. split; [exact D|].
  exact (udp_frame_deframe inet_ntop_model inet_pton_model
           inet_model_contract (IPv4 [8; 8; 8; 8] 53) [1; 2; 3] W D).
Defined.

(** ** The flow table of the UDP relay *)

Lemma flow_sockets_app (a b : list io_event) :
  flow_sockets (a ++ b) = flow_sockets a ++ flow_sockets b.
Proof. apply flat_map_app. Qed.

Lemma closed_fds_app (a b : list io_event) :
  closed_fds (a ++ b) = closed_fds a ++ closed_fds b.
Proof. apply flat_map_app. Qed.

Lemma flow_sockets_closes (l : list Z) : flow_sockets (map IoClose l) = [].
Proof. induction l as [|x l IH]; [reflexivity | exact IH]. Qed.

Lemma closed_fds_closes (l : list Z) : closed_fds (map IoClose l) = l.
Proof. induction l as [|x l IH]; simpl; [reflexivity | now rewrite IH]. Qed.

Lemma udp_loop_end_closes (kq : Z) (st : udp_state) :
  udp_loop_end kq st = map IoClose (map fs_fd (us_sock_list st) ++ [kq]).
Proof. unfold udp_loop_end. now rewrite map_app, map_map. Qed.

Lemma sblist_search_miss {A : Type} (l : list A) (key : A)
    (cmp : A -> A -> Z) :
  sblist_search l key cmp = -1 ->
  forallb (fun x => negb (cmp x key =? 0)) l = true.
Proof.
  induction l as [|x rest IH]; simpl; [reflexivity|].
  destruct (Z.eqb_spec (cmp x key) 0); [discriminate|].
  destruct (Z.eqb_spec (sblist_search rest key cmp) (-1)) as [E|N].
  - intros _. now rewrite IH.
  - destruct (sblist_search_found rest key cmp) as [|[Hpos _]];
      [contradiction|lia].
Qed.

Lemma flows_distinct_app (l : list fd_socks5addr) (x : fd_socks5addr) :
  flows_distinct (l ++ [x]) =
  flows_distinct l
  && forallb (fun a => negb (compare_fd_socks5addr_by_addrport a x =? 0)) l.
Proof.
  induction l as [|a l IH]; [reflexivity|].
  cbn [flows_distinct app forallb]. rewrite IH, forallb_app.
  cbn [forallb].
  destruct (forallb _ l), (flows_distinct l), (forallb _ l),
    (negb (compare_fd_socks5addr_by_addrport a x =? 0)); reflexivity.
Qed.

Lemma udp_step_ok_refl (st : udp_state) : udp_step_ok st st [].
Proof.
  unfold udp_step_ok. rewrite app_nil_r. repeat split; auto.
Qed.

Lemma udp_step_ok_trans (st1 st2 st3 : udp_state) (tr1 tr2 : list io_event) :
  udp_step_ok st1 st2 tr1 -> udp_step_ok st2 st3 tr2 ->
  udp_step_ok st1 st3 (tr1 ++ tr2).
Proof.
  intros (F1 & C1 & D1) (F2 & C2 & D2). unfold udp_step_ok.
  rewrite flow_sockets_app, closed_fds_app, F2, F1, C1, C2, app_assoc.
  repeat split; auto.
Qed.

(** A step that leaves the flow table alone and neither adds a socket to
    the kqueue nor closes one. *)
Lemma udp_step_ok_same (st st' : udp_state) (tr : list io_event) :
  us_sock_list st' = us_sock_list st -> flow_sockets tr = [] ->
  closed_fds tr = [] -> udp_step_ok st st' tr.
Proof.
  intros E F C. unfold udp_step_ok. rewrite E, F, C, app_nil_r.
  repeat split; auto.
Qed.

Section UdpInvariant.

Variable inet_ntop : address_family -> list Z -> option (list Z).
Variable inet_pton : address_family -> list Z -> option (list Z).
Variable resolve_tcp : list Z -> Z -> option sockaddr_union.
Variable resolve_udp : list Z -> Z -> option sockaddr_union.
Variable kq tcp_fd udp_fd : Z.

Lemma udp_tcp_branch_quiet (e : udp_event) :
  flow_sockets (snd (udp_tcp_branch e)) = [] /\
  closed_fds (snd (udp_tcp_branch e)) = [].
Proof.
  unfold udp_tcp_branch.
  destruct (recv_n (ue_recv e) =? 0); [split; reflexivity|].
  destruct (recv_n (ue_recv e) =? -1); split; reflexivity.
Qed.

Lemma udp_client_branch_ok (st : udp_state) (e : udp_event) :
  let '(f, st', tr) :=
    udp_client_branch inet_ntop resolve_tcp resolve_udp kq tcp_fd udp_fd st e
  in udp_step_ok st st' tr.
Proof.
  unfold udp_client_branch.
  destruct (recv_n (ue_recv e) =? -1);
    [apply udp_step_ok_same; reflexivity|].
  assert (Pin : forall tail,
            flow_sockets tail = [] -> closed_fds tail = [] ->
            flow_sockets
              (IoRead udp_fd (ue_recv e)
               :: (if us_bound st then []
                   else [IoConnect udp_fd (ue_from e) (ue_pin_rc e)])
               ++ tail) = [] /\
            closed_fds
              (IoRead udp_fd (ue_recv e)
               :: (if us_bound st then []
                   else [IoConnect udp_fd (ue_from e) (ue_pin_rc e)])
               ++ tail) = []).
  { intros tail F C. destruct (us_bound st); simpl; auto. }
  assert (Pin0 :
            flow_sockets
              (IoRead udp_fd (ue_recv e)
               :: (if us_bound st then []
                   else [IoConnect udp_fd (ue_from e) (ue_pin_rc e)]))
            = [] /\
            closed_fds
              (IoRead udp_fd (ue_recv e)
               :: (if us_bound st then []
                   else [IoConnect udp_fd (ue_from e) (ue_pin_rc e)]))
            = []).
  { destruct (us_bound st); simpl; auto. }
  destruct (negb (us_bound st) && negb (ue_pin_rc e =? 0));
    [apply udp_step_ok_same; [reflexivity | apply Pin0 | apply Pin0]|].
  destruct (extract_udp_data inet_ntop (recv_buf (ue_recv e)))
    as [[offset addrport]|];
    [|apply udp_step_ok_same; [reflexivity | apply Pin0 | apply Pin0]].
  cbn [us_item us_sock_list fs_fd].
  destruct (Z.eqb_spec
              (sblist_search (us_sock_list st)
                 (mk_fd_addr (fs_fd (us_item st)) addrport)
                 compare_fd_socks5addr_by_addrport) (-1)) as [Hmiss|_];
    cbn [negb].
  2:{ destruct (sblist_item_from_index _ _);
        [|apply udp_step_ok_same; [reflexivity | apply Pin0 | apply Pin0]].
      apply udp_step_ok_same; [reflexivity | apply Pin | apply Pin];
        reflexivity. }
  destruct (resolveSocks5Addrport resolve_tcp resolve_udp addrport UDP_SOCKET)
    as [target|];
    [|apply udp_step_ok_same; [reflexivity | apply Pin | apply Pin];
      reflexivity].
  destruct (ue_connect_rc e =? -1);
    [apply udp_step_ok_same; [reflexivity | apply Pin | apply Pin];
     reflexivity|].
  assert (Add : forall tail,
            flow_sockets tail = [] -> closed_fds tail = [] ->
            udp_step_ok st
              (mk_udp_state true (mk_fd_addr (ue_socket e) addrport)
                 (sblist_add (us_sock_list st)
                    (mk_fd_addr (ue_socket e) addrport)))
              (IoRead udp_fd (ue_recv e)
               :: (if us_bound st then []
                   else [IoConnect udp_fd (ue_from e) (ue_pin_rc e)])
               ++ [IoResolve (c_str (ap_addr addrport)) (ap_port addrport);
                   IoSocket (ue_socket e);
                   IoConnect (ue_socket e) target (ue_connect_rc e);
                   IoKqAdd kq [ue_socket e] (ue_kevent_rc e)] ++ tail)).
  { intros tail F C. unfold udp_step_ok, sblist_add.
    cbn [us_sock_list]. rewrite map_app. cbn [map fs_fd].
    split; [|split].
    - f_equal. destruct (us_bound st); simpl; now rewrite F.
    - destruct (us_bound st); simpl; exact C.
    - intros Hd. rewrite flows_distinct_app, Hd. cbn [andb].
      apply (sblist_search_miss _ _ _ Hmiss). }
  destruct (ue_kevent_rc e =? -1).
  - apply (Add []); reflexivity.
  - apply (Add [IoWrite (ue_socket e)
                  (sub (recv_buf (ue_recv e)) offset
                     (recv_n (ue_recv e) - offset)) (ue_send_rc e)]);
      reflexivity.
Qed.

Lemma udp_target_branch_ok (st : udp_state) (e : udp_event) :
  let '(f, st', tr) := udp_target_branch inet_pton udp_fd st e in
  udp_step_ok st st' tr.
Proof.
  unfold udp_target_branch. cbn [us_sock_list].
  destruct (sblist_search _ _ _ =? -1);
    [apply udp_step_ok_same; reflexivity|].
  destruct (sblist_item_from_index _ _);
    [|apply udp_step_ok_same; reflexivity].
  destruct (udp_reply_header inet_pton _);
    try (apply udp_step_ok_same; reflexivity).
  destruct (recv_n (ue_recv e) <=? 0); apply udp_step_ok_same; reflexivity.
Qed.

Lemma copy_loop_udp_event_ok (st : udp_state) (e : udp_event) :
  let '(f, st', tr) :=
    copy_loop_udp_event inet_ntop inet_pton resolve_tcp resolve_udp
      kq tcp_fd udp_fd st e
  in udp_step_ok st st' tr.
Proof.
  unfold copy_loop_udp_event.
  assert (T : exists f1 tr1,
            (if ue_ident e =? tcp_fd then udp_tcp_branch e else (Next, []))
            = (f1, tr1) /\ udp_step_ok st st tr1).
  { destruct (ue_ident e =? tcp_fd).
    - destruct (udp_tcp_branch_quiet e) as [F C].
      destruct (udp_tcp_branch e) as [f1 tr1]. exists f1, tr1.
      split; [reflexivity|]. now apply udp_step_ok_same.
    - exists Next, []. split; [reflexivity | apply udp_step_ok_refl]. }
  destruct T as (f1 & tr1 & -> & T1).
  destruct f1; try exact T1.
  assert (C : exists f2 st2 tr2,
            (if ue_ident e =? udp_fd
             then udp_client_branch inet_ntop resolve_tcp resolve_udp
                    kq tcp_fd udp_fd st e
             else (Next, st, [])) = (f2, st2, tr2)
            /\ udp_step_ok st st2 tr2).
  { destruct (ue_ident e =? udp_fd).
    - pose proof (udp_client_branch_ok st e) as H.
      destruct (udp_client_branch _ _ _ _ _ _ _ _) as [[f2 st2] tr2].
      exists f2, st2, tr2. now split.
    - exists Next, st, []. split; [reflexivity | apply udp_step_ok_refl]. }
  destruct C as (f2 & st2 & tr2 & -> & C2).
  pose proof (udp_step_ok_trans _ _ _ _ _ T1 C2) as TC.
  destruct f2; try exact TC.
  assert (G : exists f3 st3 tr3,
            (if negb (ue_ident e =? tcp_fd) && negb (ue_ident e =? udp_fd)
             then udp_target_branch inet_pton udp_fd st2 e
             else (Next, st2, [])) = (f3, st3, tr3)
            /\ udp_step_ok st2 st3 tr3).
  { destruct (negb (ue_ident e =? tcp_fd) && negb (ue_ident e =? udp_fd)).
    - pose proof (udp_target_branch_ok st2 e) as H.
      destruct (udp_target_branch _ _ _ _) as [[f3 st3] tr3].
      exists f3, st3, tr3. now split.
    - exists Next, st2, []. split; [reflexivity | apply udp_step_ok_refl]. }
  destruct G as (f3 & st3 & tr3 & -> & G3).
  pose proof (udp_step_ok_trans _ _ _ _ _ C2 G3) as CG.
  exact (udp_step_ok_trans _ _ _ _ _ T1 CG).
Qed.

Lemma copy_loop_udp_events_ok (events : list udp_event) (st : udp_state) :
  let '(f, st', tr) :=
    copy_loop_udp_events inet_ntop inet_pton resolve_tcp resolve_udp
      kq tcp_fd udp_fd st events
  in udp_step_ok st st' tr.
Proof.
  revert st; induction events as [|e rest IH]; intros st;
    [apply udp_step_ok_refl|].
  cbn [copy_loop_udp_events].
  pose proof (copy_loop_udp_event_ok st e) as H.
  destruct (copy_loop_udp_event _ _ _ _ _ _ _ _ _) as [[f st1] tr1].
  specialize (IH st1).
  destruct (copy_loop_udp_events _ _ _ _ _ _ _ _ _) as [[f' st2] tr2].
  destruct f; try exact H; exact (udp_step_ok_trans _ _ _ _ _ H IH).
Qed.

(** What a run of the [while] loop keeps: as one step, and when the loop
    returns its trace ends with [UDP_LOOP_END], before which nothing is
    closed. *)
Lemma copy_loop_udp_loop_ok (batches : list (kevent_result udp_event))
    (st : udp_state) :
  let '(ex, st', tr) :=
    copy_loop_udp_loop inet_ntop inet_pton resolve_tcp resolve_udp
      kq tcp_fd udp_fd st batches
  in match ex with
     | UdpReturned =>
         exists body,
           tr = body ++ udp_loop_end kq st' /\ udp_step_ok st st' body
     | _ => udp_step_ok st st' tr
     end.
Proof.
  revert st; induction batches as [|[err|events] rest IH]; intros st;
    cbn [copy_loop_udp_loop].
  - apply udp_step_ok_refl.
  - destruct (is_retry err); [apply IH|].
    exists []. split; [reflexivity | apply udp_step_ok_refl].
  - pose proof (copy_loop_udp_events_ok events st) as H.
    destruct (copy_loop_udp_events _ _ _ _ _ _ _ _ _) as [[f st1] tr1].
    specialize (IH st1).
    destruct (copy_loop_udp_loop _ _ _ _ _ _ _ _ _) as [[ex st2] tr2].
    destruct f;
      try (exists tr1; split; [reflexivity | exact H]); try exact H;
      (destruct ex;
       [destruct IH as (body & -> & Hb); exists (tr1 ++ body);
        split; [now rewrite app_assoc
               | exact (udp_step_ok_trans _ _ _ _ _ H Hb)]
       | exact (udp_step_ok_trans _ _ _ _ _ H IH)
       | exact (udp_step_ok_trans _ _ _ _ _ H IH)]).
Qed.

End UdpInvariant.

(** [compareSocks5Addrport] is 0 when the types, the ports and the names
    up to their first NUL agree. *)
Lemma compareSocks5Addrport_zero (a b : socks5_addrport) :
  compareSocks5Addrport a b = 0 <->
  ap_type a = ap_type b /\ c_str (ap_addr a) = c_str (ap_addr b) /\
  ap_port a = ap_port b.
Proof.
  unfold compareSocks5Addrport.
  destruct (Z.eqb_spec (ap_type a) (ap_type b)) as [Et|Nt]; cbn [andb].
  2:{ split; [discriminate | intros (E & _); contradiction]. }
  destruct (Z.eqb_spec (strcmp (ap_addr a) (ap_addr b)) 0) as [Es|Ns];
    cbn [andb].
  2:{ split; [discriminate|]. intros (_ & E & _).
      apply strcmp_zero in E. contradiction. }
  apply strcmp_zero in Es.
  destruct (Z.eqb_spec (ap_port a) (ap_port b)) as [Ep|Np].
  - split; auto.
  - split; [discriminate | intros (_ & _ & E); contradiction].
Qed.

(** [compareSocks5Addrport] returns 0 or -1 and nothing else; it returns 0
    exactly when the two addresses have the same type, the same port and
    the same name as C strings (up to the first NUL of each array); so
    that "compares equal" is an equivalence relation on stored
    addresses. *)
Theorem compareSocks5Addrport_equivalence :
  (forall a b,
     compareSocks5Addrport a b = 0 \/ compareSocks5Addrport a b = -1) /\
  (forall a b,
     compareSocks5Addrport a b = 0 <->
     ap_type a = ap_type b /\ c_str (ap_addr a) = c_str (ap_addr b) /\
     ap_port a = ap_port b) /\
  (forall a, compareSocks5Addrport a a = 0) /\
  (forall a b,
     compareSocks5Addrport a b = 0 -> compareSocks5Addrport b a = 0) /\
  (forall a b c,
     compareSocks5Addrport a b = 0 -> compareSocks5Addrport b c = 0 ->
     compareSocks5Addrport a c = 0).
Proof.
  split; [|split; [|split; [|split]]].
  - intros a b. unfold compareSocks5Addrport.
    destruct (_ && _ && _); auto.
  - exact compareSocks5Addrport_zero.
  - intros a. apply compareSocks5Addrport_zero. auto.
  - intros a b H. apply compareSocks5Addrport_zero in H.
    apply compareSocks5Addrport_zero. intuition congruence.
  - intros a b c H1 H2. apply compareSocks5Addrport_zero in H1, H2.
    apply compareSocks5Addrport_zero. intuition congruence.
Qed.

Lemma compareSocks5Addrport_equivalence_witness :
  compareSocks5Addrport example_dns_server
    (mk_addrport SOCKS5_IPV4 ([56; 46; 56; 46; 56; 46; 56; 0; 7]) 53) = 0 /\
  compareSocks5Addrport
    (mk_addrport SOCKS5_IPV4 ([56; 46; 56; 46; 56; 46; 56; 0; 7]) 53)
    example_dns_server = 0.
Proof.
  assert (H : compareSocks5Addrport example_dns_server
                (mk_addrport SOCKS5_IPV4 ([56; 46; 56; 46; 56; 46; 56; 0; 7])
                   53) = 0) by (vm_compute; reflexivity).
  split; [exact H|].
  exact (proj1 (proj2 (proj2 (proj2 compareSocks5Addrport_equivalence)))
           _ _ H).
Defined.


Section UdpAssociate.

Variable inet_ntop : address_family -> list Z -> option (list Z).
Variable inet_pton : address_family -> list Z -> option (list Z).
Variable resolve_tcp : list Z -> Z -> option sockaddr_union.
Variable resolve_udp : list Z -> Z -> option sockaddr_union.

Local Abbreviation udp_associate :=
  (copy_loop_udp inet_ntop inet_pton resolve_tcp resolve_udp).

(** A whole run of [copy_loop_udp] is a body that keeps [udp_step_ok]
    from the empty flow table, followed by [UDP_LOOP_END] when the function
    returns with a kqueue. *)
Lemma copy_loop_udp_ok (sys : udp_sys) (tcp_fd udp_fd : Z) :
  let '(ex, st, tr) := udp_associate sys tcp_fd udp_fd in
  exists body,
    map fs_fd (us_sock_list st) = flow_sockets body /\
    closed_fds body = [] /\
    flows_distinct (us_sock_list st) = true /\
    tr = body ++ match ex with
                 | UdpReturned =>
                     if ud_kq sys =? -1 then []
                     else udp_loop_end (ud_kq sys) st
                 | _ => []
                 end.
Proof.
  unfold copy_loop_udp.
  destruct (Z.eqb_spec (ud_kq sys) (-1)) as [Ekq|Nkq].
  { exists [IoKqueue (ud_kq sys)]. repeat split; reflexivity. }
  destruct (ud_register_rc sys =? -1).
  { exists [IoKqueue (ud_kq sys);
            IoKqAdd (ud_kq sys) [tcp_fd; udp_fd] (ud_register_rc sys)].
    repeat split; reflexivity. }
  assert (Run : forall bound,
            let '(ex, st, tr) :=
              (let '(ex, st, tr) :=
                 copy_loop_udp_loop inet_ntop inet_pton resolve_tcp
                   resolve_udp (ud_kq sys) tcp_fd udp_fd
                   (mk_udp_state bound (ud_item sys) []) (ud_batches sys) in
               (ex, st,
                IoKqueue (ud_kq sys)
                :: IoKqAdd (ud_kq sys) [tcp_fd; udp_fd] (ud_register_rc sys)
                :: tr)) in
            exists body,
              map fs_fd (us_sock_list st) = flow_sockets body /\
              closed_fds body = [] /\
              flows_distinct (us_sock_list st) = true /\
              tr = body ++ match ex with
                           | UdpReturned => udp_loop_end (ud_kq sys) st
                           | _ => []
                           end).
  { intros bound.
    pose proof (copy_loop_udp_loop_ok inet_ntop inet_pton resolve_tcp
                  resolve_udp (ud_kq sys) tcp_fd udp_fd (ud_batches sys)
                  (mk_udp_state bound (ud_item sys) [])) as H.
    destruct (copy_loop_udp_loop _ _ _ _ _ _ _ _ _) as [[ex st] tr].
    assert (Body : forall body,
              udp_step_ok (mk_udp_state bound (ud_item sys) []) st body ->
              map fs_fd (us_sock_list st) =
                flow_sockets
                  (IoKqueue (ud_kq sys)
                   :: IoKqAdd (ud_kq sys) [tcp_fd; udp_fd]
                        (ud_register_rc sys) :: body) /\
              closed_fds
                (IoKqueue (ud_kq sys)
                 :: IoKqAdd (ud_kq sys) [tcp_fd; udp_fd]
                      (ud_register_rc sys) :: body) = [] /\
              flows_distinct (us_sock_list st) = true).
    { intros body (F & C & D). cbn [us_sock_list map app] in F, D.
      split; [exact F|]. split; [exact C | now apply D]. }
    destruct ex.
    - destruct H as (body & -> & Hb). destruct (Body body Hb) as (F & C & D).
      eexists. split; [exact F|]. split; [exact C|]. split; [exact D|].
      reflexivity.
    - destruct (Body tr H) as (F & C & D).
      eexists. split; [exact F|]. split; [exact C|]. split; [exact D|].
      cbn [app]. now rewrite app_nil_r.
    - destruct (Body tr H) as (F & C & D).
      eexists. split; [exact F|]. split; [exact C|]. split; [exact D|].
      cbn [app]. now rewrite app_nil_r. }
  destruct (ud_getpeername sys) as [err|]; [|exact (Run true)].
  destruct err; try exact (Run false);
    (exists [IoKqueue (ud_kq sys);
             IoKqAdd (ud_kq sys) [tcp_fd; udp_fd] (ud_register_rc sys)];
     repeat split; reflexivity).
Qed.


(** What [copy_loop_udp] closes: when it returns (with a kqueue), its
    trace is a body in which nothing is closed, followed by the close of
    every socket that the body added to the kqueue one at a time -- the
    flow sockets, in the order of their creation -- and last the close of
    the kqueue; the control socket and [udp_fd] are not closed here.
    When it does not return (it blocks in [kevent] or calls [abort]),
    nothing is closed. *)
Theorem copy_loop_udp_closes_flows (sys : udp_sys) (tcp_fd udp_fd : Z) :
  ud_kq sys <> -1 ->
  let '(ex, st, tr) := udp_associate sys tcp_fd udp_fd in
  match ex with
  | UdpReturned =>
      exists body,
        tr = body ++ map IoClose (flow_sockets body ++ [ud_kq sys]) /\
        closed_fds body = [] /\
        closed_fds tr = flow_sockets tr ++ [ud_kq sys]
  | _ => closed_fds tr = []
  end.
Proof.
  intros Hkq.
  pose proof (copy_loop_udp_ok sys tcp_fd udp_fd) as H.
  destruct (udp_associate sys tcp_fd udp_fd) as [[ex st] tr].
  destruct H as (body & F & C & D & ->).
  destruct ex; rewrite ?app_nil_r; try exact C.
  destruct (Z.eqb_spec (ud_kq sys) (-1)); [contradiction|].
  rewrite udp_loop_end_closes, F. exists body.
  split; [reflexivity|]. split; [exact C|].
  rewrite closed_fds_app, flow_sockets_app, closed_fds_closes,
    flow_sockets_closes, C, app_nil_r. reflexivity.
Qed.

End UdpAssociate.


Lemma copy_loop_udp_closes_flows_witness :
  ud_kq example_udp_sys <> -1 /\
  closed_fds
    (snd (copy_loop_udp inet_ntop_model inet_pton_model resolve_model
            resolve_model example_udp_sys 5 7)) = [12; 9].
Proof.
  assert (H1 : ud_kq example_udp_sys <> -1) by (simpl; lia).
  split; [exact H1|].
  pose proof (copy_loop_udp_closes_flows inet_ntop_model inet_pton_model
                resolve_model resolve_model example_udp_sys 5 7 H1) as H.
  destruct (copy_loop_udp inet_ntop_model inet_pton_model resolve_model
              resolve_model example_udp_sys 5 7) as [[ex st] tr] eqn:E.
  assert (E' : copy_loop_udp inet_ntop_model inet_pton_model resolve_model
                 resolve_model example_udp_sys 5 7 =
               (UdpReturned,
                mk_udp_state true (mk_fd_addr 12 example_dns_server)
                  [mk_fd_addr 12 example_dns_server],
                [IoKqueue 9; IoKqAdd 9 [5; 7] 0;
                 IoRead 7 (Some example_datagram);
                 IoResolve [56; 46; 56; 46; 56; 46; 56] 53; IoSocket 12;
                 IoConnect 12 (mk_sockaddr AF_INET 53 [8; 8; 8; 8]) 0;
                 IoKqAdd 9 [12] 0; IoWrite 12 [1; 2; 3] 3;
                 IoClose 12; IoClose 9])) by (vm_compute; reflexivity).
  rewrite E in E'. injection E' as -> _ ->.
  destruct H as (body & _ & _ & Hc). exact Hc.
Defined.

(** ** Events of the UDP relay *)

Lemma sblist_search_app_miss {A : Type} (l : list A) (x key : A)
    (cmp : A -> A -> Z) :
  sblist_search l key cmp = -1 ->
  sblist_search (l ++ [x]) key cmp =
    if cmp x key =? 0 then Z.of_nat (length l) else -1.
Proof.
  induction l as [|a l IH]; cbn [sblist_search app length].
  - intros _. destruct (cmp x key =? 0); reflexivity.
  - destruct (Z.eqb_spec (cmp a key) 0); [discriminate|].
    destruct (Z.eqb_spec (sblist_search l key cmp) (-1)) as [E|N].
    + intros _. rewrite (IH E). destruct (cmp x key =? 0); [|reflexivity].
      destruct (Z.eqb_spec (Z.of_nat (length l)) (-1)); lia.
    + destruct (sblist_search_found l key cmp) as [|[Hpos _]];
        [contradiction|lia].
Qed.

Lemma sblist_item_last {A : Type} (l : list A) (x : A) :
  sblist_item_from_index (l ++ [x]) (Z.of_nat (length l)) = Some x.
Proof.
  unfold sblist_item_from_index. rewrite Nat2Z.id, nth_error_app2 by lia.
  now rewrite Nat.sub_diag.
Qed.

(** The entry that a search by descriptor finds has that descriptor. *)
Lemma sblist_search_by_fd (l : list fd_socks5addr) (key : fd_socks5addr) :
  sblist_search l key compare_fd_socks5addr_by_fd <> -1 ->
  exists found,
    sblist_item_from_index l
      (sblist_search l key compare_fd_socks5addr_by_fd) = Some found /\
    fs_fd found = fs_fd key.
Proof.
  intros Hhit.
  destruct (sblist_search_found l key compare_fd_socks5addr_by_fd)
    as [|(_ & found & Hf & Hc)]; [contradiction|].
  exists found. split; [exact Hf|].
  unfold compare_fd_socks5addr_by_fd in Hc.
  destruct (Z.eqb_spec (fs_fd found) (fs_fd key)); [assumption|discriminate].
Qed.

Section UdpEvents.

Variable inet_ntop : address_family -> list Z -> option (list Z).
Variable inet_pton : address_family -> list Z -> option (list Z).
Variable resolve_tcp : list Z -> Z -> option sockaddr_union.
Variable resolve_udp : list Z -> Z -> option sockaddr_union.

Variable kq tcp_fd udp_fd : Z.
Hypothesis distinct : udp_fd <> tcp_fd.

Local Abbreviation event_step :=
  (copy_loop_udp_event inet_ntop inet_pton resolve_tcp resolve_udp
     kq tcp_fd udp_fd).
Local Abbreviation events_step :=
  (copy_loop_udp_events inet_ntop inet_pton resolve_tcp resolve_udp
     kq tcp_fd udp_fd).
Local Abbreviation loop_step :=
  (copy_loop_udp_loop inet_ntop inet_pton resolve_tcp resolve_udp
     kq tcp_fd udp_fd).

(** An event on the control socket runs the first [if] only. *)
Lemma udp_event_control (st : udp_state) (e : udp_event) :
  ue_ident e = tcp_fd ->
  event_step st e = (fst (udp_tcp_branch e), st, snd (udp_tcp_branch e)).
Proof.
  intros Hid. unfold copy_loop_udp_event. rewrite Hid, Z.eqb_refl.
  destruct (Z.eqb_spec tcp_fd udp_fd) as [E|_]; [now symmetry in E|].
  cbn [negb andb]. destruct (udp_tcp_branch e) as [f tr].
  destruct f; cbn [fst snd app]; rewrite ?app_nil_r; reflexivity.
Qed.

(** The control connection during an associate: what the client sends on
    it is read and dropped -- the events that follow are handled as if it
    had not been there, and nothing is sent anywhere --, and so is a read
    that fails with [EINTR] or [EAGAIN]; its end of stream, or any other
    failure of the read, ends the associate: the rest of the events is
    not looked at, every flow socket is closed, then the kqueue. *)
Theorem udp_control_connection (st : udp_state) (e : udp_event)
    (events : list udp_event) (batches : list (kevent_result udp_event)) :
  ue_ident e = tcp_fd ->
  ((recv_n (ue_recv e) > 0 \/
    (ue_recv e = None /\ is_retry (ue_errno e) = true)) ->
   events_step st (e :: events) =
     (let '(f, st', tr) := events_step st events in
      (f, st', IoRead tcp_fd (ue_recv e) :: tr)))
  /\ ((ue_recv e = Some [] \/
       (ue_recv e = None /\ is_retry (ue_errno e) = false)) ->
      loop_step st (KevReady (e :: events) :: batches) =
        (UdpReturned, st, IoRead tcp_fd (ue_recv e) :: close_all kq st)).
Proof.
  intros Hid. cbn [copy_loop_udp_loop copy_loop_udp_events].
  rewrite (udp_event_control st e Hid). unfold udp_tcp_branch. rewrite Hid.
  split.
  - intros [Hn | [Hr Hretry]].
    + destruct (Z.eqb_spec (recv_n (ue_recv e)) 0); [lia|].
      destruct (Z.eqb_spec (recv_n (ue_recv e)) (-1)); [lia|].
      cbn [fst snd]. destruct (events_step st events) as [[f st'] tr].
      reflexivity.
    + rewrite Hr, Hretry. cbn [recv_n Z.eqb fst snd].
      destruct (events_step st events) as [[f st'] tr]. reflexivity.
  - intros [Hr | [Hr Hretry]].
    + rewrite Hr. reflexivity.
    + rewrite Hr, Hretry. reflexivity.
Qed.

(** A datagram from a target: the flow table is searched for the socket
    the event is on; when the socket is not in it the associate ends
    without a read; when it is, the entry found has that socket, and for an
    entry whose address is the stored form of a well-formed [x] (a name
    without NUL) a datagram of at least one byte is read and written to
    [udp_fd] as [00 00 00], the wire form of [x] and the data read, in one
    write; the flow table is not changed. *)
Theorem udp_target_reply (st : udp_state) (e : udp_event) :
  inet_contract inet_ntop inet_pton ->
  ue_ident e <> tcp_fd -> ue_ident e <> udp_fd ->
  let key := mk_fd_addr (ue_ident e) (fs_addrport (us_item st)) in
  let lookup :=
    sblist_search (us_sock_list st) key compare_fd_socks5addr_by_fd in
  (lookup = -1 ->
   event_step st e =
     (LoopEnd, mk_udp_state (us_bound st) key (us_sock_list st), []))
  /\ (lookup <> -1 ->
      exists found,
        sblist_item_from_index (us_sock_list st) lookup = Some found /\
        fs_fd found = ue_ident e /\
        forall x data,
          fs_addrport found = stored_addrport inet_ntop x ->
          well_formed x ->
          (forall name port, x = DomainName name port -> ~ In 0 name) ->
          ue_recv e = Some data -> data <> [] ->
          event_step st e =
            (send_flow e, mk_udp_state (us_bound st) key (us_sock_list st),
             [IoRead (ue_ident e) (Some data);
              IoWrite udp_fd
                ([RSV; RSV; 0] ++ spec_encode_address x ++ data)
                (ue_send_rc e)])).
Proof.
  intros libc Ht Hu key lookup.
  assert (Step : event_step st e = udp_target_branch inet_pton udp_fd st e).
  { unfold copy_loop_udp_event.
    destruct (Z.eqb_spec (ue_ident e) tcp_fd); [contradiction|].
    destruct (Z.eqb_spec (ue_ident e) udp_fd); [contradiction|].
    cbn [negb andb app].
    destruct (udp_target_branch inet_pton udp_fd st e) as [[f st'] tr].
    reflexivity. }
  rewrite Step. unfold udp_target_branch. cbn [us_sock_list].
  fold key. fold lookup. split.
  - intros ->. reflexivity.
  - intros Hhit.
    destruct (sblist_search_by_fd (us_sock_list st) key Hhit)
      as (found & Hf & Hfd).
    fold lookup in Hf. exists found. split; [exact Hf|].
    split; [exact Hfd|].
    intros x data Hx Hwf Hname Hr Hdata.
    destruct (Z.eqb_spec lookup (-1)); [contradiction|].
    rewrite Hf, Hx.
    unfold stored_addrport.
    rewrite (udp_reply_header_stored inet_ntop inet_pton libc x Hwf Hname).
    rewrite Hr. cbn [recv_n recv_buf].
    assert (Hlen : 0 < blen data).
    { destruct data; [contradiction|]. unfold blen. simpl length. lia. }
    destruct (Z.leb_spec (blen data) 0); [lia|].
    unfold send_flow. rewrite <- app_assoc. reflexivity.
Qed.

Section Reuse.

Variable st : udp_state.
Variable e1 e2 : udp_event.
Variable data1 data2 : list Z.
Variable offset1 offset2 : Z.
Variable D : socks5_addrport.
Variable target : sockaddr_union.

(** Two datagrams for one destination: when the first opens the flow (the
    destination is not in the table, it resolves, the socket is connected
    and added to the kqueue, and the payload is sent), the second, handled
    next, makes no lookup of the name and opens no socket: its payload is
    sent on the socket of the first, and the table has grown by one
    entry. *)
Theorem udp_flow_reused :
  ue_ident e1 = udp_fd -> ue_ident e2 = udp_fd ->
  ue_recv e1 = Some data1 -> ue_recv e2 = Some data2 ->
  (us_bound st = true \/ ue_pin_rc e1 = 0) ->
  extract_udp_data inet_ntop data1 = Ok (offset1, D) ->
  extract_udp_data inet_ntop data2 = Ok (offset2, D) ->
  sblist_search (us_sock_list st) (mk_fd_addr (fs_fd (us_item st)) D)
    compare_fd_socks5addr_by_addrport = -1 ->
  resolve_udp (c_str (ap_addr D)) (ap_port D) = Some target ->
  ue_connect_rc e1 <> -1 -> ue_kevent_rc e1 <> -1 -> 0 <= ue_send_rc e1 ->
  events_step st [e1; e2] =
    (send_flow e2,
     mk_udp_state true (mk_fd_addr (ue_socket e1) D)
       (us_sock_list st ++ [mk_fd_addr (ue_socket e1) D]),
     (IoRead udp_fd (Some data1) :: pin_events udp_fd st e1
      ++ [IoResolve (c_str (ap_addr D)) (ap_port D);
          IoSocket (ue_socket e1);
          IoConnect (ue_socket e1) target (ue_connect_rc e1);
          IoKqAdd kq [ue_socket e1] (ue_kevent_rc e1);
          IoWrite (ue_socket e1) (sub data1 offset1 (blen data1 - offset1))
            (ue_send_rc e1)])
     ++ [IoRead udp_fd (Some data2);
         IoWrite (ue_socket e1) (sub data2 offset2 (blen data2 - offset2))
           (ue_send_rc e2)]).
Proof.
  intros Hid1 Hid2 Hr1 Hr2 Hpin Hd1 Hd2 Hmiss Hres Hcon Hkev Hsend.
  cbn [copy_loop_udp_events].
  rewrite (udp_event_client inet_ntop inet_pton resolve_tcp resolve_udp
             kq tcp_fd udp_fd distinct st e1 Hid1).
  rewrite (client_branch_deframed inet_ntop resolve_tcp resolve_udp
             kq tcp_fd udp_fd st e1 data1 offset1 D Hr1 Hpin Hd1).
  cbv zeta. rewrite Hmiss, Hres.
  change (negb (-1 =? -1)) with false. cbv iota.
  destruct (Z.eqb_spec (ue_connect_rc e1) (-1)); [contradiction|].
  destruct (Z.eqb_spec (ue_kevent_rc e1) (-1)); [contradiction|].
  unfold send_flow at 1. destruct (Z.ltb_spec (ue_send_rc e1) 0); [lia|].
  set (st1 := mk_udp_state true (mk_fd_addr (ue_socket e1) D)
                (sblist_add (us_sock_list st) (mk_fd_addr (ue_socket e1) D))).
  rewrite (udp_event_client inet_ntop inet_pton resolve_tcp resolve_udp
             kq tcp_fd udp_fd distinct st1 e2 Hid2).
  rewrite (client_branch_deframed inet_ntop resolve_tcp resolve_udp
             kq tcp_fd udp_fd st1 e2 data2 offset2 D Hr2
             (or_introl eq_refl) Hd2).
  cbv zeta. subst st1. cbn [us_sock_list us_item fs_fd].
  unfold sblist_add.
  assert (Hself : compare_fd_socks5addr_by_addrport
                    (mk_fd_addr (ue_socket e1) D)
                    (mk_fd_addr (ue_socket e1) D) = 0).
  { unfold compare_fd_socks5addr_by_addrport. cbn [fs_addrport].
    apply compareSocks5Addrport_zero. auto. }
  assert (Hmiss' : sblist_search (us_sock_list st)
                     (mk_fd_addr (ue_socket e1) D)
                     compare_fd_socks5addr_by_addrport = -1).
  { clear - Hmiss. induction (us_sock_list st) as [|a l IH];
      [reflexivity|].
    cbn [sblist_search] in *.
    change (compare_fd_socks5addr_by_addrport a
              (mk_fd_addr (ue_socket e1) D))
      with (compare_fd_socks5addr_by_addrport a
              (mk_fd_addr (fs_fd (us_item st)) D)).
    destruct (_ =? 0); [discriminate|].
    destruct (Z.eqb_spec
                (sblist_search l (mk_fd_addr (fs_fd (us_item st)) D)
                   compare_fd_socks5addr_by_addrport) (-1)) as [E|N].
    - now rewrite (IH E).
    - destruct (sblist_search_found l (mk_fd_addr (fs_fd (us_item st)) D)
                  compare_fd_socks5addr_by_addrport) as [|[Hpos _]];
        [contradiction|lia]. }
  rewrite (sblist_search_app_miss _ _ _ _ Hmiss'), Hself.
  change (0 =? 0) with true. cbv iota.
  pose proof (Zle_0_nat (length (us_sock_list st))) as Hl.
  destruct (Z.eqb_spec (Z.of_nat (length (us_sock_list st))) (-1)); [lia|].
  cbn [negb]. rewrite sblist_item_last. cbn [fs_fd].
  unfold send_flow.
  destruct (ue_send_rc e2 <? 0); unfold pin_events; cbn [us_bound app];
    rewrite ?app_nil_r; reflexivity.
Qed.

End Reuse.

End UdpEvents.

Lemma udp_control_connection_witness :
  7 <> 5 /\
  ue_ident (example_control_event (Some [])) = 5 /\
  copy_loop_udp_loop inet_ntop_model inet_pton_model resolve_model
    resolve_model 9 5 7 example_flow_state
    [KevReady [example_control_event (Some []);
               example_udp_event example_datagram]] =
    (UdpReturned, example_flow_state,
     [IoRead 5 (Some []); IoClose 11; IoClose 9]).
Proof.
  assert (H1 : 7 <> 5) by lia.
  assert (H2 : ue_ident (example_control_event (Some [])) = 5)
    by reflexivity.
  split; [exact H1|]. split; [exact H2|].
  exact (proj2 (udp_control_connection inet_ntop_model inet_pton_model
                  resolve_model resolve_model 9 5 7 H1 example_flow_state
                  (example_control_event (Some []))
                  [example_udp_event example_datagram] [] H2)
           (or_introl eq_refl)).
Defined.

Lemma udp_target_reply_witness :
  ue_ident (example_target_event (Some [9; 9])) <> 5 /\
  ue_ident (example_target_event (Some [9; 9])) <> 7 /\
  copy_loop_udp_event inet_ntop_model inet_pton_model resolve_model
    resolve_model 9 5 7 example_flow_state
    (example_target_event (Some [9; 9])) =
    (Next, mk_udp_state true (mk_fd_addr 11 example_dns_server)
             [mk_fd_addr 11 example_dns_server],
     [IoRead 11 (Some [9; 9]);
      IoWrite 7 [0; 0; 0; 1; 8; 8; 8; 8; 0; 53; 9; 9] 3]).
Proof.
  assert (H1 : ue_ident (example_target_event (Some [9; 9])) <> 5)
    by (simpl; lia).
  assert (H2 : ue_ident (example_target_event (Some [9; 9])) <> 7)
    by (simpl; lia).
  assert (H3 : sblist_search (us_sock_list example_flow_state)
                 (mk_fd_addr (ue_ident (example_target_event (Some [9; 9])))
                    (fs_addrport (us_item example_flow_state)))
                 compare_fd_socks5addr_by_fd <> -1)
    by (vm_compute; discriminate).
  assert (W : well_formed (IPv4 [8; 8; 8; 8] 53)).
  { simpl. split; [reflexivity|]. split.
    - repeat constructor; unfold is_byte; lia.
    - unfold well_formed_port; lia. }
  assert (D : forall name port,
            IPv4 [8; 8; 8; 8] 53 = DomainName name port -> ~ In 0 name)
    by (intros name port H; discriminate H).
  split; [exact H1|]. split; [exact H2|].
  destruct (proj2 (udp_target_reply inet_ntop_model inet_pton_model
                     resolve_model resolve_model 9 5 7 example_flow_state
                     (example_target_event (Some [9; 9]))
                     inet_model_contract H1 H2) H3)
    as (found & Hf & _ & Hall).
  assert (Hfound : found = mk_fd_addr 11 example_dns_server)
    by (vm_compute in Hf; injection Hf as Hf; rewrite <- Hf; vm_compute;
        reflexivity).
  assert (Hstored : fs_addrport found =
                    stored_addrport inet_ntop_model (IPv4 [8; 8; 8; 8] 53))
    by (rewrite Hfound; vm_compute; reflexivity).
  assert (Hne : [9; 9] <> []) by discriminate.
  exact (Hall (IPv4 [8; 8; 8; 8] 53) [9; 9] Hstored W D eq_refl Hne).
Defined.

Lemma udp_flow_reused_witness :
  7 <> 5 /\
  ue_ident (example_udp_event example_datagram) = 7 /\
  ue_recv (example_udp_event example_datagram) = Some example_datagram /\
  (us_bound example_empty_state = true \/
   ue_pin_rc (example_udp_event example_datagram) = 0) /\
  extract_udp_data inet_ntop_model example_datagram =
    Ok (10, example_dns_server) /\
  sblist_search (us_sock_list example_empty_state)
    (mk_fd_addr (fs_fd (us_item example_empty_state)) example_dns_server)
    compare_fd_socks5addr_by_addrport = -1 /\
  resolve_model (c_str (ap_addr example_dns_server))
    (ap_port example_dns_server) = Some (mk_sockaddr AF_INET 53 [8; 8; 8; 8]) /\
  ue_connect_rc (example_udp_event example_datagram) <> -1 /\
  ue_kevent_rc (example_udp_event example_datagram) <> -1 /\
  0 <= ue_send_rc (example_udp_event example_datagram) /\
  copy_loop_udp_events inet_ntop_model inet_pton_model resolve_model
    resolve_model 9 5 7 example_empty_state
    [example_udp_event example_datagram; example_udp_event example_datagram] =
    (Next,
     mk_udp_state true (mk_fd_addr 12 example_dns_server)
       [mk_fd_addr 12 example_dns_server],
     [IoRead 7 (Some example_datagram);
      IoResolve [56; 46; 56; 46; 56; 46; 56] 53; IoSocket 12;
      IoConnect 12 (mk_sockaddr AF_INET 53 [8; 8; 8; 8]) 0;
      IoKqAdd 9 [12] 0; IoWrite 12 [1; 2; 3] 3;
      IoRead 7 (Some example_datagram); IoWrite 12 [1; 2; 3] 3]).
Proof.
  assert (H1 : 7 <> 5) by lia.
  assert (H2 : ue_ident (example_udp_event example_datagram) = 7)
    by reflexivity.
  assert (H3 : ue_recv (example_udp_event example_datagram)
               = Some example_datagram) by reflexivity.
  assert (H4 : us_bound example_empty_state = true \/
               ue_pin_rc (example_udp_event example_datagram) = 0)
    by (left; reflexivity).
  assert (H5 : extract_udp_data inet_ntop_model example_datagram =
               Ok (10, example_dns_server)) by (vm_compute; reflexivity).
  assert (H6 : sblist_search (us_sock_list example_empty_state)
                 (mk_fd_addr (fs_fd (us_item example_empty_state))
                    example_dns_server)
                 compare_fd_socks5addr_by_addrport = -1) by reflexivity.
  assert (H7 : resolve_model (c_str (ap_addr example_dns_server))
                 (ap_port example_dns_server) =
               Some (mk_sockaddr AF_INET 53 [8; 8; 8; 8]))
    by (vm_compute; reflexivity).
  assert (H8 : ue_connect_rc (example_udp_event example_datagram) <> -1)
    by (simpl; lia).
  assert (H9 : ue_kevent_rc (example_udp_event example_datagram) <> -1)
    by (simpl; lia).
  assert (H10 : 0 <= ue_send_rc (example_udp_event example_datagram))
    by (simpl; lia).
  repeat (split; [assumption|]).
  exact (udp_flow_reused inet_ntop_model inet_pton_model resolve_model
           resolve_model 9 5 7 H1 example_empty_state
           (example_udp_event example_datagram)
           (example_udp_event example_datagram)
           example_datagram example_datagram 10 10 example_dns_server
           (mk_sockaddr AF_INET 53 [8; 8; 8; 8])
           H2 H2 H3 H3 H4 H5 H5 H6 H7 H8 H9 H10).
Defined.

(** ** Sessions *)

(** The three results of [check_auth_method] and what each one needs. *)
Lemma check_auth_method_cases (auth_user : option (list Z))
    (auth_ips : option (list sockaddr_union)) (rdlock_rc : Z)
    (buf : list Z) (client : sockaddr_union) :
  (check_auth_method auth_user auth_ips rdlock_rc buf client = AM_NO_AUTH /\
   (auth_user = None \/ whitelisted auth_ips rdlock_rc client = true))
  \/ (check_auth_method auth_user auth_ips rdlock_rc buf client = AM_USERNAME
      /\ auth_user <> None)
  \/ check_auth_method auth_user auth_ips rdlock_rc buf client = AM_INVALID.
Proof.
  unfold check_auth_method.
  destruct (getb buf 0 =? 5); cbn [negb]; [|now right; right].
  destruct (1 >=? blen buf); [now right; right|].
  rewrite check_auth_method_loop_first.
  destruct (first_acceptable_cases (is_some auth_user)
              (whitelisted auth_ips rdlock_rc client)
              (firstn (Z.to_nat (getb buf 1))
                 (skipn (Z.to_nat (1 + 1)) buf)))
    as [(E & Hc & _)|[(E & Hc & _)|E]]; rewrite E.
  - left. split; [reflexivity|]. destruct Hc as [Hc|Hc]; [left | now right].
    destruct auth_user; [discriminate | reflexivity].
  - right; left. split; [reflexivity|].
    destruct auth_user; [discriminate | discriminate].
  - now right; right.
Qed.

Section Sessions.

Variable inet_ntop : address_family -> list Z -> option (list Z).
Variable inet_pton : address_family -> list Z -> option (list Z).
Variable resolve_tcp : list Z -> Z -> option sockaddr_union.
Variable resolve_udp : list Z -> Z -> option sockaddr_union.
Variable auth_user : option (list Z).
Variable auth_pass : option (list Z).

Local Abbreviation authed :=
  (clientthread_authed inet_ntop inet_pton resolve_tcp resolve_udp).
Local Abbreviation session_step :=
  (clientthread_step inet_ntop inet_pton resolve_tcp resolve_udp
     auth_user auth_pass).
Local Abbreviation session_loop :=
  (clientthread_loop inet_ntop inet_pton resolve_tcp resolve_udp
     auth_user auth_pass).
Local Abbreviation session :=
  (clientthread inet_ntop inet_pton resolve_tcp resolve_udp
     auth_user auth_pass).

(** Every path of [case SS_3_AUTHED] ends in [goto breakloop] or
    [abort()], or stays in a relay. *)
Lemma clientthread_authed_never_next (sys : thread_sys) (client_fd : Z)
    (st : thread_state) (buf : list Z) :
  fst (fst (authed sys client_fd st buf)) <> StepNext.
Proof.
  unfold clientthread_authed.
  destruct (parse_socks_request_header _ _ _ buf) as [[cmd address]|];
    [|discriminate].
  destruct (cmd =? CONNECT).
  { destruct (connect_socks_target sys address) as [ret tr].
    destruct (ret <? 0); [discriminate|].
    destruct (negb (ts_getsockname_rc sys =? 0)); [discriminate|].
    destruct (send_response _ _ _ _) as [rc tr2].
    destruct (rc =? -1); [discriminate|].
    destruct (copyloop _ _ _ _) as [[[] totals] tr3]; discriminate. }
  destruct (cmd =? UDP_ASSOCIATE); [|discriminate].
  destruct (udp_svc_setup sys address) as [fd tr].
  destruct (fd <=? 0); [discriminate|].
  destruct (negb (ts_getsockname_rc sys =? 0)); [discriminate|].
  destruct (send_response _ _ _ _) as [rc tr2].
  destruct (rc =? -1); [discriminate|].
  destruct (copy_loop_udp _ _ _ _ _ _ _) as [[[] st'] tr3]; discriminate.
Qed.

(** A pass through the [switch] that goes on to the next [recv] has moved
    the state forward. *)
Lemma clientthread_step_progress (sys : thread_sys) (client_fd : Z)
    (client_addr : sockaddr_union) (st st' : thread_state) (buf : list Z)
    (tr : list io_event) :
  session_step sys client_fd client_addr st buf = (StepNext, st', tr) ->
  (messages_left (th_state st') < messages_left (th_state st))%nat.
Proof.
  unfold clientthread_step. destruct (th_state st) eqn:S.
  - destruct (check_auth_method_cases auth_user (th_auth_ips st)
                (ts_rdlock_rc sys) buf client_addr)
      as [(E & _)|[(E & _)|E]]; rewrite E; cbn [Z.eqb AM_NO_AUTH AM_USERNAME
        AM_INVALID Pos.eqb]; intros H; inversion H; subst; simpl; lia.
  - destruct (negb (check_credentials auth_user auth_pass buf =? EC_SUCCESS));
      intros H; inversion H; subst; simpl; lia.
  - intros H. pose proof (clientthread_authed_never_next sys client_fd st buf)
      as N. rewrite H in N. now elim N.
Qed.

Lemma clientthread_loop_firstn (sys : thread_sys) (client_fd : Z)
    (client_addr : sockaddr_union) (k : nat) :
  forall st msgs,
    (messages_left (th_state st) <= k)%nat ->
    session_loop sys client_fd client_addr st msgs =
    session_loop sys client_fd client_addr st (firstn k msgs).
Proof.
  induction k as [|k IH]; intros st msgs Hk.
  - destruct (th_state st); simpl in Hk; lia.
  - destruct msgs as [|buf rest]; [reflexivity|].
    cbn [firstn clientthread_loop].
    destruct (negb (blen buf >? 0)); [reflexivity|].
    destruct (session_step sys client_fd client_addr st buf)
      as [[ex st'] tr] eqn:S.
    destruct ex; try reflexivity.
    apply clientthread_step_progress in S.
    rewrite (IH st' rest) by lia. reflexivity.
Qed.

Lemma clientthread_loop_cons (sys : thread_sys) (client_fd : Z)
    (client_addr : sockaddr_union) (st : thread_state) (buf : list Z)
    (rest : list (list Z)) :
  session_loop sys client_fd client_addr st (buf :: rest) =
  if negb (blen buf >? 0) then (StepBreak, st, []) else
  match session_step sys client_fd client_addr st buf with
  | (StepNext, st', tr) =>
      let '(ex, st'', tr2) :=
        session_loop sys client_fd client_addr st' rest in
      (ex, st'', tr ++ tr2)
  | other => other
  end.
Proof. reflexivity. Qed.

(** The [while] loop of [clientthread] makes at most three rounds -- for
    a greeting, a username/password message and one request: of the
    results [msgs] of its own [recv] calls it looks at the first three at
    most, at the first two after a greeting answered with "no
    authentication", and in the state [SS_3_AUTHED] at the first only,
    because every path of that state leaves the loop. This is about the
    [recv] of line 727 alone: what the client sends while a relay runs is
    read from the same socket by [copyloop], whose reads are the events of
    its own oracle and not entries of [msgs]. *)
Theorem clientthread_at_most_three_messages (sys : thread_sys)
    (client_fd : Z) (client_addr : sockaddr_union)
    (auth_ips : option (list sockaddr_union)) (totals : traffic)
    (msgs : list (list Z)) :
  session sys client_fd client_addr auth_ips totals msgs =
  session sys client_fd client_addr auth_ips totals (firstn 3 msgs)
  /\ (forall greeting request more,
        check_auth_method auth_user auth_ips (ts_rdlock_rc sys) greeting
          client_addr = AM_NO_AUTH ->
        session sys client_fd client_addr auth_ips totals
          (greeting :: request :: more) =
        session sys client_fd client_addr auth_ips totals
          [greeting; request])
  /\ (forall st request more,
        th_state st = SS_3_AUTHED ->
        session_loop sys client_fd client_addr st (request :: more) =
        session_loop sys client_fd client_addr st [request] /\
        fst (fst (session_loop sys client_fd client_addr st
                    (request :: more))) <> StepNext).
Proof.
  split; [|split].
  3:{ intros st request more Hst. split.
      - rewrite (clientthread_loop_firstn sys client_fd client_addr 1
                   st (request :: more)) by (rewrite Hst; simpl; lia).
        reflexivity.
      - rewrite clientthread_loop_cons.
        destruct (negb (blen request >? 0)); [discriminate|].
        pose proof (clientthread_authed_never_next sys client_fd st request)
          as N.
        unfold clientthread_step. rewrite Hst.
        destruct (authed sys client_fd st request) as [[ex st'] tr].
        cbn [fst] in N. destruct ex; try discriminate. now elim N. }
  - unfold clientthread.
    rewrite (clientthread_loop_firstn sys client_fd client_addr 3);
      [reflexivity | simpl; lia].
  - intros greeting request more Ham. unfold clientthread.
    assert (S : session_step sys client_fd client_addr
                  (mk_thread_state SS_1_CONNECTED auth_ips totals) greeting =
                (StepNext, mk_thread_state SS_3_AUTHED auth_ips totals,
                 send_auth_response client_fd 5 AM_NO_AUTH)).
    { unfold clientthread_step. cbn [th_state th_auth_ips th_totals].
      rewrite Ham. reflexivity. }
    rewrite !clientthread_loop_cons, S.
    destruct (negb (blen greeting >? 0)); [reflexivity|].
    rewrite (clientthread_loop_firstn sys client_fd client_addr 1
               _ (request :: more)) by (simpl; lia).
    reflexivity.
Qed.

(** No relay without authentication: a session in which [socket] is
    called (every CONNECT and every UDP ASSOCIATE starts with it) began
    with a greeting that [check_auth_method] answered with "no
    authentication" -- which it does only when no user is configured or
    the client is on the whitelist -- or with a greeting followed by a
    username/password message that [check_credentials] accepted. *)
Theorem clientthread_no_unauthenticated_relay (sys : thread_sys)
    (client_fd : Z) (client_addr : sockaddr_union)
    (auth_ips : option (list sockaddr_union)) (totals : traffic)
    (msgs : list (list Z)) :
  opens_socket
    (snd (session sys client_fd client_addr auth_ips totals msgs)) = true ->
  exists greeting rest,
    msgs = greeting :: rest /\
    ((check_auth_method auth_user auth_ips (ts_rdlock_rc sys) greeting
        client_addr = AM_NO_AUTH /\
      (auth_user = None \/
       whitelisted auth_ips (ts_rdlock_rc sys) client_addr = true))
     \/ (auth_user <> None /\
         exists creds rest',
           rest = creds :: rest' /\
           check_credentials auth_user auth_pass creds = EC_SUCCESS)).
Proof.
  unfold clientthread.
  destruct msgs as [|greeting rest]; [cbn; discriminate|].
  cbn [clientthread_loop].
  destruct (negb (blen greeting >? 0)); [cbn; discriminate|].
  unfold clientthread_step at 1. cbn [th_state th_auth_ips th_totals].
  destruct (check_auth_method_cases auth_user auth_ips (ts_rdlock_rc sys)
              greeting client_addr) as [(E & Hc)|[(E & Hc)|E]].
  - intros _. exists greeting, rest. split; [reflexivity|]. now left.
  - rewrite E. cbn [Z.eqb AM_NO_AUTH AM_USERNAME AM_INVALID Pos.eqb].
    destruct rest as [|creds rest']; [cbn; discriminate|].
    cbn [clientthread_loop].
    destruct (negb (blen creds >? 0)); [cbn; discriminate|].
    unfold clientthread_step at 1. cbn [th_state th_auth_ips th_totals].
    destruct (Z.eqb_spec (check_credentials auth_user auth_pass creds)
                EC_SUCCESS) as [Hok|_]; cbn [negb]; [|cbn; discriminate].
    intros _. exists greeting, (creds :: rest'). split; [reflexivity|].
    right. split; [exact Hc|]. exists creds, rest'. now split.
  - rewrite E. cbn. discriminate.
Qed.

End Sessions.

(** The commands that [parse_socks_request_header] lets through. *)
Lemma parse_socks_request_header_command
    (inet_ntop : address_family -> list Z -> option (list Z))
    (resolve_tcp resolve_udp : list Z -> Z -> option sockaddr_union)
    (buf : list Z) (cmd : Z) (address : sockaddr_union) :
  parse_socks_request_header inet_ntop resolve_tcp resolve_udp buf =
    Ok (cmd, address) ->
  cmd = CONNECT \/ cmd = UDP_ASSOCIATE.
Proof.
  unfold parse_socks_request_header.
  destruct (blen buf <? 3); [discriminate|].
  destruct (negb (getb buf 0 =? VERSION)); [discriminate|].
  destruct (Z.eqb_spec (getb buf 1) CONNECT) as [E1|_];
    destruct (Z.eqb_spec (getb buf 1) UDP_ASSOCIATE) as [E3|_];
    cbn [negb andb]; try discriminate;
    (destruct (negb (getb buf 2 =? RSV)); [discriminate|];
     destruct (parse_addrport inet_ntop (skipn 3 buf)) as [[k ap]|];
       [|discriminate];
     destruct (resolveSocks5Addrport _ _ _ _); [|discriminate];
     intros H; inversion H; subst; auto).
Qed.

Lemma eval_errno_code (e : errno) :
  eval_errno e < 0 /\
  In (- eval_errno e)
    [EC_GENERAL_FAILURE; EC_NET_UNREACHABLE; EC_HOST_UNREACHABLE;
     EC_CONN_REFUSED; EC_TTL_EXPIRED; EC_ADDRESSTYPE_NOT_SUPPORTED] /\
  (eval_errno e * -1) mod 256 = - eval_errno e.
Proof.
  destruct e; (split; [reflexivity|]); (split; [|reflexivity]); simpl; auto 7.
Qed.

Lemma copyloop_events_closes (kq fd1 fd2 : Z) (events : list read_event) :
  forall totals,
    let '(ex, totals', tr) := copyloop_events kq fd1 fd2 totals events in
    match ex with
    | ForReturn =>
        exists body, tr = body ++ [IoClose kq] /\ closed_fds body = []
    | _ => closed_fds tr = []
    end.
Proof.
  assert (W : forall outfd buf n writes sent,
            closed_fds (snd (write_all outfd buf n sent writes)) = []).
  { intros outfd buf n writes. induction writes as [|m0 writes IH];
      intros sent; cbn [write_all].
    - destruct (negb (sent <? n)); reflexivity.
    - destruct (negb (sent <? n)); [reflexivity|].
      destruct (Z.min m0 (n - sent) <? 0); [reflexivity|].
      specialize (IH (sent + Z.min m0 (n - sent))).
      destruct (write_all _ _ _ _ _) as [ex tr]. exact IH. }
  induction events as [|e rest IH]; intros totals; cbn [copyloop_events];
    [reflexivity|].
  destruct (ev_is_read e); [|apply IH].
  destruct (recv_n (ev_recv e) <=? 0).
  { exists [IoRead (ev_ident e) (ev_recv e)]. split; reflexivity. }
  pose proof (W (if ev_ident e =? fd1 then fd2 else fd1)
                (recv_buf (ev_recv e)) (recv_n (ev_recv e)) (ev_writes e) 0)
    as Hw.
  destruct (write_all _ _ _ _ _) as [wex wtr]. cbn [snd] in Hw.
  destruct wex.
  - set (upd := if ev_ident e =? fd1
                then update_traffic_stats totals (recv_n (ev_recv e)) 0
                else update_traffic_stats totals 0 (recv_n (ev_recv e))).
    assert (Hu : closed_fds (snd upd) = []).
    { unfold upd. destruct (ev_ident e =? fd1); reflexivity. }
    destruct upd as [totals1 tr2]. cbn [snd] in Hu.
    specialize (IH totals1).
    destruct (copyloop_events kq fd1 fd2 totals1 rest) as [[ex totals2] tr3].
    destruct ex.
    + cbn [closed_fds flat_map app].
      change (flat_map _ (wtr ++ tr2 ++ tr3))
        with (closed_fds (wtr ++ tr2 ++ tr3)).
      now rewrite !closed_fds_app, Hw, Hu, IH.
    + destruct IH as (body & -> & Hb).
      exists (IoRead (ev_ident e) (ev_recv e) :: wtr ++ tr2 ++ body).
      split; [cbn [app]; now rewrite <- !app_assoc|].
      cbn [closed_fds flat_map app].
      change (flat_map _ (wtr ++ tr2 ++ body))
        with (closed_fds (wtr ++ tr2 ++ body)).
      now rewrite !closed_fds_app, Hw, Hu, Hb.
    + cbn [closed_fds flat_map app].
      change (flat_map _ (wtr ++ tr2 ++ tr3))
        with (closed_fds (wtr ++ tr2 ++ tr3)).
      now rewrite !closed_fds_app, Hw, Hu, IH.
  - exists (IoRead (ev_ident e) (ev_recv e) :: wtr).
    split; [reflexivity | exact Hw].
  - exact Hw.
Qed.

Lemma copyloop_loop_closes (kq fd1 fd2 : Z)
    (batches : list (kevent_result read_event)) :
  forall totals,
    let '(ex, totals', tr) := copyloop_loop kq fd1 fd2 totals batches in
    match ex with
    | Returned =>
        exists body, tr = body ++ [IoClose kq] /\ closed_fds body = []
    | Blocked => closed_fds tr = []
    end.
Proof.
  induction batches as [|[err|events] rest IH]; intros totals;
    cbn [copyloop_loop].
  - reflexivity.
  - destruct (is_retry err); [apply IH|].
    exists []. split; reflexivity.
  - destruct events as [|e events]; [exists []; split; reflexivity|].
    pose proof (copyloop_events_closes kq fd1 fd2 (e :: events) totals) as H.
    destruct (copyloop_events kq fd1 fd2 totals (e :: events))
      as [[fex totals1] tr1].
    destruct fex; try exact H.
    specialize (IH totals1).
    destruct (copyloop_loop kq fd1 fd2 totals1 rest) as [[ex totals2] tr2].
    destruct ex.
    + destruct IH as (body & -> & Hb). exists (tr1 ++ body).
      split; [now rewrite app_assoc|]. now rewrite closed_fds_app, H, Hb.
    + now rewrite closed_fds_app, H, IH.
Qed.

(** The descriptors that [copyloop] closes. *)
Lemma copyloop_closed_fds (sys : copyloop_sys) (fd1 fd2 : Z)
    (totals : traffic) :
  cl_kq sys <> -1 ->
  closed_fds (snd (copyloop sys fd1 fd2 totals)) =
  match fst (fst (copyloop sys fd1 fd2 totals)) with
  | Returned => [cl_kq sys]
  | Blocked => []
  end.
Proof.
  intros Hkq. unfold copyloop.
  destruct (Z.eqb_spec (cl_kq sys) (-1)); [contradiction|].
  destruct (cl_register_rc sys =? -1); [reflexivity|].
  pose proof (copyloop_loop_closes (cl_kq sys) fd1 fd2 (cl_batches sys)
                totals) as H.
  destruct (copyloop_loop _ _ _ _ _) as [[ex totals'] tr].
  cbn [fst snd closed_fds flat_map app].
  change (flat_map _ tr) with (closed_fds tr).
  destruct ex; [|exact H].
  destruct H as (body & -> & Hb). now rewrite closed_fds_app, Hb.
Qed.

(** What [copyloop] closes: when it returns (with a kqueue), the last
    call it makes is the [close] of its kqueue, and it closes nothing
    before -- the two sockets it relays between are left open for its
    caller --; when it does not return, nothing is closed. *)
Theorem copyloop_closes_kqueue (sys : copyloop_sys) (fd1 fd2 : Z)
    (totals : traffic) :
  cl_kq sys <> -1 ->
  let '(ex, totals', tr) := copyloop sys fd1 fd2 totals in
  match ex with
  | Returned =>
      exists body,
        tr = body ++ [IoClose (cl_kq sys)] /\ closed_fds body = [] /\
        closed_fds tr = [cl_kq sys]
  | Blocked => closed_fds tr = []
  end.
Proof.
  intros Hkq. unfold copyloop.
  destruct (Z.eqb_spec (cl_kq sys) (-1)); [contradiction|].
  destruct (cl_register_rc sys =? -1).
  { exists [IoKqueue (cl_kq sys);
            IoKqAdd (cl_kq sys) [fd1; fd2] (cl_register_rc sys)].
    repeat split; reflexivity. }
  pose proof (copyloop_loop_closes (cl_kq sys) fd1 fd2 (cl_batches sys)
                totals) as H.
  destruct (copyloop_loop _ _ _ _ _) as [[ex totals'] tr].
  destruct ex; [|exact H].
  destruct H as (body & -> & Hb).
  exists (IoKqueue (cl_kq sys)
          :: IoKqAdd (cl_kq sys) [fd1; fd2] (cl_register_rc sys) :: body).
  split; [reflexivity|]. split; [exact Hb|].
  cbn [closed_fds flat_map app].
  change (flat_map _ (body ++ [IoClose (cl_kq sys)]))
    with (closed_fds (body ++ [IoClose (cl_kq sys)])).
  now rewrite closed_fds_app, Hb.
Qed.

Lemma copyloop_closes_kqueue_witness :
  cl_kq example_relay <> -1 /\
  closed_fds (snd (copyloop example_relay 5 6 (0, 0))) = [9].
Proof.
  assert (H1 : cl_kq example_relay <> -1) by (simpl; lia).
  split; [exact H1|].
  pose proof (copyloop_closes_kqueue example_relay 5 6 (0, 0) H1) as H.
  destruct (copyloop example_relay 5 6 (0, 0)) as [[ex totals'] tr] eqn:E.
  assert (Hex : fst (fst (copyloop example_relay 5 6 (0, 0))) = Returned)
    by (vm_compute; reflexivity).
  rewrite E in Hex. cbn [fst] in Hex. subst ex.
  destruct H as (body & _ & _ & Hc). exact Hc.
Defined.

Section Requests.

Variable inet_ntop : address_family -> list Z -> option (list Z).
Variable inet_pton : address_family -> list Z -> option (list Z).
Variable resolve_tcp : list Z -> Z -> option sockaddr_union.
Variable resolve_udp : list Z -> Z -> option sockaddr_union.

Local Abbreviation parse_request :=
  (parse_socks_request_header inet_ntop resolve_tcp resolve_udp).
Local Abbreviation request_step :=
  (clientthread_authed inet_ntop inet_pton resolve_tcp resolve_udp).

Variable sys : thread_sys.
Variable client_fd : Z.
Variable st : thread_state.
Variable buf : list Z.
Variable address : sockaddr_union.

(** A CONNECT that cannot be made is answered once: when [socket] or
    [connect] fails, the session ends after one reply [05 code 00 01] with
    the address 0.0.0.0:0, whose code is that of [errno] -- one of 1, 3,
    4, 5, 6 and 8 --; a socket that was created is closed before the
    reply, and no relay is started. *)
Theorem connect_failure_reply :
  parse_request buf = Ok (CONNECT, address) ->
  ts_socket sys = -1 \/ ts_connect_rc sys = -1 ->
  let e := if ts_socket sys =? -1 then ts_socket_errno sys
           else ts_connect_errno sys in
  In (- eval_errno e)
    [EC_GENERAL_FAILURE; EC_NET_UNREACHABLE; EC_HOST_UNREACHABLE;
     EC_CONN_REFUSED; EC_TTL_EXPIRED; EC_ADDRESSTYPE_NOT_SUPPORTED] /\
  request_step sys client_fd st buf =
    (StepBreak, st,
     (if ts_socket sys =? -1 then [IoSocket (-1)]
      else [IoSocket (ts_socket sys);
            IoConnect (ts_socket sys) address (-1);
            IoClose (ts_socket sys)])
     ++ [IoWriteNoCheck client_fd
           ([VERSION; - eval_errno e; RSV]
            ++ spec_encode_address (IPv4 [0; 0; 0; 0] 0))]).
Proof.
  intros Hp Hfail e.
  destruct (eval_errno_code e) as (Hneg & Hin & Hmod).
  split; [exact Hin|].
  unfold clientthread_authed. rewrite Hp.
  change (CONNECT =? CONNECT) with true. cbv iota.
  unfold connect_socks_target. unfold e in *.
  destruct (Z.eqb_spec (ts_socket sys) (-1)) as [Es|Ns].
  - rewrite Es. destruct (Z.ltb_spec (eval_errno (ts_socket_errno sys)) 0);
      [|lia].
    unfold send_error. rewrite Hmod. reflexivity.
  - destruct Hfail as [|Hc]; [contradiction|]. rewrite Hc.
    change (-1 =? -1) with true. cbv iota.
    destruct (Z.ltb_spec (eval_errno (ts_connect_errno sys)) 0); [|lia].
    unfold send_error. rewrite Hmod. reflexivity.
Qed.

(** The descriptors of a CONNECT whose target is reached: when
    [getsockname] fails the session ends at once, with no reply and with
    the target socket left open; when the reply cannot be written the
    target socket is closed and no relay is started; otherwise the relay
    runs between the client and the target socket, and when it returns
    its kqueue and then the target socket are closed. *)
Theorem connect_session_descriptors :
  parse_request buf = Ok (CONNECT, address) ->
  0 <= ts_socket sys -> ts_connect_rc sys <> -1 ->
  cl_kq (ts_copyloop sys) <> -1 ->
  let '(ex, st', tr) := request_step sys client_fd st buf in
  let fd := ts_socket sys in
  if negb (ts_getsockname_rc sys =? 0) then
    ex = StepBreak /\
    tr = [IoSocket fd; IoConnect fd address (ts_connect_rc sys);
          IoGetsockname fd (ts_getsockname_rc sys)]
  else if ts_response_rc sys =? -1 then
    ex = StepBreak /\ closed_fds tr = [fd] /\
    exists reply,
      tr = [IoSocket fd; IoConnect fd address (ts_connect_rc sys);
            IoGetsockname fd 0; IoWrite client_fd reply (-1); IoClose fd]
  else
    (ex = StepBreak /\ closed_fds tr = [cl_kq (ts_copyloop sys); fd]) \/
    (ex = StepBlocked /\ closed_fds tr = []).
Proof.
  intros Hp Hfd Hc Hkq.
  unfold clientthread_authed. rewrite Hp.
  change (CONNECT =? CONNECT) with true. cbv iota.
  unfold connect_socks_target.
  destruct (Z.eqb_spec (ts_socket sys) (-1)); [lia|].
  destruct (Z.eqb_spec (ts_connect_rc sys) (-1)); [contradiction|].
  destruct (Z.ltb_spec (ts_socket sys) 0); [lia|].
  destruct (Z.eqb_spec (ts_getsockname_rc sys) 0) as [Eg|Ng]; cbn [negb];
    [|split; reflexivity].
  unfold send_response at 1.
  destruct (Z.eqb_spec (ts_response_rc sys) (-1)) as [Er|Nr].
  { rewrite Eg, Er. split; [reflexivity|]. split; [reflexivity|].
    eexists. reflexivity. }
  pose proof (copyloop_closed_fds (ts_copyloop sys) client_fd (ts_socket sys)
                (th_totals st) Hkq) as Hcl.
  destruct (copyloop _ _ _ _) as [[cex totals] tr3].
  cbn [fst snd] in Hcl.
  destruct cex.
  - left. split; [reflexivity|].
    cbn [app closed_fds flat_map].
    change (flat_map _ (tr3 ++ [IoClose (ts_socket sys)]))
      with (closed_fds (tr3 ++ [IoClose (ts_socket sys)])).
    rewrite closed_fds_app, Hcl. reflexivity.
  - right. split; [reflexivity|].
    cbn [app closed_fds flat_map].
    change (flat_map _ tr3) with (closed_fds tr3). exact Hcl.
Qed.

(** A UDP ASSOCIATE whose socket cannot be set up: when the [connect] to
    a client address that is not the any-address fails, or the [bind]
    fails, the session ends after one reply with code 1; when
    [getaddrinfo] fails with a negative code [r], after one reply with
    the code [-r]; and when it fails with a positive code [r], the code
    is taken for the descriptor of the socket: the next call is
    [getsockname] on [r], and the session ends without a reply when that
    fails. In none of the four cases is the socket closed. *)
Theorem udp_associate_setup_failure :
  parse_request buf = Ok (UDP_ASSOCIATE, address) ->
  ts_socket sys <> -1 ->
  let fd := ts_socket sys in
  let general_failure :=
    IoWriteNoCheck client_fd
      ([VERSION; EC_GENERAL_FAILURE; RSV]
       ++ spec_encode_address (IPv4 [0; 0; 0; 0] 0)) in
  (not_any_address address = true -> ts_connect_rc sys <> 0 ->
   request_step sys client_fd st buf =
     (StepBreak, st,
      [IoSocket fd; IoConnect fd address (ts_connect_rc sys);
       general_failure]))
  /\ (not_any_address address = false -> ts_getaddrinfo_rc sys = 0 ->
      ts_bind_rc sys <> 0 ->
      request_step sys client_fd st buf =
        (StepBreak, st,
         [IoSocket fd; IoBind fd (ts_bind_rc sys); general_failure]))
  /\ (not_any_address address = false -> ts_getaddrinfo_rc sys < 0 ->
      request_step sys client_fd st buf =
        (StepBreak, st,
         [IoSocket fd;
          IoWriteNoCheck client_fd
            ([VERSION; (- ts_getaddrinfo_rc sys) mod 256; RSV]
             ++ spec_encode_address (IPv4 [0; 0; 0; 0] 0))]))
  /\ (not_any_address address = false -> 0 < ts_getaddrinfo_rc sys ->
      ts_getsockname_rc sys <> 0 ->
      request_step sys client_fd st buf =
        (StepBreak, st,
         [IoSocket fd;
          IoGetsockname (ts_getaddrinfo_rc sys) (ts_getsockname_rc sys)])).
Proof.
  intros Hp Hs fd general_failure.
  unfold clientthread_authed. rewrite Hp.
  change (UDP_ASSOCIATE =? CONNECT) with false.
  change (UDP_ASSOCIATE =? UDP_ASSOCIATE) with true. cbv iota.
  unfold udp_svc_setup.
  destruct (Z.eqb_spec (ts_socket sys) (-1)); [contradiction|].
  repeat split.
  - intros Ha Hc. rewrite Ha.
    destruct (Z.eqb_spec (ts_connect_rc sys) 0); [contradiction|].
    reflexivity.
  - intros Ha Hg Hb. rewrite Ha, Hg.
    destruct (Z.eqb_spec (ts_bind_rc sys) 0); [contradiction|].
    reflexivity.
  - intros Ha Hg. rewrite Ha.
    destruct (Z.eqb_spec (ts_getaddrinfo_rc sys) 0); [lia|]. cbn [negb].
    destruct (Z.leb_spec (ts_getaddrinfo_rc sys) 0); [|lia].
    unfold send_error.
    replace (ts_getaddrinfo_rc sys * -1) with (- ts_getaddrinfo_rc sys)
      by lia.
    reflexivity.
  - intros Ha Hg Hn. rewrite Ha.
    destruct (Z.eqb_spec (ts_getaddrinfo_rc sys) 0); [lia|]. cbn [negb].
    destruct (Z.leb_spec (ts_getaddrinfo_rc sys) 0); [lia|].
    destruct (Z.eqb_spec (ts_getsockname_rc sys) 0); [contradiction|].
    reflexivity.
Qed.

End Requests.

Lemma example_connect_request_parsed :
  parse_socks_request_header inet_ntop_model resolve_model resolve_model
    example_connect_request =
  Ok (CONNECT, mk_sockaddr AF_INET 53 [8; 8; 8; 8]).
Proof. vm_compute. reflexivity. Qed.

Lemma example_associate_request_parsed :
  parse_socks_request_header inet_ntop_model resolve_model resolve_model
    example_associate_request =
  Ok (UDP_ASSOCIATE, mk_sockaddr AF_INET 0 [0; 0; 0; 0]).
Proof. vm_compute. reflexivity. Qed.

Lemma connect_failure_reply_witness :
  (ts_socket (example_sys (-1) ECONNREFUSED 0 0 0) = -1 \/
   ts_connect_rc (example_sys (-1) ECONNREFUSED 0 0 0) = -1) /\
  clientthread_authed inet_ntop_model inet_pton_model resolve_model
    resolve_model (example_sys (-1) ECONNREFUSED 0 0 0) 4
    example_authed_state example_connect_request =
  (StepBreak, example_authed_state,
   [IoSocket 12; IoConnect 12 (mk_sockaddr AF_INET 53 [8; 8; 8; 8]) (-1);
    IoClose 12; IoWriteNoCheck 4 [5; 5; 0; 1; 0; 0; 0; 0; 0; 0]]).
Proof.
  assert (H : ts_socket (example_sys (-1) ECONNREFUSED 0 0 0) = -1 \/
              ts_connect_rc (example_sys (-1) ECONNREFUSED 0 0 0) = -1)
    by (right; reflexivity).
  split; [exact H|].
  exact (proj2 (connect_failure_reply inet_ntop_model inet_pton_model
                  resolve_model resolve_model
                  (example_sys (-1) ECONNREFUSED 0 0 0) 4
                  example_authed_state example_connect_request
                  (mk_sockaddr AF_INET 53 [8; 8; 8; 8])
                  example_connect_request_parsed H)).
Defined.

Lemma connect_session_descriptors_witness :
  0 <= ts_socket (example_sys 0 EOTHER 0 0 0) /\
  ts_connect_rc (example_sys 0 EOTHER 0 0 0) <> -1 /\
  cl_kq (ts_copyloop (example_sys 0 EOTHER 0 0 0)) <> -1 /\
  closed_fds
    (snd (clientthread_authed inet_ntop_model inet_pton_model resolve_model
            resolve_model (example_sys 0 EOTHER 0 0 0) 5
            example_authed_state example_connect_request)) = [9; 12].
Proof.
  assert (H1 : 0 <= ts_socket (example_sys 0 EOTHER 0 0 0)) by (simpl; lia).
  assert (H2 : ts_connect_rc (example_sys 0 EOTHER 0 0 0) <> -1)
    by (simpl; lia).
  assert (H3 : cl_kq (ts_copyloop (example_sys 0 EOTHER 0 0 0)) <> -1)
    by (simpl; lia).
  repeat (split; [assumption|]).
  pose proof (connect_session_descriptors inet_ntop_model inet_pton_model
                resolve_model resolve_model (example_sys 0 EOTHER 0 0 0) 5
                example_authed_state example_connect_request
                (mk_sockaddr AF_INET 53 [8; 8; 8; 8])
                example_connect_request_parsed H1 H2 H3) as H.
  destruct (clientthread_authed inet_ntop_model inet_pton_model
              resolve_model resolve_model (example_sys 0 EOTHER 0 0 0) 5
              example_authed_state example_connect_request)
    as [[ex st'] tr] eqn:E.
  assert (Hex : fst (fst (clientthread_authed inet_ntop_model
                            inet_pton_model resolve_model resolve_model
                            (example_sys 0 EOTHER 0 0 0) 5
                            example_authed_state example_connect_request))
                = StepBreak) by (vm_compute; reflexivity).
  rewrite E in Hex. cbn [fst] in Hex. subst ex.
  cbn in H. destruct H as [[_ Hc]|[Hx _]]; [exact Hc | discriminate Hx].
Defined.

Lemma udp_associate_setup_failure_witness :
  ts_socket (example_sys 0 EOTHER 4 0 (-1)) <> -1 /\
  not_any_address (mk_sockaddr AF_INET 0 [0; 0; 0; 0]) = false /\
  0 < ts_getaddrinfo_rc (example_sys 0 EOTHER 4 0 (-1)) /\
  ts_getsockname_rc (example_sys 0 EOTHER 4 0 (-1)) <> 0 /\
  clientthread_authed inet_ntop_model inet_pton_model resolve_model
    resolve_model (example_sys 0 EOTHER 4 0 (-1)) 5
    example_authed_state example_associate_request =
  (StepBreak, example_authed_state, [IoSocket 12; IoGetsockname 4 (-1)]).
Proof.
  assert (H1 : ts_socket (example_sys 0 EOTHER 4 0 (-1)) <> -1)
    by (simpl; lia).
  assert (H2 : not_any_address (mk_sockaddr AF_INET 0 [0; 0; 0; 0]) = false)
    by reflexivity.
  assert (H3 : 0 < ts_getaddrinfo_rc (example_sys 0 EOTHER 4 0 (-1)))
    by (simpl; lia).
  assert (H4 : ts_getsockname_rc (example_sys 0 EOTHER 4 0 (-1)) <> 0)
    by (simpl; lia).
  repeat (split; [assumption|]).
  exact (proj2 (proj2 (proj2
           (udp_associate_setup_failure inet_ntop_model inet_pton_model
              resolve_model resolve_model (example_sys 0 EOTHER 4 0 (-1)) 5
              example_authed_state example_associate_request
              (mk_sockaddr AF_INET 0 [0; 0; 0; 0])
              example_associate_request_parsed H1))) H2 H3 H4).
Defined.

Lemma clientthread_at_most_three_messages_witness :
  check_auth_method None None
    (ts_rdlock_rc (example_sys 0 EOTHER 0 0 0)) [5; 1; 0] example_ip =
    AM_NO_AUTH /\
  clientthread inet_ntop_model inet_pton_model resolve_model resolve_model
    None None (example_sys 0 EOTHER 0 0 0) 5 example_ip None (0, 0)
    [[5; 1; 0]; example_connect_request; [1; 2; 3]] =
  clientthread inet_ntop_model inet_pton_model resolve_model resolve_model
    None None (example_sys 0 EOTHER 0 0 0) 5 example_ip None (0, 0)
    [[5; 1; 0]; example_connect_request].
Proof.
  assert (H : check_auth_method None None
                (ts_rdlock_rc (example_sys 0 EOTHER 0 0 0)) [5; 1; 0]
                example_ip = AM_NO_AUTH) by reflexivity.
  split; [exact H|].
  exact (proj1 (proj2 (clientthread_at_most_three_messages inet_ntop_model
                         inet_pton_model resolve_model resolve_model None
                         None (example_sys 0 EOTHER 0 0 0) 5 example_ip None
                         (0, 0)
                         [[5; 1; 0]; example_connect_request; [1; 2; 3]]))
           [5; 1; 0] example_connect_request [[1; 2; 3]] H).
Defined.

Lemma clientthread_no_unauthenticated_relay_witness :
  opens_socket
    (snd (clientthread inet_ntop_model inet_pton_model resolve_model
            resolve_model (Some [117]) (Some [112])
            (example_sys 0 EOTHER 0 0 0) 5 example_ip None (0, 0)
            [[5; 1; 2]; [1; 1; 117; 1; 112]; example_connect_request]))
    = true /\
  exists greeting rest,
    [[5; 1; 2]; [1; 1; 117; 1; 112]; example_connect_request] =
      greeting :: rest /\
    ((check_auth_method (Some [117]) None
        (ts_rdlock_rc (example_sys 0 EOTHER 0 0 0)) greeting example_ip =
        AM_NO_AUTH /\
      (Some [117] = None \/
       whitelisted None (ts_rdlock_rc (example_sys 0 EOTHER 0 0 0))
         example_ip = true))
     \/ (Some [117] <> None /\
         exists creds rest',
           rest = creds :: rest' /\
           check_credentials (Some [117]) (Some [112]) creds = EC_SUCCESS)).
Proof.
  assert (H : opens_socket
                (snd (clientthread inet_ntop_model inet_pton_model
                        resolve_model resolve_model (Some [117]) (Some [112])
                        (example_sys 0 EOTHER 0 0 0) 5 example_ip None (0, 0)
                        [[5; 1; 2]; [1; 1; 117; 1; 112];
                         example_connect_request])) = true)
    by (vm_compute; reflexivity).
  split; [exact H|].
  exact (clientthread_no_unauthenticated_relay inet_ntop_model
           inet_pton_model resolve_model resolve_model (Some [117])
           (Some [112]) (example_sys 0 EOTHER 0 0 0) 5 example_ip None (0, 0)
           [[5; 1; 2]; [1; 1; 117; 1; 112]; example_connect_request] H).
Defined.

(** ** The calls of [abort] *)

Section NoAbort.

Variable inet_ntop : address_family -> list Z -> option (list Z).
Variable inet_pton : address_family -> list Z -> option (list Z).
Variable resolve_tcp : list Z -> Z -> option sockaddr_union.
Variable resolve_udp : list Z -> Z -> option sockaddr_union.

Lemma parse_addrport_type (buf : list Z) (k : Z) (ap : socks5_addrport) :
  parse_addrport inet_ntop buf = Ok (k, ap) -> type_known ap = true.
Proof.
  unfold parse_addrport, fill_addrport, type_known.
  destruct (blen buf <? 2); [discriminate|]. cbv zeta.
  destruct (Z.eqb_spec (getb buf 0) SOCKS5_IPV6) as [E6|_].
  { destruct (blen buf <? 1 + 16 + 2); [discriminate|].
    destruct (inet_ntop AF_INET6 (sub buf 1 16)); [|discriminate].
    intros H; inversion H; subst; cbn [ap_type]. rewrite E6. reflexivity. }
  destruct (Z.eqb_spec (getb buf 0) SOCKS5_IPV4) as [E4|_].
  { destruct (blen buf <? 1 + 4 + 2); [discriminate|].
    destruct (inet_ntop AF_INET (sub buf 1 4)); [|discriminate].
    intros H; inversion H; subst; cbn [ap_type]. rewrite E4. reflexivity. }
  destruct (Z.eqb_spec (getb buf 0) SOCKS5_DNS) as [E3|_]; [|discriminate].
  destruct (blen buf <? 1 + (1 + getb buf 1) + 2); [discriminate|].
  intros H; inversion H; subst; cbn [ap_type]. rewrite E3. reflexivity.
Qed.

Lemma extract_udp_data_type (buf : list Z) (offset : Z)
    (ap : socks5_addrport) :
  extract_udp_data inet_ntop buf = Ok (offset, ap) -> type_known ap = true.
Proof.
  unfold extract_udp_data.
  destruct (blen buf <? 3); [discriminate|].
  destruct (negb (getb buf 0 =? RSV) || negb (getb buf 1 =? RSV));
    [discriminate|].
  destruct (negb (getb buf 2 =? 0)); [discriminate|].
  destruct (parse_addrport inet_ntop (skipn (Z.to_nat 3) buf))
    as [[k ap']|] eqn:P; [|discriminate].
  intros H; injection H as _ <-. exact (parse_addrport_type _ _ _ P).
Qed.

Lemma udp_reply_header_known (ap : socks5_addrport) :
  type_known ap = true -> udp_reply_header inet_pton ap <> HeaderAbort.
Proof.
  unfold type_known, udp_reply_header.
  destruct (ap_type ap =? SOCKS5_DNS); [discriminate|].
  destruct (ap_type ap =? SOCKS5_IPV4).
  { destruct (inet_pton AF_INET _); discriminate. }
  destruct (ap_type ap =? SOCKS5_IPV6); [|discriminate].
  destruct (inet_pton AF_INET6 _); discriminate.
Qed.

(** An index that [sblist_search] returns is in the list. *)
Lemma sblist_search_item {A : Type} (l : list A) (key : A)
    (cmp : A -> A -> Z) :
  sblist_search l key cmp <> -1 ->
  exists found,
    sblist_item_from_index l (sblist_search l key cmp) = Some found /\
    In found l.
Proof.
  intros Hhit.
  destruct (sblist_search_found l key cmp) as [|(_ & found & Hf & _)];
    [contradiction|].
  exists found. split; [exact Hf|].
  unfold sblist_item_from_index in Hf. exact (nth_error_In _ _ Hf).
Qed.

Variable kq tcp_fd udp_fd : Z.

Lemma udp_client_branch_no_abort (st : udp_state) (e : udp_event) :
  flows_typed (us_sock_list st) = true ->
  let '(f, st', tr) :=
    udp_client_branch inet_ntop resolve_tcp resolve_udp kq tcp_fd udp_fd st e
  in f <> Abort /\ flows_typed (us_sock_list st') = true.
Proof.
  intros Ht. unfold udp_client_branch.
  destruct (recv_n (ue_recv e) =? -1).
  { split; [destruct (is_retry _); discriminate | exact Ht]. }
  destruct (negb (us_bound st) && negb (ue_pin_rc e =? 0));
    [split; [discriminate | exact Ht]|].
  destruct (extract_udp_data inet_ntop (recv_buf (ue_recv e)))
    as [[offset addrport]|] eqn:X; [|split; [discriminate | exact Ht]].
  cbn [us_item us_sock_list fs_fd].
  destruct (Z.eqb_spec
              (sblist_search (us_sock_list st)
                 (mk_fd_addr (fs_fd (us_item st)) addrport)
                 compare_fd_socks5addr_by_addrport) (-1)) as [Hmiss|Hhit];
    cbn [negb].
  2:{ destruct (sblist_search_item _ _ _ Hhit) as (found & -> & _).
      split; [destruct (ue_send_rc e <? 0); discriminate | exact Ht]. }
  destruct (resolveSocks5Addrport resolve_tcp resolve_udp addrport UDP_SOCKET)
    as [target|]; [|split; [discriminate | exact Ht]].
  destruct (ue_connect_rc e =? -1); [split; [discriminate | exact Ht]|].
  assert (Ht' : flows_typed
                  (sblist_add (us_sock_list st)
                     (mk_fd_addr (ue_socket e) addrport)) = true).
  { unfold flows_typed, sblist_add. rewrite forallb_app.
    fold (flows_typed (us_sock_list st)). rewrite Ht.
    cbn [forallb fs_addrport andb].
    now rewrite (extract_udp_data_type _ _ _ X). }
  destruct (ue_kevent_rc e =? -1); [split; [discriminate | exact Ht']|].
  split; [destruct (ue_send_rc e <? 0); discriminate | exact Ht'].
Qed.

Lemma udp_target_branch_no_abort (st : udp_state) (e : udp_event) :
  flows_typed (us_sock_list st) = true ->
  let '(f, st', tr) := udp_target_branch inet_pton udp_fd st e in
  f <> Abort /\ flows_typed (us_sock_list st') = true.
Proof.
  intros Ht. unfold udp_target_branch. cbn [us_sock_list].
  destruct (Z.eqb_spec
              (sblist_search (us_sock_list st)
                 (mk_fd_addr (ue_ident e) (fs_addrport (us_item st)))
                 compare_fd_socks5addr_by_fd) (-1)) as [|Hhit];
    [split; [discriminate | exact Ht]|].
  destruct (sblist_search_item _ _ _ Hhit) as (found & -> & Hin).
  assert (Hk : type_known (fs_addrport found) = true).
  { unfold flows_typed in Ht. rewrite forallb_forall in Ht. now apply Ht. }
  pose proof (udp_reply_header_known _ Hk) as Hh.
  destruct (udp_reply_header inet_pton (fs_addrport found));
    [|split; [discriminate | exact Ht]|contradiction].
  destruct (recv_n (ue_recv e) <=? 0); [split; [discriminate | exact Ht]|].
  split; [destruct (ue_send_rc e <? 0); discriminate | exact Ht].
Qed.

Lemma copy_loop_udp_event_no_abort (st : udp_state) (e : udp_event) :
  flows_typed (us_sock_list st) = true ->
  let '(f, st', tr) :=
    copy_loop_udp_event inet_ntop inet_pton resolve_tcp resolve_udp
      kq tcp_fd udp_fd st e
  in f <> Abort /\ flows_typed (us_sock_list st') = true.
Proof.
  intros Ht. unfold copy_loop_udp_event.
  assert (T : exists f1 tr1,
            (if ue_ident e =? tcp_fd then udp_tcp_branch e else (Next, []))
            = (f1, tr1) /\ f1 <> Abort).
  { destruct (ue_ident e =? tcp_fd).
    - unfold udp_tcp_branch.
      destruct (recv_n (ue_recv e) =? 0);
        [eexists; eexists; split; [reflexivity | discriminate]|].
      destruct (recv_n (ue_recv e) =? -1);
        [|eexists; eexists; split; [reflexivity | discriminate]].
      destruct (is_retry (ue_errno e));
        eexists; eexists; (split; [reflexivity | discriminate]).
    - exists Next, []. split; [reflexivity | discriminate]. }
  destruct T as (f1 & tr1 & -> & N1).
  destruct f1; try (split; [assumption | exact Ht]).
  assert (C : exists f2 st2 tr2,
            (if ue_ident e =? udp_fd
             then udp_client_branch inet_ntop resolve_tcp resolve_udp
                    kq tcp_fd udp_fd st e
             else (Next, st, [])) = (f2, st2, tr2)
            /\ f2 <> Abort /\ flows_typed (us_sock_list st2) = true).
  { destruct (ue_ident e =? udp_fd).
    - pose proof (udp_client_branch_no_abort st e Ht) as H.
      destruct (udp_client_branch _ _ _ _ _ _ _ _) as [[f2 st2] tr2].
      exists f2, st2, tr2. now split.
    - exists Next, st, []. split; [reflexivity|]. split;
        [discriminate | exact Ht]. }
  destruct C as (f2 & st2 & tr2 & -> & N2 & Ht2).
  destruct f2; try (split; [assumption | exact Ht2]).
  destruct (negb (ue_ident e =? tcp_fd) && negb (ue_ident e =? udp_fd)).
  - pose proof (udp_target_branch_no_abort st2 e Ht2) as H.
    destruct (udp_target_branch _ _ _ _) as [[f3 st3] tr3]. exact H.
  - split; [discriminate | exact Ht2].
Qed.

Lemma copy_loop_udp_events_no_abort (events : list udp_event) :
  forall st,
    flows_typed (us_sock_list st) = true ->
    let '(f, st', tr) :=
      copy_loop_udp_events inet_ntop inet_pton resolve_tcp resolve_udp
        kq tcp_fd udp_fd st events
    in f <> Abort /\ flows_typed (us_sock_list st') = true.
Proof.
  induction events as [|e rest IH]; intros st Ht;
    [split; [discriminate | exact Ht]|].
  cbn [copy_loop_udp_events].
  pose proof (copy_loop_udp_event_no_abort st e Ht) as H.
  destruct (copy_loop_udp_event _ _ _ _ _ _ _ _ _) as [[f st1] tr1].
  destruct H as [N Ht1]. specialize (IH st1 Ht1).
  destruct (copy_loop_udp_events _ _ _ _ _ _ _ _ _) as [[f' st2] tr2].
  destruct f; try exact IH; try (split; [assumption | exact Ht1]).
Qed.

Lemma copy_loop_udp_loop_no_abort
    (batches : list (kevent_result udp_event)) :
  forall st,
    flows_typed (us_sock_list st) = true ->
    fst (fst (copy_loop_udp_loop inet_ntop inet_pton resolve_tcp resolve_udp
                kq tcp_fd udp_fd st batches)) <> UdpAborted.
Proof.
  induction batches as [|[err|events] rest IH]; intros st Ht;
    cbn [copy_loop_udp_loop].
  - discriminate.
  - destruct (is_retry err); [now apply IH | discriminate].
  - pose proof (copy_loop_udp_events_no_abort events st Ht) as H.
    destruct (copy_loop_udp_events _ _ _ _ _ _ _ _ _) as [[f st1] tr1].
    destruct H as [N Ht1]. specialize (IH st1 Ht1).
    destruct (copy_loop_udp_loop _ _ _ _ _ _ _ _ _) as [[ex st2] tr2].
    destruct f; try exact IH; try discriminate. now elim N.
Qed.

End NoAbort.

Section Aborts.

Variable inet_ntop : address_family -> list Z -> option (list Z).
Variable inet_pton : address_family -> list Z -> option (list Z).
Variable resolve_tcp : list Z -> Z -> option sockaddr_union.
Variable resolve_udp : list Z -> Z -> option sockaddr_union.

(** The [abort] in the loop of [copy_loop_udp] is never reached: every
    address in the flow table came out of [extract_udp_data], so its type
    is one of the three that the reply header is built for, and every
    index looked up was returned by [sblist_search]. The function aborts
    in one case only, before the loop: [getpeername] on the UDP socket
    fails with an error other than [ENOTCONN]. *)
Theorem copy_loop_udp_abort_only_getpeername (sys : udp_sys)
    (tcp_fd udp_fd : Z) :
  fst (fst (copy_loop_udp inet_ntop inet_pton resolve_tcp resolve_udp
              sys tcp_fd udp_fd)) = UdpAborted <->
  ud_kq sys <> -1 /\ ud_register_rc sys <> -1 /\
  exists err, ud_getpeername sys = Some err /\ err <> ENOTCONN.
Proof.
  unfold copy_loop_udp.
  destruct (Z.eqb_spec (ud_kq sys) (-1)) as [|Nk];
    [split; [discriminate | intros (H & _); contradiction]|].
  destruct (Z.eqb_spec (ud_register_rc sys) (-1)) as [|Nr];
    [split; [discriminate | intros (_ & H & _); contradiction]|].
  assert (Run : forall bound,
            fst (fst (let '(ex, st, tr) :=
                        copy_loop_udp_loop inet_ntop inet_pton resolve_tcp
                          resolve_udp (ud_kq sys) tcp_fd udp_fd
                          (mk_udp_state bound (ud_item sys) [])
                          (ud_batches sys) in
                      (ex, st,
                       IoKqueue (ud_kq sys)
                       :: IoKqAdd (ud_kq sys) [tcp_fd; udp_fd]
                            (ud_register_rc sys) :: tr)))
            <> UdpAborted).
  { intros bound.
    pose proof (copy_loop_udp_loop_no_abort inet_ntop inet_pton resolve_tcp
                  resolve_udp (ud_kq sys) tcp_fd udp_fd (ud_batches sys)
                  (mk_udp_state bound (ud_item sys) []) eq_refl) as H.
    destruct (copy_loop_udp_loop _ _ _ _ _ _ _ _ _) as [[ex st] tr].
    exact H. }
  destruct (ud_getpeername sys) as [err|].
  - destruct err;
      try (split; [intros _; split; [exact Nk|]; split; [exact Nr|];
                   eexists; split; [reflexivity | discriminate]
                  | reflexivity]).
    split; [intros H; now elim (Run false)|].
    intros (_ & _ & err & Herr & Hne). congruence.
  - split; [intros H; now elim (Run true)|].
    intros (_ & _ & err & Herr & _). discriminate.
Qed.

(** The [abort] that follows the dispatch on the command in
    [clientthread] (the last [else] of [case SS_3_AUTHED]) is unreachable:
    the command of a request that [parse_socks_request_header] accepts is
    the second byte of the request, and it is CONNECT or UDP ASSOCIATE, so
    that one of the two branches before it is taken. Accordingly the step
    never has the result of that [else] -- an abort before any call has
    been made. *)
Theorem clientthread_dispatch_abort_unreachable (buf : list Z) (cmd : Z)
    (address : sockaddr_union) :
  parse_socks_request_header inet_ntop resolve_tcp resolve_udp buf =
    Ok (cmd, address) ->
  cmd = getb buf 1 /\ (cmd = CONNECT \/ cmd = UDP_ASSOCIATE) /\
  ((cmd =? CONNECT) || (cmd =? UDP_ASSOCIATE) = true) /\
  forall sys client_fd st st',
    clientthread_authed inet_ntop inet_pton resolve_tcp resolve_udp
      sys client_fd st buf <> (StepAbort, st', []).
Proof.
  intros P.
  destruct (parse_socks_request_header_command _ _ _ _ _ _ P) as [Hc|Hc].
  - split; [|split; [now left | split; [now rewrite Hc|]]].
    + unfold parse_socks_request_header in P.
      destruct (blen buf <? 3); [discriminate|].
      destruct (negb (getb buf 0 =? VERSION)); [discriminate|].
      destruct (negb (getb buf 1 =? CONNECT)
                && negb (getb buf 1 =? UDP_ASSOCIATE)); [discriminate|].
      destruct (negb (getb buf 2 =? RSV)); [discriminate|].
      destruct (parse_addrport inet_ntop (skipn 3 buf)) as [[k ap]|];
        [|discriminate].
      destruct (resolveSocks5Addrport _ _ _ _); [|discriminate].
      now injection P as <- _.
    + intros sys client_fd st st'. unfold clientthread_authed.
      rewrite P, Hc. change (CONNECT =? CONNECT) with true. cbv iota.
      destruct (connect_socks_target sys address) as [ret ctr].
      destruct (ret <? 0); [discriminate|].
      destruct (negb (ts_getsockname_rc sys =? 0)); [discriminate|].
      destruct (send_response _ _ _ _) as [rc tr2].
      destruct (rc =? -1); [discriminate|].
      destruct (copyloop _ _ _ _) as [[[] totals] tr3]; discriminate.
  - split; [|split; [now right | split; [now rewrite Hc|]]].
    + unfold parse_socks_request_header in P.
      destruct (blen buf <? 3); [discriminate|].
      destruct (negb (getb buf 0 =? VERSION)); [discriminate|].
      destruct (negb (getb buf 1 =? CONNECT)
                && negb (getb buf 1 =? UDP_ASSOCIATE)); [discriminate|].
      destruct (negb (getb buf 2 =? RSV)); [discriminate|].
      destruct (parse_addrport inet_ntop (skipn 3 buf)) as [[k ap]|];
        [|discriminate].
      destruct (resolveSocks5Addrport _ _ _ _); [|discriminate].
      now injection P as <- _.
    + intros sys client_fd st st'. unfold clientthread_authed.
      rewrite P, Hc. change (UDP_ASSOCIATE =? CONNECT) with false.
      change (UDP_ASSOCIATE =? UDP_ASSOCIATE) with true. cbv iota.
      destruct (udp_svc_setup sys address) as [fd utr].
      destruct (fd <=? 0); [discriminate|].
      destruct (negb (ts_getsockname_rc sys =? 0)); [discriminate|].
      destruct (send_response _ _ _ _) as [rc tr2].
      destruct (rc =? -1); [discriminate|].
      destruct (copy_loop_udp _ _ _ _ _ _ _) as [[[] ust] tr3];
        try discriminate.
      intros E. injection E as _ E.
      apply app_eq_nil in E as [_ E]. discriminate E.
Qed.

End Aborts.

Lemma copy_loop_udp_abort_only_getpeername_witness :
  fst (fst (copy_loop_udp inet_ntop_model inet_pton_model resolve_model
              resolve_model example_unbound_sys 5 7)) = UdpAborted /\
  exists err,
    ud_getpeername example_unbound_sys = Some err /\ err <> ENOTCONN.
Proof.
  assert (H : fst (fst (copy_loop_udp inet_ntop_model inet_pton_model
                          resolve_model resolve_model example_unbound_sys
                          5 7)) = UdpAborted) by reflexivity.
  split; [exact H|].
  exact (proj2 (proj2 (proj1 (copy_loop_udp_abort_only_getpeername
                                inet_ntop_model inet_pton_model resolve_model
                                resolve_model example_unbound_sys 5 7) H))).
Defined.

Lemma clientthread_dispatch_abort_unreachable_witness :
  parse_socks_request_header inet_ntop_model resolve_model resolve_model
    example_connect_request =
    Ok (CONNECT, mk_sockaddr AF_INET 53 [8; 8; 8; 8]) /\
  CONNECT = getb example_connect_request 1 /\
  (CONNECT = CONNECT \/ CONNECT = UDP_ASSOCIATE).
Proof.
  split; [exact example_connect_request_parsed|].
  pose proof (clientthread_dispatch_abort_unreachable inet_ntop_model
                inet_pton_model resolve_model resolve_model
                example_connect_request CONNECT
                (mk_sockaddr AF_INET 53 [8; 8; 8; 8])
                example_connect_request_parsed) as (H1 & H2 & _).
  split; [exact H1 | exact H2].
Defined.

(** ** Whitelist membership *)

Lemma is_authed_same_ip (c a : sockaddr_union) :
  is_authed c a = true <-> same_ip c a.
Proof.
  split; [|apply same_ip_authed].
  unfold is_authed, mem_equal, same_ip.
  destruct (family_eqb (sa_family a) (sa_family c)) eqn:E; [|discriminate].
  apply family_eqb_eq in E. rewrite <- E.
  destruct (sa_family a);
    destruct (list_eqb _ _) eqn:L; try discriminate;
    apply list_eqb_eq in L; intros _; now split.
Qed.

(** [is_in_authed_list] finds a client exactly when some entry of the
    whitelist has the client's IP: the same address family and the same 4
    (IPv4) or 16 (IPv6) address bytes. The port is not compared -- two
    addresses with the same IP are treated alike by every list --, and an
    IPv4 client never matches an IPv6 entry or the reverse. *)
Theorem is_in_authed_list_same_ip (auth_ips : list sockaddr_union)
    (caddr : sockaddr_union) :
  (is_in_authed_list auth_ips caddr = true <->
   exists ip, In ip auth_ips /\ same_ip caddr ip)
  /\ (forall port,
        is_in_authed_list auth_ips
          (mk_sockaddr (sa_family caddr) port (sa_addr caddr)) =
        is_in_authed_list auth_ips caddr)
  /\ (forall ip, sa_family ip <> sa_family caddr -> is_authed caddr ip = false).
Proof.
  split; [|split].
  - induction auth_ips as [|x l IH]; cbn [is_in_authed_list].
    + split; [discriminate | intros (ip & [] & _)].
    + destruct (is_authed caddr x) eqn:A.
      * split; [intros _|reflexivity]. exists x. split; [now left|].
        now apply is_authed_same_ip.
      * rewrite IH. split.
        -- intros (ip & Hin & Hs). exists ip. split; [now right | exact Hs].
        -- intros (ip & [<-|Hin] & Hs); [|now exists ip].
           apply is_authed_same_ip in Hs. congruence.
  - intros port. apply same_ip_in_list. unfold same_ip. cbn [sa_family sa_addr].
    split; [reflexivity|]. destruct (sa_family caddr); reflexivity.
  - intros ip Hf. unfold is_authed.
    destruct (family_eqb (sa_family ip) (sa_family caddr)) eqn:E;
      [|reflexivity].
    apply family_eqb_eq in E. contradiction.
Qed.

Lemma is_in_authed_list_same_ip_witness :
  sa_family (mk_sockaddr AF_INET6 40000 [10; 0; 0; 1]) <> sa_family example_ip
  /\ is_authed example_ip (mk_sockaddr AF_INET6 40000 [10; 0; 0; 1]) = false.
Proof.
  assert (H : sa_family (mk_sockaddr AF_INET6 40000 [10; 0; 0; 1]) <>
              sa_family example_ip) by discriminate.
  split; [exact H|].
  exact (proj2 (proj2 (is_in_authed_list_same_ip [] example_ip)) _ H).
Defined.

(** ** The descriptors of a UDP associate *)

Lemma udp_svc_setup_quiet (sys : thread_sys) (address : sockaddr_union) :
  closed_fds (snd (udp_svc_setup sys address)) = [] /\
  flow_sockets (snd (udp_svc_setup sys address)) = [].
Proof.
  unfold udp_svc_setup.
  destruct (ts_socket sys =? -1); [split; reflexivity|].
  destruct (not_any_address address).
  { destruct (negb (ts_connect_rc sys =? 0)); split; reflexivity. }
  destruct (negb (ts_getaddrinfo_rc sys =? 0)); [split; reflexivity|].
  destruct (negb (ts_bind_rc sys =? 0)); split; reflexivity.
Qed.

Section Associate.

Variable inet_ntop : address_family -> list Z -> option (list Z).
Variable inet_pton : address_family -> list Z -> option (list Z).
Variable resolve_tcp : list Z -> Z -> option sockaddr_union.
Variable resolve_udp : list Z -> Z -> option sockaddr_union.

(** The descriptors of a UDP ASSOCIATE whose socket [fd] is set up: when
    [getsockname] fails the session ends at once, with no reply and with
    the socket left open; when the reply cannot be written the socket is
    closed and no relay is started; otherwise [copy_loop_udp] runs on the
    control socket and [fd], and when it returns the flow sockets, its
    kqueue and then [fd] have been closed, in this order; when it aborts
    or does not return nothing is closed. *)
Theorem udp_associate_session_descriptors (sys : thread_sys)
    (client_fd : Z) (st : thread_state) (buf : list Z)
    (address : sockaddr_union) :
  parse_socks_request_header inet_ntop resolve_tcp resolve_udp buf =
    Ok (UDP_ASSOCIATE, address) ->
  0 < fst (udp_svc_setup sys address) ->
  ud_kq (ts_udp sys) <> -1 ->
  let fd := fst (udp_svc_setup sys address) in
  let '(ex, st', tr) :=
    clientthread_authed inet_ntop inet_pton resolve_tcp resolve_udp
      sys client_fd st buf in
  if negb (ts_getsockname_rc sys =? 0) then
    ex = StepBreak /\ closed_fds tr = [] /\
    tr = snd (udp_svc_setup sys address)
         ++ [IoGetsockname fd (ts_getsockname_rc sys)]
  else if ts_response_rc sys =? -1 then
    ex = StepBreak /\ closed_fds tr = [fd]
  else
    match ex with
    | StepBreak =>
        closed_fds tr = flow_sockets tr ++ [ud_kq (ts_udp sys); fd]
    | StepNext => False
    | _ => closed_fds tr = []
    end.
Proof.
  intros Hp Hfd Hkq fd. unfold clientthread_authed. rewrite Hp.
  change (UDP_ASSOCIATE =? CONNECT) with false.
  change (UDP_ASSOCIATE =? UDP_ASSOCIATE) with true. cbv iota.
  destruct (udp_svc_setup_quiet sys address) as [Hc Hf].
  unfold fd in *. clear fd.
  destruct (udp_svc_setup sys address) as [fd tr0]. cbn [fst snd] in *.
  destruct (Z.leb_spec fd 0); [lia|].
  destruct (Z.eqb_spec (ts_getsockname_rc sys) 0) as [Eg|Ng]; cbn [negb].
  2:{ split; [reflexivity|]. split; [|reflexivity].
      now rewrite closed_fds_app, Hc. }
  unfold send_response at 1.
  destruct (Z.eqb_spec (ts_response_rc sys) (-1)) as [Er|Nr].
  { split; [reflexivity|]. rewrite !closed_fds_app, Hc.
    destruct (sa_family (ts_local_addr sys)); reflexivity. }
  pose proof (copy_loop_udp_ok inet_ntop inet_pton resolve_tcp resolve_udp
                (ts_udp sys) client_fd fd) as Hu.
  destruct (copy_loop_udp _ _ _ _ _ _ _) as [[uex ust] tr3].
  destruct Hu as (body & F & C & _ & ->).
  destruct (Z.eqb_spec (ud_kq (ts_udp sys)) (-1)); [contradiction|].
  destruct uex; cbv beta iota.
  - rewrite udp_loop_end_closes, F.
    rewrite !closed_fds_app, !flow_sockets_app, Hc, Hf, C.
    rewrite closed_fds_closes, flow_sockets_closes.
    cbn [closed_fds flow_sockets flat_map app].
    rewrite !app_nil_r, <- app_assoc. reflexivity.
  - rewrite !closed_fds_app, Hc, C. reflexivity.
  - rewrite !closed_fds_app, Hc, C. reflexivity.
Qed.

End Associate.

Lemma udp_associate_session_descriptors_witness :
  0 < fst (udp_svc_setup (example_sys 0 EOTHER 0 0 0)
             (mk_sockaddr AF_INET 0 [0; 0; 0; 0])) /\
  ud_kq (ts_udp (example_sys 0 EOTHER 0 0 0)) <> -1 /\
  closed_fds
    (snd (clientthread_authed inet_ntop_model inet_pton_model resolve_model
            resolve_model (example_sys 0 EOTHER 0 0 0) 5
            example_authed_state example_associate_request)) = [9; 12].
Proof.
  assert (H1 : 0 < fst (udp_svc_setup (example_sys 0 EOTHER 0 0 0)
                          (mk_sockaddr AF_INET 0 [0; 0; 0; 0])))
    by (vm_compute; reflexivity).
  assert (H2 : ud_kq (ts_udp (example_sys 0 EOTHER 0 0 0)) <> -1)
    by (simpl; lia).
  split; [exact H1|]. split; [exact H2|].
  pose proof (udp_associate_session_descriptors inet_ntop_model
                inet_pton_model resolve_model resolve_model
                (example_sys 0 EOTHER 0 0 0) 5 example_authed_state
                example_associate_request
                (mk_sockaddr AF_INET 0 [0; 0; 0; 0])
                example_associate_request_parsed H1 H2) as H.
  assert (Hex : fst (fst (clientthread_authed inet_ntop_model
                            inet_pton_model resolve_model resolve_model
                            (example_sys 0 EOTHER 0 0 0) 5
                            example_authed_state example_associate_request))
                = StepBreak) by (vm_compute; reflexivity).
  assert (Hfl : flow_sockets
                  (snd (clientthread_authed inet_ntop_model inet_pton_model
                          resolve_model resolve_model
                          (example_sys 0 EOTHER 0 0 0) 5
                          example_authed_state example_associate_request))
                = []) by (vm_compute; reflexivity).
  destruct (clientthread_authed inet_ntop_model inet_pton_model
              resolve_model resolve_model (example_sys 0 EOTHER 0 0 0) 5
              example_authed_state example_associate_request)
    as [[ex st'] tr].
  cbn [fst snd] in Hex, Hfl. subst ex.
  cbn in H. rewrite Hfl in H. exact H.
Defined.

(** ** Start-up *)

Lemma list_update_middle {A : Type} (a : list A) (x v : A) (b : list A) :
  list_update (a ++ x :: b) (length a) v = a ++ v :: b.
Proof.
  induction a as [|y a IH]; cbn [app length list_update]; [reflexivity|].
  now rewrite IH.
Qed.

Lemma zero_arg_loop_spec (count : nat) :
  forall (pre rest : list Z),
    (count <= length rest)%nat ->
    zero_arg_loop (pre ++ rest) (length pre) count =
    pre ++ repeat 0 count ++ skipn count rest.
Proof.
  induction count as [|count IH]; intros pre rest Hc; [reflexivity|].
  destruct rest as [|x rest]; [simpl in Hc; lia|].
  cbn [zero_arg_loop]. rewrite list_update_middle.
  replace (pre ++ 0 :: rest) with ((pre ++ [0]) ++ rest)
    by (now rewrite <- app_assoc).
  replace (S (length pre)) with (length (pre ++ [0]))
    by (rewrite length_app; simpl; lia).
  rewrite IH by (simpl in Hc; lia).
  rewrite <- app_assoc. reflexivity.
Qed.

Lemma zero_arg_spec (s : list Z) :
  zero_arg s = repeat 0 (length (c_str s)) ++ skipn (length (c_str s)) s.
Proof.
  unfold zero_arg, strlen, blen. rewrite Nat2Z.id.
  exact (zero_arg_loop_spec (length (c_str s)) [] s (c_str_length s)).
Qed.

Lemma zero_arg_strlen (s : list Z) : strlen (zero_arg s) = 0.
Proof.
  rewrite zero_arg_spec. unfold strlen.
  destruct (length (c_str s)) eqn:L.
  - cbn [repeat app skipn]. destruct (c_str s); [reflexivity|discriminate].
  - cbn [repeat app c_str]. reflexivity.
Qed.

(** [zero_arg] overwrites the argument with NUL bytes up to its
    terminator and touches nothing behind it: the array keeps its length,
    the string left in it is empty, and no byte of the argument
    remains. *)
Theorem zero_arg_wipes (s : list Z) :
  zero_arg s =
    repeat 0 (length (c_str s)) ++ skipn (length (c_str s)) s /\
  length (zero_arg s) = length s /\
  strlen (zero_arg s) = 0 /\
  (forall i, (i < length (c_str s))%nat -> nth i (zero_arg s) 1 = 0).
Proof.
  pose proof (zero_arg_spec s) as E. pose proof (c_str_length s) as Hl.
  split; [exact E|]. split; [|split].
  - rewrite E, length_app, repeat_length, length_skipn. lia.
  - apply zero_arg_strlen.
  - intros i Hi. rewrite E, app_nth1 by (now rewrite repeat_length).
    apply nth_repeat_lt. exact Hi.
Qed.

Section StartupProperties.

Variable atoi : list Z -> Z.

Lemma socks_main_options_ok (opts : list getopt_result) :
  forall cfg cfg',
    config_ok cfg ->
    socks_main_options atoi opts cfg = Some cfg' -> config_ok cfg'.
Proof.
  induction opts as [|ch rest IH]; intros cfg cfg' Hok;
    cbn [socks_main_options].
  - intros H; inversion H; subst; exact Hok.
  - destruct Hok as (Hu & Hp & Hw).
    destruct ch; try discriminate; apply IH; unfold config_ok;
      cbn [cf_auth_user cf_auth_pass cf_wiped];
      repeat split; auto.
    + intros u H; inversion H; subst. apply c_str_no_nul.
    + apply Forall_app. split; [exact Hw|]. constructor; [|constructor].
      apply zero_arg_strlen.
    + intros p H; inversion H; subst. apply c_str_no_nul.
    + apply Forall_app. split; [exact Hw|]. constructor; [|constructor].
      apply zero_arg_strlen.
Qed.


(** A server that goes on to serve has a consistent configuration: a user
    and a password are configured together or not at all, and auth-once
    is enabled only with them; the configured credentials are C strings
    (they hold no NUL), and every [-u] and [-P] operand in [argv] has been
    wiped. A usage error in any option, a user without a password, a
    password without a user, or [-1] without credentials ends the program
    before the listening socket is set up. *)
Theorem socks_main_start_consistent (opts : list getopt_result)
    (cfg : socks_config) :
  socks_main_start atoi opts = StartServe cfg ->
  socks_main_options atoi opts config_default = Some cfg /\
  (cf_auth_user cfg = None <-> cf_auth_pass cfg = None) /\
  (cf_auth_ips cfg <> None ->
   cf_auth_user cfg <> None /\ cf_auth_pass cfg <> None) /\
  config_ok cfg /\
  ~ In Opt_missing_operand opts /\ ~ In Opt_unknown opts.
Proof.
  unfold socks_main_start.
  destruct (socks_main_options atoi opts config_default) as [cfg'|] eqn:O;
    [|discriminate].
  destruct (cf_auth_user cfg') as [u|] eqn:U;
    destruct (cf_auth_pass cfg') as [p|] eqn:P; cbn [is_some negb andb orb];
    try discriminate.
  - rewrite andb_false_r. intros H; injection H as ->.
    split; [reflexivity|].
    rewrite U, P. split; [split; discriminate|].
    split; [intros _; split; discriminate|]. split.
    + apply (socks_main_options_ok opts config_default cfg); [|exact O].
      unfold config_ok, config_default. cbn. repeat split; try discriminate.
      constructor.
    + clear - O. revert O. generalize config_default.
      induction opts as [|ch rest IH]; intros c O; [split; intros []|].
      cbn [socks_main_options] in O.
      destruct ch; try discriminate;
        (destruct (IH _ O) as [N1 N2];
         split; intros [E|Hin]; try discriminate; tauto).
  - destruct (cf_auth_ips cfg') eqn:I; cbn [is_some negb andb];
      [discriminate|].
    intros H; injection H as ->. split; [reflexivity|].
    rewrite U, P, I. split; [tauto|].
    split; [intros N; now elim N|]. split.
    + apply (socks_main_options_ok opts config_default cfg); [|exact O].
      unfold config_ok, config_default. cbn. repeat split; try discriminate.
      constructor.
    + clear - O. revert O. generalize config_default.
      induction opts as [|ch rest IH]; intros c O; [split; intros []|].
      cbn [socks_main_options] in O.
      destruct ch; try discriminate;
        (destruct (IH _ O) as [N1 N2];
         split; intros [E|Hin]; try discriminate; tauto).
Qed.

(** In a server that serves, the username/password step always has a
    password to compare with: [check_auth_method] asks for a username and
    password only when a user is configured, and then a password is
    configured too. *)
Theorem served_credentials_are_set (opts : list getopt_result)
    (cfg : socks_config) (auth_ips : option (list sockaddr_union))
    (rdlock_rc : Z) (buf : list Z) (client : sockaddr_union) :
  socks_main_start atoi opts = StartServe cfg ->
  check_auth_method (cf_auth_user cfg) auth_ips rdlock_rc buf client =
    AM_USERNAME ->
  exists user pass,
    cf_auth_user cfg = Some user /\ cf_auth_pass cfg = Some pass /\
    forall msg,
      check_credentials (cf_auth_user cfg) (cf_auth_pass cfg) msg =
        EC_SUCCESS ->
      exists u p,
        check_credentials_extract msg = Some (u, p) /\
        c_str u = user /\ c_str p = pass.
Proof.
  unfold socks_main_start.
  destruct (socks_main_options atoi opts config_default) as [cfg'|] eqn:O;
    [|discriminate].
  intros S Ham.
  assert (Hok : config_ok cfg').
  { apply (socks_main_options_ok opts config_default cfg'); [|exact O].
    unfold config_ok, config_default. cbn. repeat split; try discriminate.
    constructor. }
  destruct (check_auth_method_cases (cf_auth_user cfg) auth_ips rdlock_rc
              buf client) as [(E & _)|[(_ & Hu)|E]];
    [rewrite E in Ham; discriminate | | rewrite E in Ham; discriminate].
  destruct (cf_auth_user cfg') as [u|] eqn:U;
    destruct (cf_auth_pass cfg') as [p|] eqn:P;
    cbn [is_some negb andb orb] in S; try discriminate.
  - rewrite andb_false_r in S. injection S as ->.
    destruct Hok as (Hnu & Hnp & _).
    exists u, p. rewrite U, P. split; [reflexivity|]. split; [reflexivity|].
    intros msg Hc. unfold check_credentials in Hc.
    destruct (check_credentials_extract msg) as [[mu mp]|];
      [|discriminate].
    exists mu, mp. split; [reflexivity|].
    unfold check_credentials_compare in Hc.
    destruct (Z.eqb_spec (strcmp mu u) 0) as [Eu|]; [|discriminate].
    destruct (Z.eqb_spec (strcmp mp p) 0) as [Ep|]; [|discriminate].
    apply strcmp_zero in Eu, Ep.
    rewrite (c_str_nul_free u (Hnu u U)) in Eu.
    rewrite (c_str_nul_free p (Hnp p P)) in Ep.
    now split.
  - destruct (is_some (cf_auth_ips cfg') && true) in S;
      [discriminate|]. injection S as <-. rewrite U in Hu. now elim Hu.
Qed.

End StartupProperties.

Lemma example_options_served :
  socks_main_start atoi_model example_options = StartServe example_config.
Proof. vm_compute. reflexivity. Qed.

Lemma socks_main_start_consistent_witness :
  socks_main_start atoi_model example_options = StartServe example_config /\
  (cf_auth_user example_config = None <->
   cf_auth_pass example_config = None) /\
  (cf_auth_ips example_config <> None ->
   cf_auth_user example_config <> None /\
   cf_auth_pass example_config <> None).
Proof.
  split; [exact example_options_served|].
  pose proof (socks_main_start_consistent atoi_model example_options
                example_config example_options_served)
    as (_ & H1 & H2 & _).
  split; [exact H1 | exact H2].
Defined.

Lemma served_credentials_are_set_witness :
  socks_main_start atoi_model example_options = StartServe example_config /\
  check_auth_method (cf_auth_user example_config) None 0 [5; 1; 2]
    example_ip = AM_USERNAME /\
  exists user pass,
    cf_auth_user example_config = Some user /\
    cf_auth_pass example_config = Some pass /\
    forall msg,
      check_credentials (cf_auth_user example_config)
        (cf_auth_pass example_config) msg = EC_SUCCESS ->
      exists u p,
        check_credentials_extract msg = Some (u, p) /\
        c_str u = user /\ c_str p = pass.
Proof.
  assert (H : check_auth_method (cf_auth_user example_config) None 0
                [5; 1; 2] example_ip = AM_USERNAME) by reflexivity.
  split; [exact example_options_served|]. split; [exact H|].
  exact (served_credentials_are_set atoi_model example_options
           example_config None 0 [5; 1; 2] example_ip
           example_options_served H).
Defined.

(** ** Requests and the resolver *)

Section RequestResolution.

Variable inet_ntop : address_family -> list Z -> option (list Z).
Variable inet_pton : address_family -> list Z -> option (list Z).
Variable resolve_tcp : list Z -> Z -> option sockaddr_union.
Variable resolve_udp : list Z -> Z -> option sockaddr_union.

(** What [parse_socks_request_header] asks the resolver and returns: for
    [05, cmd, 00] followed by the wire form of a well-formed address [x]
    (and any bytes after it, which are ignored), the host looked up is the
    text of the IP address, or the domain name up to its first NUL, and
    the port the port of [x]; a CONNECT is looked up with [resolve_tcp], a
    UDP ASSOCIATE with [resolve_udp]; the answer is returned with the
    command, and a failed lookup gives GeneralFailure. *)
Theorem parse_request_resolution (cmd : Z) (x : Address) (rest : list Z) :
  inet_contract inet_ntop inet_pton ->
  cmd = CONNECT \/ cmd = UDP_ASSOCIATE -> well_formed x ->
  parse_socks_request_header inet_ntop resolve_tcp resolve_udp
    ([VERSION; cmd; RSV] ++ spec_encode_address x ++ rest) =
  match (if cmd =? CONNECT then resolve_tcp else resolve_udp)
          (stored_name inet_ntop x) (address_port x) with
  | Some a => Ok (cmd, a)
  | None => Err (- EC_GENERAL_FAILURE)
  end.
Proof.
  intros libc Hcmd Hwf.
  destruct (parse_addrport_encode inet_ntop inet_pton libc x rest Hwf)
    as (P & Hnul & _).
  unfold parse_socks_request_header.
  set (buf := [VERSION; cmd; RSV] ++ spec_encode_address x ++ rest).
  assert (Hn : 3 <= blen buf).
  { unfold buf. blen_norm.
    pose proof (blen_nonneg (spec_encode_address x)).
    pose proof (blen_nonneg rest). lia. }
  destruct (Z.ltb_spec (blen buf) 3); [lia|].
  change (getb buf 0) with VERSION. change (getb buf 1) with cmd.
  change (getb buf 2) with RSV.
  change (skipn 3 buf) with (spec_encode_address x ++ rest).
  rewrite P. cbn [VERSION RSV Z.eqb Pos.eqb negb].
  unfold resolveSocks5Addrport. cbn [ap_addr ap_port].
  rewrite (c_str_c_array _ Hnul).
  destruct Hcmd as [-> | ->]; cbn [CONNECT UDP_ASSOCIATE Z.eqb Pos.eqb negb
    andb].
  - destruct (resolve_tcp _ _); reflexivity.
  - destruct (resolve_udp _ _); reflexivity.
Qed.

End RequestResolution.

Lemma parse_request_resolution_witness :
  (CONNECT = CONNECT \/ CONNECT = UDP_ASSOCIATE) /\
  well_formed (IPv4 [8; 8; 8; 8] 53) /\
  parse_socks_request_header inet_ntop_model resolve_model resolve_model
    ([VERSION; CONNECT; RSV] ++ spec_encode_address (IPv4 [8; 8; 8; 8] 53)
     ++ [7; 7]) =
  match resolve_model (stored_name inet_ntop_model (IPv4 [8; 8; 8; 8] 53))
          (address_port (IPv4 [8; 8; 8; 8] 53)) with
  | Some a => Ok (CONNECT, a)
  | None => Err (- EC_GENERAL_FAILURE)
  end.
Proof.
  assert (H : CONNECT = CONNECT \/ CONNECT = UDP_ASSOCIATE) by now left.
  assert (W : well_formed (IPv4 [8; 8; 8; 8] 53)).
  { simpl. split; [reflexivity|]. split.
    - repeat constructor; unfold is_byte; lia.
    - unfold well_formed_port; lia. }
  split; [exact H|]. split; [exact W|].
  exact (parse_request_resolution inet_ntop_model inet_pton_model
           resolve_model resolve_model CONNECT (IPv4 [8; 8; 8; 8] 53) [7; 7]
           inet_model_contract H W).
Defined.
